(** * wordlist_spider: a shallow embedding of [wordlist_spider.py]

    The development follows the classes of the program: [URLValidator],
    [IgnoreListManager], [TextProcessor], [WebSpider] and the ranking used
    by [OutputManager].  Python [str] values are Rocq strings; the model
    covers 7-bit ASCII text ([Py.isascii]), on which [str.lower],
    [str.strip] and the [re] character classes are the functions below;
    on other text Python follows the Unicode tables, which are not
    modelled.  Python [set] is a
    [gset], [Counter] an insertion-ordered association list, [dict] keyed
    by URL a [gmap].

    The libraries the program calls ([urllib.parse], [bs4], [requests]) are
    interfaces (type classes); instances modelled after the libraries are
    given at the end of the definitions.  A [ValueError] of [urllib.parse]
    is carried by a predicate beside each function that can raise it. *)

From Stdlib Require Import Ascii String List NArith Arith Lia Permutation Sorted
  DecimalString.
From stdpp Require Import gmap strings list fin_maps fin_sets.

Local Open Scope string_scope.
#[local] Set Warnings "-clear-no-such-hyp".

(** ** Python [str] operations on ASCII text *)

Module Py.

Definition code (c : ascii) : N := N_of_ascii c.

Definition in_range (lo hi : N) (c : ascii) : bool :=
  ((lo <=? code c) && (code c <=? hi))%N.

Definition is_upper (c : ascii) : bool := in_range 65 90 c.
Definition is_lower (c : ascii) : bool := in_range 97 122 c.
Definition is_digit (c : ascii) : bool := in_range 48 57 c.

(** [[a-zA-Z]] *)
Definition is_alpha (c : ascii) : bool := is_upper c || is_lower c.

(** [\w] on ASCII text: letters, digits and the underscore. On other
    text [\w], and with it [\b], also covers the letters and digits of
    Unicode. *)
Definition is_word (c : ascii) : bool :=
  is_alpha c || is_digit c || (code c =? 95)%N.

(** [str.isspace] on ASCII: tab, LF, VT, FF, CR, FS, GS, RS, US, space. *)
Definition is_space (c : ascii) : bool :=
  in_range 9 13 c || in_range 28 32 c.

(** The line boundaries of [str.splitlines] on ASCII:
    LF, VT, FF, CR, FS, GS, RS (CR LF counts once). *)
Definition is_linebreak (c : ascii) : bool :=
  in_range 10 13 c || in_range 28 30 c.

Definition lower_char (c : ascii) : ascii :=
  if is_upper c then ascii_of_N (code c + 32) else c.

(** [s.lower()] on ASCII text. *)
Fixpoint lower (s : string) : string :=
  match s with
  | EmptyString => EmptyString
  | String c s' => String (lower_char c) (lower s')
  end.

(** [s.startswith(p)] *)
Definition startswith (p s : string) : bool := String.prefix p s.

(** [s[n:]] *)
Fixpoint drop (n : nat) (s : string) : string :=
  match n, s with
  | O, _ => s
  | S _, EmptyString => EmptyString
  | S k, String _ s' => drop k s'
  end.

(** [sub in s] *)
Fixpoint contains (sub s : string) : bool :=
  String.prefix sub s ||
  match s with
  | EmptyString => false
  | String _ s' => contains sub s'
  end.

(** Truthiness of a [str]: non-empty. *)
Definition truthy (s : string) : bool :=
  match s with EmptyString => false | String _ _ => true end.

(** [s.lstrip()], [s.rstrip()], [s.strip()] *)
Fixpoint lstrip (s : string) : string :=
  match s with
  | EmptyString => EmptyString
  | String c s' => if is_space c then lstrip s' else s
  end.

Fixpoint rstrip (s : string) : string :=
  match s with
  | EmptyString => EmptyString
  | String c s' =>
      match rstrip s' with
      | EmptyString => if is_space c then EmptyString else String c EmptyString
      | r => String c r
      end
  end.

Definition strip (s : string) : string := rstrip (lstrip s).

(** [s.splitlines()]: [cur] is the line read so far; a boundary closes
    it, and no empty line is produced after the last boundary. *)
Fixpoint splitlines_aux (cur : string) (s : string) : list string :=
  match s with
  | EmptyString =>
      match cur with EmptyString => [] | _ => [cur] end
  | String c s' =>
      if is_linebreak c then
        match c, s' with
        | "013"%char, String "010"%char s'' => cur :: splitlines_aux EmptyString s''
        | _, _ => cur :: splitlines_aux EmptyString s'
        end
      else splitlines_aux (cur ++ String c EmptyString) s'
  end.

Definition splitlines (s : string) : list string :=
  splitlines_aux EmptyString s.

(** [s.split("  ")]: the separator of [extract_text_from_html], two
    spaces, matched left to right without overlap. *)
Fixpoint split_2sp_aux (cur : string) (s : string) : list string :=
  match s with
  | EmptyString => [cur]
  | String c s' =>
      match c, s' with
      | " "%char, String " "%char s'' => cur :: split_2sp_aux EmptyString s''
      | _, _ => split_2sp_aux (cur ++ String c EmptyString) s'
      end
  end.

Definition split_2sp (s : string) : list string :=
  split_2sp_aux EmptyString s.

(** [sep.join(l)] *)
Definition join (sep : string) (l : list string) : string :=
  String.concat sep l.

(** *** The regular expression [\b[a-zA-Z]+\b]

    A position is a word boundary when exactly one of its two
    neighbours is a [\w] character; the ends of the text count as not
    [\w]. *)
Definition is_word_opt (c : option ascii) : bool :=
  match c with Some c => is_word c | None => false end.

Definition boundary (prev next : option ascii) : bool :=
  xorb (is_word_opt prev) (is_word_opt next).

Definition head_char (s : string) : option ascii :=
  match s with EmptyString => None | String c _ => Some c end.

Fixpoint last_char (s : string) : option ascii :=
  match s with
  | EmptyString => None
  | String c s' =>
      match last_char s' with Some d => Some d | None => Some c end
  end.

(** [all(p(c) for c in s)] *)
Fixpoint all_chars (p : ascii -> bool) (s : string) : bool :=
  match s with
  | EmptyString => true
  | String c s' => p c && all_chars p s'
  end.

(** [s.isascii()] *)
Definition isascii (s : string) : bool :=
  all_chars (fun c => (code c <? 128)%N) s.

(** The rest of a match once a first letter [prev] is consumed:
    [[a-zA-Z]+] is greedy, so a further letter is taken first, and the
    engine backtracks to the shorter run when the closing [\b] fails
    further on. *)
Fixpoint match_run (prev : ascii) (s : string) : option string :=
  match s with
  | EmptyString =>
      if boundary (Some prev) None then Some EmptyString else None
  | String c s' =>
      if is_alpha c then
        match match_run c s' with
        | Some m => Some (String c m)
        | None =>
            if boundary (Some prev) (Some c) then Some EmptyString else None
        end
      else if boundary (Some prev) (Some c) then Some EmptyString else None
  end.

(** The pattern tried at the position whose left neighbour is [prev]. *)
Definition match_here (prev : option ascii) (s : string) : option string :=
  match s with
  | EmptyString => None
  | String c s' =>
      if boundary prev (Some c) && is_alpha c
      then option_map (String c) (match_run c s')
      else None
  end.

(** [pattern.findall(s)] on ASCII text: matches are taken left to right
    without overlap; [skip] counts the characters still covered by the last
    match. *)
Fixpoint findall_aux (prev : option ascii) (skip : nat) (s : string)
  : list string :=
  match s with
  | EmptyString => []
  | String c s' =>
      match skip with
      | S k => findall_aux (Some c) k s'
      | O =>
          match match_here prev s with
          | Some m => m :: findall_aux (Some c) (String.length m - 1) s'
          | None => findall_aux (Some c) 0 s'
          end
      end
  end.

Definition findall (s : string) : list string := findall_aux None 0 s.

(** [s.split(ch)] for a separator of one character. *)
Fixpoint split_char_aux (ch : ascii) (cur : string) (s : string)
  : list string :=
  match s with
  | EmptyString => [cur]
  | String c s' =>
      if Ascii.eqb c ch then cur :: split_char_aux ch EmptyString s'
      else split_char_aux ch (cur ++ String c EmptyString) s'
  end.

Definition split_char (ch : ascii) (s : string) : list string :=
  split_char_aux ch EmptyString s.

(** The lines that iterating over a text file yields, for a file of
    content [s]: every line keeps its end, which universal newlines give
    as LF for LF, CR LF and CR alike; text after the last line end is a
    last line without end. *)
Fixpoint readlines_aux (cur : string) (s : string) : list string :=
  match s with
  | EmptyString =>
      match cur with EmptyString => [] | _ => [cur] end
  | String c s' =>
      match c, s' with
      | "013"%char, String "010"%char s'' =>
          (cur ++ String "010" EmptyString) :: readlines_aux EmptyString s''
      | "013"%char, _ | "010"%char, _ =>
          (cur ++ String "010" EmptyString) :: readlines_aux EmptyString s'
      | _, _ => readlines_aux (cur ++ String c EmptyString) s'
      end
  end.

Definition readlines (s : string) : list string :=
  readlines_aux EmptyString s.

(** [str(n)] for a natural number. *)
Definition str_of_nat (n : nat) : string :=
  NilEmpty.string_of_uint (Nat.to_uint n).

End Py.

(** ** Library interfaces *)

(** The 6-tuple of [urllib.parse.urlparse]. *)
Record ParseResult : Type := mkParseResult {
  scheme : string;
  netloc : string;
  path : string;
  params : string;
  query : string;
  fragment : string
}.

(** [urllib.parse]: [urlparse(url)], [urlunparse(components)] and
    [urljoin(base, url)].  [urlparse] and [urljoin] raise [ValueError] on
    some strings (a network location with a bracket that has no partner,
    for one): [urlparse_raises url] and [urljoin_raises base url] tell
    whether the call raises, [urlparse url] and [urljoin base url] are
    what it returns when it does not. *)
Class Urllib : Type := {
  urlparse : string -> ParseResult;
  urlunparse : ParseResult -> string;
  urljoin : string -> string -> string;
  urlparse_raises : string -> bool;
  urljoin_raises : string -> string -> bool
}.

(** [bs4]: [soup_get_text html] is [soup.get_text()] once the [script] and
    [style] elements are decomposed, [soup_hrefs html] lists [link['href']]
    for [link] in [soup.find_all('a', href=True)], in document order.
    [None] stands for an exception raised by the parser. *)
Class Bs4 : Type := {
  soup_get_text : string -> option string;
  soup_hrefs : string -> option (list string)
}.

(** What [session.get(url, timeout=30)] followed by
    [response.raise_for_status()] comes to: a [requests.RequestException]
    (connection error, timeout, or the [HTTPError] of an error status), or
    a response with its [content-type] header, if any, and its text. *)
Inductive Outcome : Type :=
| RequestException
| Response (content_type : option string) (text : string).

(** The network: the outcome of the [n]-th request of a crawl, for [url]. *)
Class Requests : Type := {
  session_get : nat -> string -> Outcome
}.

(** ** [class URLValidator] *)

Section URLValidator.
Context `{Urllib}.

(** [normalize_url], [get_domain] and [is_same_domain] have no handler:
    a [ValueError] of [urlparse] leaves them.  The definitions give what
    a call returns; [normalize_url_raises], [get_domain_raises] and
    [is_same_domain_raises] tell when it raises instead. *)
Definition normalize_url_raises (url : string) : bool :=
  urlparse_raises url.

Definition normalize_url (url : string) : string :=
  let parsed := urlparse url in
  urlunparse (mkParseResult
    parsed.(scheme)
    (Py.lower parsed.(netloc))
    parsed.(path)
    parsed.(params)
    parsed.(query)
    "").

Definition get_domain_raises (url : string) : bool :=
  urlparse_raises url.

Definition get_domain (url : string) : string :=
  Py.lower (urlparse url).(netloc).

Definition strip_www (domain : string) : string :=
  if Py.startswith "www." domain then Py.drop 4 domain else domain.

Definition is_same_domain_raises (url1 url2 : string) : bool :=
  get_domain_raises url1 || get_domain_raises url2.

Definition is_same_domain (url1 url2 : string) : bool :=
  let domain1 := Py.lower (get_domain url1) in
  let domain2 := Py.lower (get_domain url2) in
  let domain1 := strip_www domain1 in
  let domain2 := strip_www domain2 in
  String.eqb domain1 domain2.

(** The [except] branch of [is_valid_url] answers [False] when
    [urlparse] raises. *)
Definition is_valid_url (url : string) : bool :=
  if urlparse_raises url then false
  else
    let result := urlparse url in
    Py.truthy result.(scheme) && Py.truthy result.(netloc).

End URLValidator.

(** ** [class IgnoreListManager] *)

(** [load_ignore_list], on the lines of the ignore file. *)
Definition load_ignore_list (lines : list string) : gset string :=
  fold_left
    (fun (ignore_words : gset string) (line : string) =>
       let line := Py.lower (Py.strip line) in
       if Py.truthy line && negb (Py.startswith "#" line)
       then ignore_words ∪ {[ line ]}
       else ignore_words)
    lines ∅.

(** The lines that [create_default_ignore_list] writes. *)
Definition default_words : list string :=
  ["# Common English words to ignore";
   "a"; "an"; "and"; "are"; "as"; "at"; "be"; "been"; "by"; "for";
   "from"; "has"; "he"; "in"; "is"; "it"; "its"; "of"; "on"; "that";
   "the"; "to"; "was"; "will"; "with"; "the"; "this"; "but"; "they";
   "have"; "had"; "what"; "said"; "each"; "which"; "she"; "do"; "how";
   "their"; "if"; "up"; "out"; "many"; "then"; "them"; "these"; "so";
   "some"; "her"; "would"; "make"; "like"; "into"; "him"; "time"; "has";
   "two"; "more"; "go"; "no"; "way"; "could"; "my"; "than"; "first";
   "been"; "call"; "who"; "oil"; "sit"; "now"; "find"; "down"; "day";
   "did"; "get"; "come"; "made"; "may"; "part"].

(** The text that [create_default_ignore_list] writes to the ignore file. *)
Definition default_ignore_file : string := Py.join (String "010" "") default_words.

(** [IgnoreListManager.__init__]: [file] is the content of the ignore
    file, [None] when the file does not exist, in which case the default
    file is written and loaded. The result is the file left on disk and
    the ignore words. *)
Definition ignore_manager_init (file : option string) : string * gset string :=
  match file with
  | Some content => (content, load_ignore_list (Py.readlines content))
  | None =>
      (default_ignore_file, load_ignore_list (Py.readlines default_ignore_file))
  end.

Definition should_ignore (ignore_words : gset string) (word : string) : bool :=
  bool_decide (Py.lower word ∈ ignore_words).

(** ** [collections.Counter]

    A [Counter] is a [dict]: its items are kept in the order in which the
    keys were first inserted. *)
Definition Counter : Type := list (string * nat).

(** [c[elem] = count + c.get(elem, 0)] *)
Fixpoint counter_add (elem : string) (count : nat) (c : Counter) : Counter :=
  match c with
  | [] => [(elem, count)]
  | (k, v) :: c' =>
      if String.eqb k elem then (k, count + v) :: c'
      else (k, v) :: counter_add elem count c'
  end.

(** [Counter(words)] *)
Definition counter_of (words : list string) : Counter :=
  fold_left (fun c w => counter_add w 1 c) words [].

(** [c.update(other)] for a mapping [other]. *)
Definition counter_update (c other : Counter) : Counter :=
  fold_left (fun c kv => counter_add (fst kv) (snd kv) c) other c.

(** [c[word]], 0 for a missing key. *)
Fixpoint counter_get (c : Counter) (word : string) : nat :=
  match c with
  | [] => 0
  | (k, v) :: c' => if String.eqb k word then v else counter_get c' word
  end.

(** [sorted(items, key=itemgetter(1), reverse=True)]: the sort is stable,
    so an item goes behind the items of a greater or equal count that come
    before it. *)
Fixpoint insert_desc (x : string * nat) (l : list (string * nat))
  : list (string * nat) :=
  match l with
  | [] => [x]
  | y :: l' =>
      if (snd x <? snd y)%nat then y :: insert_desc x l'
      else x :: y :: l'
  end.

Definition sorted_desc (items : list (string * nat)) : list (string * nat) :=
  fold_right insert_desc [] items.

(** [c.most_common(n)]; [None] is the call without argument. With an
    argument it is [heapq.nlargest(n, items, key)], which is
    [sorted(items, key=key, reverse=True)[:n]]. *)
Definition most_common (n : option nat) (c : Counter) : list (string * nat) :=
  match n with
  | None => sorted_desc c
  | Some k => firstn k (sorted_desc c)
  end.

(** ** [class TextProcessor] *)

Section TextProcessor.
Context `{Urllib} `{Bs4}.
Variable ignore_words : gset string.

Definition extract_text_from_html (html_content : string) : string :=
  match soup_get_text html_content with
  | None => ""
  | Some text =>
      let lines := map Py.strip (Py.splitlines text) in
      let chunks :=
        flat_map (fun line => map Py.strip (Py.split_2sp line)) lines in
      Py.join " " (List.filter Py.truthy chunks)
  end.

Definition extract_words (text : string) : list string :=
  let words := Py.findall (Py.lower text) in
  List.filter
    (fun word => negb (should_ignore ignore_words word)
                 && (2 <? String.length word)%nat)
    words.

(** The loop of [extract_links] over the anchors.  The [try] encloses
    the whole loop: a [ValueError] of [urljoin] or of [normalize_url]
    ends it, and the links added so far are returned. *)
Fixpoint extract_links_loop (base_url : string) (hrefs : list string)
    (links : gset string) : gset string :=
  match hrefs with
  | [] => links
  | href :: hrefs' =>
      if urljoin_raises base_url href then links
      else
        let full_url := urljoin base_url href in
        if normalize_url_raises full_url then links
        else
          let normalized_url := normalize_url full_url in
          extract_links_loop base_url hrefs'
            (if is_valid_url normalized_url
             then links ∪ {[ normalized_url ]}
             else links)
  end.

Definition extract_links (html_content base_url : string) : gset string :=
  match soup_hrefs html_content with
  | None => ∅
  | Some hrefs => extract_links_loop base_url hrefs ∅
  end.

End TextProcessor.

(** ** [class WebSpider] *)

(** The fields of a [WebSpider] that the crawl changes, and [stdout]: the
    line [[page_num] url] that [crawl_page] prints for every page it
    processes, oldest first. *)
Record WebSpider : Type := mkWebSpider {
  visited_urls : gset string;
  word_counts : Counter;
  page_word_counts : gmap string Counter;
  total_words_processed : nat;
  stdout : list (nat * string)
}.

(** [WebSpider.__init__] *)
Definition new_spider : WebSpider :=
  {| visited_urls := ∅;
     word_counts := [];
     page_word_counts := ∅;
     total_words_processed := 0;
     stdout := [] |}.

(** The local variables of the loop of [crawl_website]. *)
Record LoopState : Type := mkLoopState {
  spider : WebSpider;
  urls_to_visit : gset string;
  page_count : nat
}.

(** [s.pop()] removes and returns an arbitrary element: the one at index
    [choice] (modulo the size) of the elements of [s]. [None] is the
    [KeyError] of an empty set. *)
Definition set_pop (choice : nat) (s : gset string)
  : option (string * gset string) :=
  let l := elements s in
  match l !! (choice mod length l) with
  | Some u => Some (u, s ∖ {[ u ]})
  | None => None
  end.

(** The update of [urls_to_visit] that ends an iteration of the loop of
    [crawl_website]: the links that are not visited are added. *)
Definition offer (visited_urls urls_to_visit new_links : gset string)
  : gset string :=
  let new_unvisited_links : gset string :=
    filter (fun link => link ∉ visited_urls) new_links in
  urls_to_visit ∪ new_unvisited_links.

Section WebSpider.
Context `{Urllib} `{Bs4} `{Requests}.
Variable ignore_words : gset string.

(** The element that [pop] picks at iteration [page_count], given the
    elements of the set. *)
Variable pick : nat -> list string -> nat.

(** [fetch_page]; [n] numbers the request. *)
Definition fetch_page (n : nat) (url : string) : option string :=
  match session_get n url with
  | RequestException => None
  | Response header text =>
      let content_type := Py.lower (default "" header) in
      if negb (Py.contains "text/html" content_type
               || Py.contains "application/xhtml" content_type)
      then None
      else Some text
  end.

Definition crawl_page (self : WebSpider) (url : string)
    (page_num queue_size : nat) : WebSpider * gset string :=
  if decide (url ∈ self.(visited_urls)) then (self, ∅)
  else
    let self :=
      {| visited_urls := self.(visited_urls) ∪ {[ url ]};
         word_counts := self.(word_counts);
         page_word_counts := self.(page_word_counts);
         total_words_processed := self.(total_words_processed);
         stdout := self.(stdout) ++ [(page_num, url)] |} in
    match fetch_page page_num url with
    | None => (self, ∅)
    | Some html_content =>
        if negb (Py.truthy html_content) then (self, ∅)
        else
          let text := extract_text_from_html html_content in
          let words := extract_words ignore_words text in
          let page_counter := counter_of words in
          let self :=
            {| visited_urls := self.(visited_urls);
               word_counts := counter_update self.(word_counts) page_counter;
               page_word_counts :=
                 <[ url := page_counter ]> self.(page_word_counts);
               total_words_processed :=
                 self.(total_words_processed) + length words;
               stdout := self.(stdout) |} in
          let links := extract_links html_content url in
          let same_domain_links : gset string :=
            filter (fun link => is_same_domain link url = true
                                ∧ link ∉ self.(visited_urls)) links in
          (self, same_domain_links)
    end.

(** The domain test of [crawl_page] has no handler: the call raises
    [ValueError] when [is_same_domain] does on one of the links. *)
Definition crawl_page_raises (self : WebSpider) (url : string)
    (page_num : nat) : bool :=
  if decide (url ∈ self.(visited_urls)) then false
  else
    match fetch_page page_num url with
    | None => false
    | Some html_content =>
        if negb (Py.truthy html_content) then false
        else
          existsb (fun link => is_same_domain_raises link url)
                  (elements (extract_links html_content url))
    end.

(** One iteration of [while urls_to_visit:]. *)
Definition loop_body (st : LoopState) : option LoopState :=
  let page_count := S st.(page_count) in
  match set_pop (pick page_count (elements st.(urls_to_visit)))
                st.(urls_to_visit) with
  | None => None
  | Some (current_url, urls_to_visit) =>
      let '(self, new_links) :=
        crawl_page st.(spider) current_url page_count (size urls_to_visit) in
      let new_unvisited_links : gset string :=
        filter (fun link => link ∉ self.(visited_urls)) new_links in
      Some {| spider := self;
              urls_to_visit := urls_to_visit ∪ new_unvisited_links;
              page_count := page_count |}
  end.

(** The loop, run for at most [fuel] iterations; [None] when the fuel
    runs out before the set is empty. *)
Fixpoint while_loop (fuel : nat) (st : LoopState) : option LoopState :=
  if decide (st.(urls_to_visit) = ∅) then Some st
  else
    match fuel with
    | O => None
    | S fuel' =>
        match loop_body st with
        | Some st' => while_loop fuel' st'
        | None => None
        end
    end.

(** The state after exactly [n] iterations, if the loop runs that long. *)
Fixpoint iterations (n : nat) (st : LoopState) : option LoopState :=
  match n with
  | O => Some st
  | S n' =>
      if decide (st.(urls_to_visit) = ∅) then None
      else
        match loop_body st with
        | Some st' => iterations n' st'
        | None => None
        end
  end.

(** [urls_to_visit.pop()] at the iteration that follows [st]. *)
Definition pop_next (st : LoopState) : option (string * gset string) :=
  set_pop (pick (S st.(page_count)) (elements st.(urls_to_visit)))
          st.(urls_to_visit).

(** The URLs that [pop] returns in the first [n] iterations from [st]. *)
Fixpoint dequeued (n : nat) (st : LoopState) : list string :=
  match n with
  | O => []
  | S n' =>
      if decide (st.(urls_to_visit) = ∅) then []
      else
        match pop_next st, loop_body st with
        | Some (current_url, _), Some st' => current_url :: dequeued n' st'
        | _, _ => []
        end
  end.

(** The links of the page of [url] that pass the domain test of
    [crawl_page], when the page is fetched by request [n]. *)
Definition page_links (n : nat) (url : string) : gset string :=
  match fetch_page n url with
  | None => ∅
  | Some html_content =>
      if negb (Py.truthy html_content) then ∅
      else filter (fun link => is_same_domain link url = true)
                  (extract_links html_content url)
  end.

(** [crawl_website] calls [normalize_url] and then [get_domain] before
    it tests the start URL: a [ValueError] of either leaves the function,
    and the program, before the spider is touched.  [loop_entry] and
    [crawl_website] below describe the call when there is no such
    error. *)
Definition crawl_website_raises (start_url : string) : bool :=
  normalize_url_raises start_url
  || get_domain_raises (normalize_url start_url).

(** The loop state with which [crawl_website] enters its loop, or [None]
    when the start URL is rejected. *)
Definition loop_entry (self : WebSpider) (start_url : string)
  : option LoopState :=
  let start_url := normalize_url start_url in
  if negb (is_valid_url start_url) then None
  else Some {| spider := self;
               urls_to_visit := {[ start_url ]};
               page_count := 0 |}.

Definition crawl_website (fuel : nat) (self : WebSpider)
    (start_url : string) : option WebSpider :=
  match loop_entry self start_url with
  | None => Some self
  | Some st => spider <$> while_loop fuel st
  end.

End WebSpider.

(** ** [class OutputManager] *)

(** The three ways in which [save_results] writes the results. *)
Inductive Format : Type := Json | Csv | Txt.

(** [output_file.lower().split('.')[-1]] *)
Definition file_ext (output_file : string) : string :=
  List.last (Py.split_char "." (Py.lower output_file)) "".

(** The branch that [save_results] takes. *)
Definition save_format (output_file : string) : Format :=
  let file_ext := file_ext output_file in
  if String.eqb file_ext "json" then Json
  else if String.eqb file_ext "csv" then Csv
  else Txt.

(** The text that [_save_csv] writes: a line [count,word] for every item
    of [word_counts.most_common()]. [_save_txt] writes the same text. *)
Definition _save_csv (word_counts : Counter) : string :=
  String.concat ""
    (map (fun item => Py.str_of_nat (snd item) ++ "," ++ fst item
                      ++ String "010" "")
         (most_common None word_counts)).

Definition _save_txt (word_counts : Counter) : string :=
  String.concat ""
    (map (fun item => Py.str_of_nat (snd item) ++ "," ++ fst item
                      ++ String "010" "")
         (most_common None word_counts)).

(** [sum(word_counts.values())] *)
Definition counter_total (c : Counter) : nat :=
  fold_right (fun item acc => snd item + acc) 0 c.

(** The [data] that [_save_json] dumps. *)
Record JsonSummary : Type := mkJsonSummary {
  total_pages : nat;
  total_unique_words : nat;
  total_word_occurrences : nat
}.

Record JsonData : Type := mkJsonData {
  summary : JsonSummary;
  overall_word_counts : list (string * nat);
  json_page_word_counts : gmap string Counter;
  json_visited_urls : list string
}.

Definition _save_json (word_counts : Counter)
    (page_word_counts : gmap string Counter) (visited_urls : gset string)
  : JsonData :=
  {| summary :=
       {| total_pages := size visited_urls;
          total_unique_words := length word_counts;
          total_word_occurrences := counter_total word_counts |};
     overall_word_counts := most_common None word_counts;
     json_page_word_counts := page_word_counts;
     json_visited_urls := elements visited_urls |}.

(** What [save_results] writes to the output file. *)
Inductive Written : Type :=
| WrittenJson (data : JsonData)
| WrittenText (text : string).

Definition save_results (word_counts : Counter)
    (page_word_counts : gmap string Counter) (output_file : string)
    (visited_urls : gset string) : Written :=
  match save_format output_file with
  | Json => WrittenJson (_save_json word_counts page_word_counts visited_urls)
  | Csv => WrittenText (_save_csv word_counts)
  | Txt => WrittenText (_save_txt word_counts)
  end.

(** ** [main]

    [ignore_file] is the content of the ignore file, if it exists; the
    result is what is written to the output file, when the crawl returns
    within [fuel] iterations.  [main] has no handler either: where
    [crawl_website_raises] holds of the URL, the program ends with the
    [ValueError] and writes nothing. *)
Definition main `{Urllib} `{Bs4} `{Requests}
    (pick : nat -> list string -> nat) (fuel : nat)
    (url output : string) (ignore_file : option string) : option Written :=
  let ignore_manager := snd (ignore_manager_init ignore_file) in
  match crawl_website ignore_manager pick fuel new_spider url with
  | Some spider =>
      Some (save_results spider.(word_counts) spider.(page_word_counts)
              output spider.(visited_urls))
  | None => None
  end.

(** ** Instances of the library interfaces

    [urlparse] and [urlunparse] follow [urllib/parse.py] of CPython 3.11.0
    on ASCII input, with its check of the brackets of the network
    location, which raises [ValueError]; later releases also check the
    address between two brackets, which is not modelled.  [urljoin], the
    HTML parser and the networks are small stand-ins that serve the
    examples. *)

Module Instances.

(** [(s[:i], s[i+1:])] for the first [i] with [s[i] = ch], if any. *)
Fixpoint cut (ch : ascii) (s : string) : option (string * string) :=
  match s with
  | EmptyString => None
  | String c s' =>
      if Ascii.eqb c ch then Some (EmptyString, s')
      else match cut ch s' with
           | Some (a, b) => Some (String c a, b)
           | None => None
           end
  end.

Definition has_char (ch : ascii) (s : string) : bool :=
  match cut ch s with Some _ => true | None => false end.

Fixpoint remove_chars (p : ascii -> bool) (s : string) : string :=
  match s with
  | EmptyString => EmptyString
  | String c s' => if p c then remove_chars p s' else String c (remove_chars p s')
  end.

Fixpoint lstrip_chars (p : ascii -> bool) (s : string) : string :=
  match s with
  | EmptyString => EmptyString
  | String c s' => if p c then lstrip_chars p s' else s
  end.

Definition uses_netloc : list string :=
  [""; "ftp"; "http"; "gopher"; "nntp"; "telnet"; "imap"; "wais"; "file";
   "mms"; "https"; "shttp"; "snews"; "prospero"; "rtsp"; "rtspu"; "rsync";
   "svn"; "svn+ssh"; "sftp"; "nfs"; "git"; "git+ssh"; "ws"; "wss"].

Definition uses_params : list string :=
  [""; "ftp"; "hdl"; "prospero"; "http"; "imap"; "https"; "shttp"; "rtsp";
   "rtspu"; "sip"; "sips"; "mms"; "sftp"; "tel"].

Definition mem (s : string) (l : list string) : bool :=
  existsb (String.eqb s) l.

(** [scheme_chars] *)
Definition is_scheme_char (c : ascii) : bool :=
  Py.is_alpha c || Py.is_digit c
  || Ascii.eqb c "+" || Ascii.eqb c "-" || Ascii.eqb c ".".

(** [_splitnetloc(url, 2)] on the text after the two slashes. *)
Fixpoint splitnetloc (s : string) : string * string :=
  match s with
  | EmptyString => (EmptyString, EmptyString)
  | String c s' =>
      if Ascii.eqb c "/" || Ascii.eqb c "?" || Ascii.eqb c "#"
      then (EmptyString, s)
      else let '(a, b) := splitnetloc s' in (String c a, b)
  end.

(** The scheme, if the text before the first colon is one, and the rest. *)
Definition split_scheme (url : string) : string * string :=
  match cut ":" url with
  | Some (String c0 pre, rest) =>
      if Py.is_alpha c0 && Py.all_chars is_scheme_char (String c0 pre)
      then (Py.lower (String c0 pre), rest)
      else (EmptyString, url)
  | _ => (EmptyString, url)
  end.

(** [(scheme, netloc, url, query, fragment)] *)
Definition urlsplit (url : string)
  : string * string * string * string * string :=
  let url := lstrip_chars (fun c => (Py.code c <=? 32)%N) url in
  let url :=
    remove_chars
      (fun c => Ascii.eqb c "009" || Ascii.eqb c "013" || Ascii.eqb c "010")
      url in
  let '(scheme, url) := split_scheme url in
  let '(netloc, url) :=
    if Py.startswith "//" url then splitnetloc (Py.drop 2 url)
    else (EmptyString, url) in
  let '(url, fragment) :=
    match cut "#" url with
    | Some (a, b) => (a, b)
    | None => (url, EmptyString)
    end in
  let '(url, query) :=
    match cut "?" url with
    | Some (a, b) => (a, b)
    | None => (url, EmptyString)
    end in
  (scheme, netloc, url, query, fragment).

(** [_splitparams]: the parameters are cut off the last path segment. *)
Fixpoint splitparams (url : string) : string * string :=
  match url with
  | EmptyString => (EmptyString, EmptyString)
  | String c s' =>
      if has_char "/" s' then
        let '(p, q) := splitparams s' in (String c p, q)
      else if Ascii.eqb c "/" then
        match cut ";" s' with
        | Some (a, b) => (String c a, b)
        | None => (url, EmptyString)
        end
      else
        match cut ";" url with
        | Some (a, b) => (a, b)
        | None => (url, EmptyString)
        end
  end.

(** [urlsplit] raises "Invalid IPv6 URL" when the network location has
    one of the two brackets without the other. *)
Definition py_urlparse_raises (url : string) : bool :=
  let '(_, netloc, _, _, _) := urlsplit url in
  xorb (has_char "[" netloc) (has_char "]" netloc).

Definition py_urlparse (url : string) : ParseResult :=
  let '(scheme, netloc, url, query, fragment) := urlsplit url in
  let '(url, params) :=
    if mem scheme uses_params && has_char ";" url then splitparams url
    else (url, EmptyString) in
  mkParseResult scheme netloc url params query fragment.

Definition urlunsplit (scheme netloc url query fragment : string) : string :=
  let url :=
    if Py.truthy netloc
       || (Py.truthy scheme && mem scheme uses_netloc
           && negb (Py.startswith "//" url))
    then
      let url :=
        if Py.truthy url && negb (Py.startswith "/" url)
        then "/" ++ url else url in
      "//" ++ netloc ++ url
    else url in
  let url := if Py.truthy scheme then scheme ++ ":" ++ url else url in
  let url := if Py.truthy query then url ++ "?" ++ query else url in
  if Py.truthy fragment then url ++ "#" ++ fragment else url.

Definition py_urlunparse (t : ParseResult) : string :=
  let url :=
    if Py.truthy t.(params) then t.(path) ++ ";" ++ t.(params)
    else t.(path) in
  urlunsplit t.(scheme) t.(netloc) url t.(query) t.(fragment).

(** [urljoin] for the references of the examples: an empty reference is
    the base, a reference with a scheme and a network location is put
    back together from its parts, a reference that starts with one slash
    keeps the scheme and the network location of the base. Relative
    paths are not resolved. *)
Definition abs_urljoin (base url : string) : string :=
  if negb (Py.truthy base) then url
  else if negb (Py.truthy url) then base
  else
    let b := py_urlparse base in
    let u := py_urlparse url in
    if Py.truthy u.(scheme) && Py.truthy u.(netloc) then py_urlunparse u
    else if Py.startswith "/" url && negb (Py.truthy u.(netloc)) then
      py_urlunparse (mkParseResult b.(scheme) b.(netloc) u.(path)
                       u.(params) u.(query) u.(fragment))
    else url.

(** [urljoin] parses both of its arguments, unless one is empty. *)
Definition abs_urljoin_raises (base url : string) : bool :=
  Py.truthy base && Py.truthy url
  && (py_urlparse_raises base || py_urlparse_raises url).

#[export] Instance cpython_urllib : Urllib :=
  {| urlparse := py_urlparse;
     urlunparse := py_urlunparse;
     urljoin := abs_urljoin;
     urlparse_raises := py_urlparse_raises;
     urljoin_raises := abs_urljoin_raises |}.

(** A parser for pages without [script] and [style] elements and with
    single-quoted attributes: the text is what lies outside the tags, the
    links are the values that follow [href=']. *)
Fixpoint tag_free (in_tag : bool) (s : string) : string :=
  match s with
  | EmptyString => EmptyString
  | String c s' =>
      if Ascii.eqb c "<" then tag_free true s'
      else if Ascii.eqb c ">" then
        if in_tag then tag_free false s' else String c (tag_free false s')
      else if in_tag then tag_free true s'
      else String c (tag_free false s')
  end.

Fixpoint href_values (s : string) : list string :=
  match s with
  | EmptyString => []
  | String c s' =>
      if Py.startswith "href='" s then
        match cut "'" (Py.drop 6 s) with
        | Some (v, _) => v :: href_values s'
        | None => href_values s'
        end
      else href_values s'
  end.

#[export] Instance tiny_soup : Bs4 :=
  {| soup_get_text := fun html => Some (tag_free false html);
     soup_hrefs := fun html => Some (href_values html) |}.

(** A network given by a table of pages: a listed URL answers with
    [text/html] and its page, any other URL fails. *)
Fixpoint lookup_page (pages : list (string * string)) (url : string)
  : Outcome :=
  match pages with
  | [] => RequestException
  | (u, html) :: rest =>
      if String.eqb u url then Response (Some "text/html; charset=utf-8") html
      else lookup_page rest url
  end.

Definition table_net (pages : list (string * string)) : Requests :=
  {| session_get := fun _ url => lookup_page pages url |}.

(** [pop] takes the first element. *)
Definition pick_first : nat -> list string -> nat := fun _ _ => 0.

(** [pop] takes the last element. *)
Definition pick_last : nat -> list string -> nat :=
  fun _ l => length l - 1.

(** A site with a cycle: page a links to page b, page b links back to a
    (and to a, again, with a fragment). *)
Definition cycle_site : list (string * string) :=
  [("http://example.com/a",
    "<p>Alpha page</p> <a href='http://example.com/b'>next</a>");
   ("http://example.com/b",
    "<p>Beta page</p> <a href='/a'>back</a> <a href='/a#top'>top</a>")].

(** A site of one page, whose only link leaves the domain. *)
Definition single_site : list (string * string) :=
  [("http://example.com/",
    "<p>The Cat sat.</p> <a href='http://other.org/x'>elsewhere</a>")].

(** A site whose page b is missing (the request fails) and whose page d
    is empty. *)
Definition broken_site : list (string * string) :=
  [("http://example.com/a",
    "<a href='/b'>b</a> <a href='/c'>c</a> <a href='/d'>d</a> alpha");
   ("http://example.com/c", "<a href='/a'>a</a> gamma gamma");
   ("http://example.com/d", "")].

Definition cycle_net : Requests := table_net cycle_site.
Definition single_net : Requests := table_net single_site.
Definition broken_net : Requests := table_net broken_site.

(** The loop state at the entry of a crawl of [start_url]. *)
Definition entry_at (start_url : string) : LoopState :=
  {| spider := new_spider;
     urls_to_visit := {[ start_url ]};
     page_count := 0 |}.

End Instances.

(** ** Vocabulary of the statements *)

(** [w] is a non-empty run of ASCII letters of [text], between [pre] and
    [post]. *)
Definition letter_run (text pre w post : string) : Prop :=
  text = pre ++ w ++ post /\ w <> "" /\ Py.all_chars Py.is_alpha w = true.

(** The order of a ranking by count, highest first. *)
Definition by_count_desc (a b : string * nat) : Prop := snd b <= snd a.

(** The items of count [k]. *)
Definition has_count (k : nat) (kv : string * nat) : bool := (snd kv =? k)%nat.

(** The character on the left of the position reached after [pre], when
    [prev] is the character before [pre]. *)
Definition left_neighbour (prev : option ascii) (pre : string) : option ascii :=
  match Py.last_char pre with Some d => Some d | None => prev end.

(** The run is maximal: no letter touches it. *)
Definition maximal_run (text pre w post : string) : Prop :=
  letter_run text pre w post
  /\ (forall c, Py.last_char pre = Some c -> Py.is_alpha c = false)
  /\ (forall c, Py.head_char post = Some c -> Py.is_alpha c = false).

(** The run stands between word boundaries: no letter, digit or
    underscore touches it. *)
Definition delimited_run (text pre w post : string) : Prop :=
  letter_run text pre w post
  /\ Py.is_word_opt (Py.last_char pre) = false
  /\ Py.is_word_opt (Py.head_char post) = false.

(** What [is_same_domain] compares: the host of a URL without a leading
    "www.". *)
Definition domain_key `{Urllib} (url : string) : string :=
  strip_www (Py.lower (get_domain url)).

(** The invariant of the loop of [crawl_website], for the crawl that
    started at [start_url]: it holds between any two iterations. *)
Record crawl_inv `{Urllib} (start_url : string) (st : LoopState) : Prop := {
  inv_disjoint :
    st.(urls_to_visit) ## st.(spider).(visited_urls);
  inv_records :
    dom st.(spider).(page_word_counts) ⊆ st.(spider).(visited_urls);
  inv_scope : forall u,
    u ∈ st.(urls_to_visit) ∪ st.(spider).(visited_urls) ->
    is_same_domain u start_url = true;
  inv_printed : forall u,
    In u (map snd st.(spider).(stdout)) <-> u ∈ st.(spider).(visited_urls);
  inv_once :
    NoDup (map snd st.(spider).(stdout));
  inv_count :
    length st.(spider).(stdout) = st.(page_count)
}.

(** All the URLs that the crawl knows lie in [U]. *)
Definition within (U : gset string) (st : LoopState) : Prop :=
  st.(urls_to_visit) ∪ st.(spider).(visited_urls) ⊆ U.

(** The word is one that [extract_words] keeps: lowercase ASCII letters,
    more than two of them, not an ignore word. *)
Definition accepted_word (ignore_words : gset string) (w : string) : Prop :=
  Py.all_chars Py.is_lower w = true
  /\ 2 < String.length w
  /\ w ∉ ignore_words.

(** The occurrences of [w] over all page records. *)
Definition pages_total (page_word_counts : gmap string Counter) (w : string)
  : nat :=
  map_fold (fun _ (c : Counter) acc => counter_get c w + acc) 0
           page_word_counts.

(** What the crawl keeps true of its counts, besides [crawl_inv]. *)
Record stats_inv (ignore_words : gset string) (st : LoopState) : Prop := {
  stats_total :
    st.(spider).(total_words_processed)
    = counter_total st.(spider).(word_counts);
  stats_pages : forall w,
    counter_get st.(spider).(word_counts) w
    = pages_total st.(spider).(page_word_counts) w;
  stats_keys :
    NoDup (map fst st.(spider).(word_counts));
  stats_words : forall w n,
    In (w, n) st.(spider).(word_counts) ->
    accepted_word ignore_words w /\ 1 <= n;
  stats_records : forall url c w n,
    st.(spider).(page_word_counts) !! url = Some c ->
    In (w, n) c -> accepted_word ignore_words w /\ 1 <= n;
  stats_numbers :
    map fst st.(spider).(stdout) = seq 1 st.(page_count)
}.

(** [v] can be reached from [start] by following [links]. *)
Inductive reachable (links : string -> gset string) (start : string)
  : string -> Prop :=
| reach_start : reachable links start start
| reach_step (u v : string) :
    reachable links start u -> v ∈ links u -> reachable links start v.

(** A network that answers a URL the same way at every request. *)
Definition static_net `{Requests} : Prop :=
  forall (n m : nat) (url : string), session_get n url = session_get m url.

(** The words that [crawl_page] counts for [url] at request [n], if the
    page has content. *)
Definition fetched_words `{Bs4} `{Requests} (ignore_words : gset string)
    (n : nat) (url : string) : option (list string) :=
  match fetch_page n url with
  | None => None
  | Some html_content =>
      if negb (Py.truthy html_content) then None
      else Some (extract_words ignore_words
                   (extract_text_from_html html_content))
  end.

(** The words of the page of [url] on a static network: none when the
    page has no content. *)
Definition page_words `{Bs4} `{Requests} (ignore_words : gset string)
    (url : string) : list string :=
  default [] (fetched_words ignore_words 0 url).

(** What ties a reached state to the site, when the network is static:
    the links of a visited page are known, a page record is the count of
    the words of its page, and a visited page with content has one. *)
Record site_inv `{Urllib} `{Bs4} `{Requests} (ignore_words : gset string)
    (start : string) (st : LoopState) : Prop := {
  site_reached : forall u,
    u ∈ st.(urls_to_visit) ∪ st.(spider).(visited_urls) ->
    reachable (page_links 0) start u;
  site_links : forall u v,
    u ∈ st.(spider).(visited_urls) -> v ∈ page_links 0 u ->
    v ∈ st.(urls_to_visit) ∪ st.(spider).(visited_urls);
  site_counts : forall w,
    counter_get st.(spider).(word_counts) w
    = list_sum (map (fun u => count_occ string_dec (page_words ignore_words u) w)
                    (elements st.(spider).(visited_urls)));
  site_total :
    st.(spider).(total_words_processed)
    = list_sum (map (fun u => length (page_words ignore_words u))
                    (elements st.(spider).(visited_urls)))
}.













(** The call of [urljoin] or of [normalize_url] that [extract_links]
    makes for the anchor [href] raises. *)
Definition link_raises `{Urllib} (base_url href : string) : bool :=
  urljoin_raises base_url href
  || normalize_url_raises (urljoin base_url href).

(** The maximal runs of the characters of [s] that satisfy [p], from
    left to right; [cur] is the run that is being read. *)
Fixpoint runs_aux (p : ascii -> bool) (cur : string) (s : string)
  : list string :=
  match s with
  | EmptyString => if Py.truthy cur then [cur] else []
  | String c s' =>
      if p c then runs_aux p (cur ++ String c EmptyString) s'
      else ((if Py.truthy cur then [cur] else []) ++ runs_aux p EmptyString s')%list
  end.

Definition runs (p : ascii -> bool) (s : string) : list string :=
  runs_aux p EmptyString s.

(** The candidate words of a list of pieces of text. *)
Definition words_of (pieces : list string) : list string :=
  concat (map (fun piece => Py.findall (Py.lower piece)) pieces).

(** * Properties *)

(** ** Characters and strings *)

Lemma append_cons (c : ascii) (a b : string) :
  String c a ++ b = String c (a ++ b).
Proof. reflexivity. Qed.

Lemma append_nil_l (s : string) : "" ++ s = s.
Proof. reflexivity. Qed.

Lemma append_nil_r (s : string) : s ++ "" = s.
Proof.
  induction s as [|c s IH]; [reflexivity|].
  now rewrite append_cons, IH.
Qed.

Lemma append_assoc (a b c : string) : (a ++ b) ++ c = a ++ (b ++ c).
Proof.
  induction a as [|x a IH]; [reflexivity|].
  now rewrite !append_cons, IH.
Qed.

Lemma length_append (a b : string) :
  String.length (a ++ b) = String.length a + String.length b.
Proof.
  induction a as [|x a IH]; [reflexivity|].
  rewrite append_cons. simpl. now rewrite IH.
Qed.

Lemma all_chars_append p (a b : string) :
  Py.all_chars p (a ++ b) = Py.all_chars p a && Py.all_chars p b.
Proof.
  induction a as [|x a IH]; [reflexivity|].
  rewrite append_cons. simpl. rewrite IH. now rewrite andb_assoc.
Qed.

Lemma all_chars_impl (p q : ascii -> bool) (s : string) :
  (forall c, p c = true -> q c = true) ->
  Py.all_chars p s = true -> Py.all_chars q s = true.
Proof.
  intros Hpq. induction s as [|c s IH]; simpl; [reflexivity|].
  intros [Hc Hs]%andb_prop. rewrite (Hpq _ Hc), (IH Hs). reflexivity.
Qed.

Lemma lower_char_idem (c : ascii) :
  Py.lower_char (Py.lower_char c) = Py.lower_char c.
Proof. destruct c as [[] [] [] [] [] [] [] []]; reflexivity. Qed.

Lemma lower_char_not_upper (c : ascii) : Py.is_upper (Py.lower_char c) = false.
Proof. destruct c as [[] [] [] [] [] [] [] []]; reflexivity. Qed.

Lemma lower_idem (s : string) : Py.lower (Py.lower s) = Py.lower s.
Proof.
  induction s as [|c s IH]; simpl; [reflexivity|].
  now rewrite lower_char_idem, IH.
Qed.

Lemma lower_not_upper (s : string) :
  Py.all_chars (fun c => negb (Py.is_upper c)) (Py.lower s) = true.
Proof.
  induction s as [|c s IH]; simpl; [reflexivity|].
  now rewrite lower_char_not_upper, IH.
Qed.

Lemma alpha_is_word (c : ascii) : Py.is_alpha c = true -> Py.is_word c = true.
Proof. unfold Py.is_word. now intros ->. Qed.

Lemma digit_not_alpha (c : ascii) : Py.is_digit c = true -> Py.is_alpha c = false.
Proof. destruct c as [[] [] [] [] [] [] [] []]; vm_compute; congruence. Qed.

(** ** Tokenization: [word_pattern.findall] *)

Lemma left_neighbour_cons prev c pre :
  left_neighbour prev (String c pre) = left_neighbour (Some c) pre.
Proof. unfold left_neighbour. simpl. now destruct (Py.last_char pre). Qed.

Lemma not_word_not_alpha (c : ascii) :
  Py.is_word c = false -> Py.is_alpha c = false.
Proof.
  intros Hw. destruct (Py.is_alpha c) eqn:Ha; [|reflexivity].
  apply alpha_is_word in Ha. congruence.
Qed.

Lemma boundary_after_letter prev (next : option ascii) :
  Py.is_alpha prev = true ->
  Py.boundary (Some prev) next = negb (Py.is_word_opt next).
Proof.
  intros Ha. unfold Py.boundary. simpl. now rewrite (alpha_is_word _ Ha).
Qed.

Lemma match_run_sound (s : string) : forall prev m,
  Py.is_alpha prev = true ->
  Py.match_run prev s = Some m ->
  exists rest, s = m ++ rest
    /\ Py.all_chars Py.is_alpha m = true
    /\ Py.is_word_opt (Py.head_char rest) = false.
Proof.
  induction s as [|c s IH]; intros prev m Hprev; simpl.
  - destruct (Py.boundary (Some prev) None); [|discriminate].
    intros [= <-]. now exists "".
  - destruct (Py.is_alpha c) eqn:Hc.
    + destruct (Py.match_run c s) as [m'|] eqn:Hrun.
      * intros [= <-]. destruct (IH c m' Hc Hrun) as (rest & -> & Hl & Hr).
        exists rest. rewrite append_cons. simpl. now rewrite Hc, Hl.
      * rewrite (boundary_after_letter prev (Some c) Hprev). simpl.
        now rewrite (alpha_is_word _ Hc).
    + rewrite (boundary_after_letter prev (Some c) Hprev). simpl.
      destruct (Py.is_word c) eqn:Hw; [discriminate|].
      intros [= <-]. exists (String c s). simpl. now rewrite Hw.
Qed.

Lemma match_run_complete (w : string) : forall prev post,
  Py.is_alpha prev = true ->
  Py.all_chars Py.is_alpha w = true ->
  Py.is_word_opt (Py.head_char post) = false ->
  Py.match_run prev (w ++ post) = Some w.
Proof.
  induction w as [|c w IH]; intros prev post Hprev Hw Hpost.
  - rewrite append_nil_l. destruct post as [|d post]; simpl in *.
    + now rewrite (boundary_after_letter prev None Hprev).
    + rewrite (not_word_not_alpha _ Hpost).
      rewrite (boundary_after_letter prev (Some d) Hprev). simpl.
      now rewrite Hpost.
  - rewrite append_cons. simpl in *. apply andb_prop in Hw as [Hc Hw].
    rewrite Hc. now rewrite (IH c post Hc Hw Hpost).
Qed.

Lemma match_here_sound prev (s m : string) :
  Py.match_here prev s = Some m ->
  exists rest, s = m ++ rest /\ m <> ""
    /\ Py.all_chars Py.is_alpha m = true
    /\ Py.is_word_opt prev = false
    /\ Py.is_word_opt (Py.head_char rest) = false.
Proof.
  destruct s as [|c s]; simpl; [discriminate|].
  destruct (Py.boundary prev (Some c) && Py.is_alpha c) eqn:Hb; [|discriminate].
  apply andb_prop in Hb as [Hb Hc].
  destruct (Py.match_run c s) as [m'|] eqn:Hrun; simpl; [|discriminate].
  intros [= <-]. destruct (match_run_sound s c m' Hc Hrun) as (rest & -> & Hl & Hr).
  exists rest. rewrite append_cons. simpl. rewrite Hc, Hl.
  repeat split; try done.
  unfold Py.boundary in Hb. simpl in Hb. rewrite (alpha_is_word _ Hc) in Hb.
  now destruct (Py.is_word_opt prev).
Qed.

Lemma match_here_complete prev (w post : string) :
  Py.is_word_opt prev = false ->
  w <> "" ->
  Py.all_chars Py.is_alpha w = true ->
  Py.is_word_opt (Py.head_char post) = false ->
  Py.match_here prev (w ++ post) = Some w.
Proof.
  intros Hprev Hne Hw Hpost. destruct w as [|c w]; [done|].
  rewrite append_cons. simpl in *. apply andb_prop in Hw as [Hc Hw].
  unfold Py.boundary. simpl. rewrite Hprev, (alpha_is_word _ Hc), Hc. simpl.
  now rewrite (match_run_complete w c post Hc Hw Hpost).
Qed.

Lemma findall_aux_skip prev k c s :
  Py.findall_aux prev (S k) (String c s) = Py.findall_aux (Some c) k s.
Proof. reflexivity. Qed.

Lemma findall_aux_try prev c s :
  Py.findall_aux prev 0 (String c s) =
  match Py.match_here prev (String c s) with
  | Some m => m :: Py.findall_aux (Some c) (String.length m - 1) s
  | None => Py.findall_aux (Some c) 0 s
  end.
Proof. reflexivity. Qed.

(** A run of letters cannot reach the last character of a text that ends
    with a character that is not a letter. *)
Lemma letters_before_last (a : string) : forall m x rest d,
  a ++ x = m ++ rest ->
  Py.all_chars Py.is_alpha m = true ->
  Py.last_char a = Some d -> Py.is_alpha d = false ->
  String.length m < String.length a.
Proof.
  induction a as [|c a IH]; intros m x rest d Heq Hm Hlast Hd; [discriminate|].
  destruct m as [|c' m]; [simpl; lia|].
  rewrite !append_cons in Heq. injection Heq as <- Heq.
  simpl in Hm. apply andb_prop in Hm as [Hc Hm]. simpl in Hlast.
  destruct (Py.last_char a) as [d'|] eqn:Hla.
  - injection Hlast as ->. simpl. specialize (IH m x rest d Heq Hm eq_refl Hd). lia.
  - injection Hlast as ->. congruence.
Qed.

Lemma findall_aux_complete (pre : string) : forall prev skip w post,
  skip <= String.length pre ->
  Py.is_word_opt (left_neighbour prev pre) = false ->
  w <> "" ->
  Py.all_chars Py.is_alpha w = true ->
  Py.is_word_opt (Py.head_char post) = false ->
  In w (Py.findall_aux prev skip (pre ++ w ++ post)).
Proof.
  induction pre as [|c pre IH]; intros prev skip w post Hskip Hleft Hne Hw Hpost.
  - simpl in Hskip. assert (skip = 0) as -> by lia.
    rewrite append_nil_l.
    pose proof (match_here_complete prev w post Hleft Hne Hw Hpost) as Hm.
    destruct w as [|c w']; [done|].
    rewrite append_cons, findall_aux_try, <- append_cons, Hm.
    now left.
  - rewrite left_neighbour_cons in Hleft. rewrite append_cons.
    destruct skip as [|k].
    + rewrite findall_aux_try.
      destruct (Py.match_here prev (String c (pre ++ w ++ post))) as [m|] eqn:Hm.
      * right. apply IH; try done.
        apply match_here_sound in Hm as (rest & Heq & _ & Hl & _).
        rewrite <- append_cons in Heq.
        assert (exists d, Py.last_char (String c pre) = Some d
                          /\ Py.is_alpha d = false) as (d & Hd & Hnd).
        { unfold left_neighbour in Hleft. simpl.
          destruct (Py.last_char pre) as [d|]; eexists; split; try reflexivity;
            now apply not_word_not_alpha. }
        pose proof (letters_before_last _ _ _ _ _ Heq Hl Hd Hnd) as Hlt.
        simpl in Hlt. lia.
      * apply IH; try done. lia.
    + rewrite findall_aux_skip. apply IH; try done. simpl in Hskip. lia.
Qed.

Lemma findall_aux_sound (s : string) : forall prev skip m,
  In m (Py.findall_aux prev skip s) ->
  exists pre post, s = pre ++ m ++ post /\ m <> ""
    /\ Py.all_chars Py.is_alpha m = true
    /\ Py.is_word_opt (left_neighbour prev pre) = false
    /\ Py.is_word_opt (Py.head_char post) = false.
Proof.
  induction s as [|c s IH]; intros prev skip m Hin; [destruct Hin|].
  assert (Hlater : forall k, In m (Py.findall_aux (Some c) k s) ->
    exists pre post, String c s = pre ++ m ++ post /\ m <> ""
      /\ Py.all_chars Py.is_alpha m = true
      /\ Py.is_word_opt (left_neighbour prev pre) = false
      /\ Py.is_word_opt (Py.head_char post) = false).
  { intros k Hk. destruct (IH _ _ _ Hk) as (pre & post & -> & H1 & H2 & H3 & H4).
    exists (String c pre), post. now rewrite append_cons, left_neighbour_cons. }
  destruct skip as [|k].
  - rewrite findall_aux_try in Hin.
    destruct (Py.match_here prev (String c s)) as [m0|] eqn:Hm0.
    + destruct Hin as [<-|Hin]; [|exact (Hlater _ Hin)].
      apply match_here_sound in Hm0 as (rest & Heq & H1 & H2 & H3 & H4).
      now exists "", rest.
    + exact (Hlater _ Hin).
  - rewrite findall_aux_skip in Hin. exact (Hlater _ Hin).
Qed.

Lemma left_neighbour_start (pre : string) :
  left_neighbour None pre = Py.last_char pre.
Proof. unfold left_neighbour. now destruct (Py.last_char pre). Qed.

(** The matches of the pattern are exactly the runs of letters that stand
    between word boundaries. *)
Lemma findall_delimited (text w : string) :
  In w (Py.findall text) <-> exists pre post, delimited_run text pre w post.
Proof.
  unfold delimited_run, letter_run, Py.findall. split.
  - intros Hin. apply findall_aux_sound in Hin
      as (pre & post & -> & H1 & H2 & H3 & H4).
    rewrite left_neighbour_start in H3.
    exists pre, post. repeat split; done.
  - intros (pre & post & (-> & H1 & H2) & H3 & H4).
    apply findall_aux_complete; try done; [lia|].
    now rewrite left_neighbour_start.
Qed.

Lemma lower_alpha_is_lower (w : string) :
  Py.all_chars Py.is_alpha w = true ->
  Py.all_chars (fun c => negb (Py.is_upper c)) w = true ->
  Py.all_chars Py.is_lower w = true.
Proof.
  induction w as [|c w IH]; simpl; [reflexivity|].
  intros [Hc Hw]%andb_prop [Hu Hw']%andb_prop.
  rewrite (IH Hw Hw'), andb_true_r.
  unfold Py.is_alpha in Hc. destruct (Py.is_upper c); [discriminate|exact Hc].
Qed.

Lemma letters_no_digit (w : string) :
  Py.all_chars Py.is_alpha w = true ->
  Py.all_chars (fun c => negb (Py.is_digit c)) w = true.
Proof.
  apply all_chars_impl. intros c Hc.
  destruct (Py.is_digit c) eqn:Hd; [|reflexivity].
  apply digit_not_alpha in Hd. congruence.
Qed.

Lemma findall_lower_tokens (text w : string) :
  In w (Py.findall (Py.lower text)) ->
  w <> "" /\ Py.all_chars Py.is_lower w = true
  /\ Py.all_chars (fun c => negb (Py.is_digit c)) w = true.
Proof.
  intros (pre & post & (Heq & Hne & Hl) & _)%findall_delimited.
  split; [exact Hne|]. split; [|now apply letters_no_digit].
  apply lower_alpha_is_lower; [exact Hl|].
  pose proof (lower_not_upper text) as Hlow. rewrite Heq in Hlow.
  rewrite !all_chars_append in Hlow.
  now apply andb_prop in Hlow as [_ [Hlow _]%andb_prop].
Qed.

(** C6, as the specification states it, fails on the text "co2": "co" is a
    maximal run of ASCII letters of the lowercased text, and the pattern
    produces no candidate at all. *)
Lemma tokenize_co2_counterexample :
  maximal_run (Py.lower "co2") "" "co" "2"
  /\ Py.findall (Py.lower "co2") = [].
Proof.
  split; [|reflexivity].
  repeat split; try done.
  intros c [= <-]. reflexivity.
Qed.

(** ** [extract_words] *)

Lemma extract_words_spec (ignore_words : gset string) (text w : string) :
  In w (extract_words ignore_words text) <->
  In w (Py.findall (Py.lower text))
  /\ 2 < String.length w /\ Py.lower w ∉ ignore_words.
Proof.
  unfold extract_words, should_ignore. rewrite filter_In, andb_true_iff.
  rewrite negb_true_iff, bool_decide_eq_false, Nat.ltb_lt. tauto.
Qed.

Lemma lower_of_lowercase (w : string) :
  Py.all_chars Py.is_lower w = true -> Py.lower w = w.
Proof.
  induction w as [|c w IH]; simpl; [reflexivity|].
  intros [Hc Hw]%andb_prop. rewrite (IH Hw). f_equal.
  revert Hc. destruct c as [[] [] [] [] [] [] [] []]; vm_compute; congruence.
Qed.

(** C8: with the stop words {"the"}, the words of "<p>The Cat sat.</p>"
    are "cat", "sat"; a word is kept exactly when it is a candidate of the
    lowercased text, longer than two characters, and not a stop word, so
    "at" is dropped and "cat" is kept. *)
Theorem extract_words_the_cat_sat `{Bs4} :
  soup_get_text "<p>The Cat sat.</p>" = Some "The Cat sat." ->
  extract_words {[ "the" ]} (extract_text_from_html "<p>The Cat sat.</p>")
    = ["cat"; "sat"]
  /\ (forall ignore_words text w,
        In w (extract_words ignore_words text) <->
        In w (Py.findall (Py.lower text))
        /\ 2 < String.length w /\ w ∉ ignore_words)
  /\ (forall ignore_words text w,
        In w (extract_words ignore_words text) ->
        Py.all_chars Py.is_lower w = true)
  /\ extract_words {[ "the" ]} "The cat sat at it." = ["cat"; "sat"].
Proof.
  intros Htext. split.
  { unfold extract_text_from_html. rewrite Htext. reflexivity. }
  split.
  { intros ignore_words text w. rewrite extract_words_spec.
    split; intros (Hin & Hlen & Hnot); repeat split; try done.
    - now rewrite <- (lower_of_lowercase w)
        by (apply (findall_lower_tokens text w Hin)).
    - now rewrite (lower_of_lowercase w)
        by (apply (findall_lower_tokens text w Hin)). }
  split; [|reflexivity].
  intros ignore_words text w (Hin & _)%extract_words_spec.
  apply (findall_lower_tokens text w Hin).
Qed.

Lemma extract_words_the_cat_sat_witness :
  @soup_get_text Instances.tiny_soup "<p>The Cat sat.</p>" = Some "The Cat sat."
  /\ extract_words {[ "the" ]}
       (@extract_text_from_html Instances.tiny_soup "<p>The Cat sat.</p>")
     = ["cat"; "sat"].
Proof.
  split; [reflexivity|].
  apply (@extract_words_the_cat_sat Instances.tiny_soup). reflexivity.
Defined.

(** ** [Counter.most_common] *)

Section Ranking.
Implicit Types (x y : string * nat) (l c : list (string * nat)).

Lemma insert_desc_perm x l : Permutation (x :: l) (insert_desc x l).
Proof.
  induction l as [|y l IH]; simpl; [reflexivity|].
  destruct (snd x <? snd y)%nat; [|reflexivity].
  rewrite perm_swap. now apply perm_skip.
Qed.

Lemma sorted_desc_perm c : Permutation (sorted_desc c) c.
Proof.
  induction c as [|x c IH]; simpl; [reflexivity|].
  rewrite <- insert_desc_perm. now apply perm_skip.
Qed.

Lemma insert_desc_sorted x l :
  StronglySorted by_count_desc l -> StronglySorted by_count_desc (insert_desc x l).
Proof.
  induction 1 as [|y l Hs IH Hy]; simpl.
  - repeat constructor.
  - destruct (snd x <? snd y)%nat eqn:Hlt.
    + constructor; [exact IH|].
      rewrite <- insert_desc_perm. constructor; [|exact Hy].
      apply Nat.ltb_lt in Hlt. unfold by_count_desc. lia.
    + apply Nat.ltb_ge in Hlt. constructor; [now constructor|].
      constructor; [exact Hlt|].
      eapply Forall_impl; [exact Hy|]. unfold by_count_desc. simpl. lia.
Qed.

Lemma sorted_desc_sorted c : StronglySorted by_count_desc (sorted_desc c).
Proof.
  induction c as [|x c IH]; simpl; [constructor|now apply insert_desc_sorted].
Qed.

Lemma insert_desc_ties (k : nat) x l :
  List.filter (has_count k) (insert_desc x l)
  = List.filter (has_count k) (x :: l).
Proof.
  induction l as [|y l IH]; simpl; [reflexivity|].
  destruct (snd x <? snd y)%nat eqn:Hlt; [|reflexivity].
  simpl in *. rewrite IH. unfold has_count.
  destruct (snd x =? k)%nat eqn:Hx, (snd y =? k)%nat eqn:Hy; try reflexivity.
  apply Nat.eqb_eq in Hx, Hy. apply Nat.ltb_lt in Hlt. lia.
Qed.

Lemma sorted_desc_ties (k : nat) c :
  List.filter (has_count k) (sorted_desc c) = List.filter (has_count k) c.
Proof.
  induction c as [|x c IH]; simpl; [reflexivity|].
  rewrite insert_desc_ties. simpl. now rewrite IH.
Qed.

Lemma in_firstn (n : nat) x l : In x (firstn n l) -> In x l.
Proof.
  revert n. induction l as [|y l IH]; intros [|n]; simpl; try tauto.
  intros [->|Hin]; [now left|right; eauto].
Qed.

Lemma firstn_sorted (n : nat) l :
  StronglySorted by_count_desc l -> StronglySorted by_count_desc (firstn n l).
Proof.
  intros Hs. revert n. induction Hs as [|y l Hs IH Hy]; intros [|n]; simpl;
    try constructor; [apply IH|].
  apply List.Forall_forall. intros z Hz. rewrite List.Forall_forall in Hy.
  apply Hy. eapply in_firstn, Hz.
Qed.

(** A new key goes behind the keys that a counter already has; a known
    key keeps its place. *)
Lemma counter_add_keys (elem : string) (count : nat) c :
  map fst (counter_add elem count c)
  = if existsb (String.eqb elem) (map fst c) then map fst c
    else (map fst c ++ [elem])%list.
Proof.
  induction c as [|[k v] c IH]; simpl; [reflexivity|].
  rewrite (String.eqb_sym elem k).
  destruct (String.eqb k elem); simpl; [reflexivity|].
  rewrite IH. now destruct (existsb _ _).
Qed.

End Ranking.

(** C9: [most_common] ranks the items by count, highest first; items of
    equal count keep the order in which their words were first inserted
    into the counter; the top [n] are the first [n] of that ranking. On
    the counts cat 3, dog 3, bird 1, with "cat" inserted before "dog", the
    top 2 are cat then dog, and dog then cat when "dog" came first. *)
Theorem most_common_stable (c : Counter) (n : nat) :
  most_common (Some n) c = firstn n (most_common None c)
  /\ StronglySorted by_count_desc (most_common None c)
  /\ StronglySorted by_count_desc (most_common (Some n) c)
  /\ Permutation (most_common None c) c
  /\ (forall k, List.filter (has_count k) (most_common None c)
                = List.filter (has_count k) c)
  /\ counter_of ["cat"; "dog"; "cat"; "bird"; "dog"; "cat"; "dog"]
     = [("cat", 3); ("dog", 3); ("bird", 1)]
  /\ most_common (Some 2) [("cat", 3); ("dog", 3); ("bird", 1)]
     = [("cat", 3); ("dog", 3)]
  /\ most_common (Some 2) [("bird", 1); ("dog", 3); ("cat", 3)]
     = [("dog", 3); ("cat", 3)].
Proof.
  split; [reflexivity|].
  split; [apply sorted_desc_sorted|].
  split; [apply firstn_sorted, sorted_desc_sorted|].
  split; [apply sorted_desc_perm|].
  split; [intros k; apply sorted_desc_ties|].
  repeat split; reflexivity.
Qed.

(** ** The set of URLs to visit *)

Lemma set_pop_Some (choice : nat) (s : gset string) u rest :
  set_pop choice s = Some (u, rest) -> u ∈ s /\ rest = s ∖ {[ u ]}.
Proof.
  unfold set_pop. destruct (elements s !! _) as [v|] eqn:Hv; [|discriminate].
  intros [= <- <-]. split; [|reflexivity].
  apply elem_of_elements, list_elem_of_lookup. eauto.
Qed.

Lemma set_pop_nonempty (choice : nat) (s : gset string) :
  s <> ∅ -> exists u, set_pop choice s = Some (u, s ∖ {[ u ]}) /\ u ∈ s.
Proof.
  intros Hne. unfold set_pop.
  assert (Hlen : length (elements s) <> 0).
  { intros Hl. apply Hne, leibniz_equiv, elements_empty_inv.
    now destruct (elements s). }
  destruct (lookup_lt_is_Some_2 (elements s) (choice mod length (elements s)))
    as [u Hu]; [now apply Nat.mod_upper_bound|].
  rewrite Hu. exists u. split; [reflexivity|].
  apply elem_of_elements, list_elem_of_lookup. eauto.
Qed.

Lemma set_pop_singleton (choice : nat) (u : string) :
  set_pop choice {[ u ]} = Some (u, ∅).
Proof.
  destruct (set_pop_nonempty choice {[ u ]}) as (v & -> & Hv); [set_solver|].
  apply elem_of_singleton in Hv as ->. f_equal. f_equal. set_solver.
Qed.

Lemma offer_noop (visited_urls urls_to_visit new_links : gset string) :
  (forall link, link ∈ new_links ->
     link ∈ visited_urls \/ link ∈ urls_to_visit) ->
  offer visited_urls urls_to_visit new_links = urls_to_visit.
Proof. unfold offer. set_solver. Qed.

Lemma offer_spec (visited_urls urls_to_visit new_links : gset string) u :
  u ∈ offer visited_urls urls_to_visit new_links <->
  u ∈ urls_to_visit \/ (u ∈ new_links /\ u ∉ visited_urls).
Proof. unfold offer. set_solver. Qed.

(** ** [is_same_domain] is an equivalence *)

Section Scope.
Context `{Urllib}.

Lemma is_same_domain_key (a b : string) :
  is_same_domain a b = true <-> domain_key a = domain_key b.
Proof. unfold is_same_domain, domain_key. apply String.eqb_eq. Qed.

Lemma is_same_domain_refl (a : string) : is_same_domain a a = true.
Proof. now apply is_same_domain_key. Qed.

Lemma is_same_domain_trans (a b c : string) :
  is_same_domain a b = true -> is_same_domain b c = true ->
  is_same_domain a c = true.
Proof. rewrite !is_same_domain_key. congruence. Qed.

End Scope.
(** ** One page, one iteration *)

Section Crawl.
Context `{Urllib} `{Bs4} `{Requests}.
Variable ignore_words : gset string.
Variable pick : nat -> list string -> nat.

Lemma crawl_page_spec (self : WebSpider) (url : string) (n q : nat) :
  let r := crawl_page ignore_words self url n q in
  visited_urls r.1 = visited_urls self ∪ {[ url ]}
  /\ r.2 = filter (fun link => link ∉ (visited_urls self ∪ {[ url ]}))
             (if decide (url ∈ visited_urls self) then ∅
              else page_links n url)
  /\ dom (page_word_counts r.1) ⊆ dom (page_word_counts self) ∪ {[ url ]}
  /\ stdout r.1 = if decide (url ∈ visited_urls self) then stdout self
                  else (stdout self ++ [(n, url)])%list.
Proof.
  unfold crawl_page, page_links.
  destruct (decide (url ∈ visited_urls self)) as [Hin|Hout]; simpl.
  { repeat split; set_solver. }
  destruct (fetch_page n url) as [html|]; simpl; [|repeat split; set_solver].
  destruct (Py.truthy html); simpl; [|repeat split; set_solver].
  repeat split; set_solver.
Qed.

Lemma crawl_page_visited (self : WebSpider) (url : string) (n q : nat) :
  url ∈ visited_urls self ->
  crawl_page ignore_words self url n q = (self, ∅).
Proof. intros Hin. unfold crawl_page. now rewrite decide_True. Qed.

(** A page without content: the fetch failed, or gave the empty text. *)
Lemma crawl_page_no_content (self : WebSpider) (url : string) (n q : nat) :
  url ∉ visited_urls self ->
  fetch_page n url = None \/ fetch_page n url = Some "" ->
  crawl_page ignore_words self url n q =
    ({| visited_urls := visited_urls self ∪ {[ url ]};
        word_counts := word_counts self;
        page_word_counts := page_word_counts self;
        total_words_processed := total_words_processed self;
        stdout := stdout self ++ [(n, url)] |}, ∅).
Proof.
  intros Hout Hfetch. unfold crawl_page. rewrite decide_False by done.
  now destruct Hfetch as [-> | ->].
Qed.

Lemma loop_body_unfold (st : LoopState) (u : string) (rest : gset string) :
  pop_next pick st = Some (u, rest) ->
  loop_body ignore_words pick st =
    let r := crawl_page ignore_words (spider st) u (S (page_count st))
               (size rest) in
    Some {| spider := r.1;
            urls_to_visit := offer (visited_urls r.1) rest r.2;
            page_count := S (page_count st) |}.
Proof.
  intros Hpop. unfold loop_body. fold (pop_next pick st). rewrite Hpop.
  now destruct (crawl_page _ _ _ _ _).
Qed.

Lemma pop_next_nonempty (st : LoopState) :
  urls_to_visit st <> ∅ ->
  exists u, pop_next pick st = Some (u, urls_to_visit st ∖ {[ u ]})
            /\ u ∈ urls_to_visit st.
Proof. apply set_pop_nonempty. Qed.

(** The loop never pops from an empty set: an iteration that starts with
    a URL to visit completes. *)
Lemma loop_body_progress (st : LoopState) :
  urls_to_visit st <> ∅ -> exists st', loop_body ignore_words pick st = Some st'.
Proof.
  intros (u & Hpop & _)%pop_next_nonempty.
  rewrite (loop_body_unfold _ _ _ Hpop). eauto.
Qed.

(** What one iteration does to the two sets, the records and the output. *)
Lemma loop_body_spec (st st' : LoopState) :
  loop_body ignore_words pick st = Some st' ->
  exists u, pop_next pick st = Some (u, urls_to_visit st ∖ {[ u ]})
    /\ u ∈ urls_to_visit st
    /\ page_count st' = S (page_count st)
    /\ visited_urls (spider st') = visited_urls (spider st) ∪ {[ u ]}
    /\ (forall l, l ∈ urls_to_visit st' <->
          (l ∈ urls_to_visit st /\ l <> u)
          \/ ((u ∉ visited_urls (spider st))
              /\ l ∈ page_links (S (page_count st)) u
              /\ (l ∉ (visited_urls (spider st) ∪ {[ u ]}))))
    /\ dom (page_word_counts (spider st'))
         ⊆ dom (page_word_counts (spider st)) ∪ {[ u ]}
    /\ stdout (spider st') =
         if decide (u ∈ visited_urls (spider st)) then stdout (spider st)
         else (stdout (spider st) ++ [(S (page_count st), u)])%list.
Proof.
  intros Hbody.
  destruct (pop_next pick st) as [[u rest]|] eqn:Hpop.
  2:{ unfold loop_body in Hbody. fold (pop_next pick st) in Hbody.
      now rewrite Hpop in Hbody. }
  rewrite (loop_body_unfold _ _ _ Hpop) in Hbody. simpl in Hbody.
  apply set_pop_Some in Hpop as Hu. destruct Hu as [Hu ->].
  injection Hbody as <-. simpl.
  destruct (crawl_page_spec (spider st) u (S (page_count st))
              (size (urls_to_visit st ∖ {[ u ]}))) as (Hv & Hl & Hd & Ho).
  exists u. do 4 (split; [done|]). split; [|split; done].
  intros l. rewrite offer_spec, Hl, Hv. clear Hv Hl Hd Ho Hpop.
  rewrite elem_of_filter, elem_of_difference, elem_of_singleton.
  destruct (decide (u ∈ visited_urls (spider st))) as [Hin|Hout].
  - rewrite elem_of_empty. tauto.
  - tauto.
Qed.

Lemma page_links_same_domain (n : nat) (u l : string) :
  l ∈ page_links n u -> is_same_domain l u = true.
Proof.
  unfold page_links. destruct (fetch_page n u) as [html|]; [|set_solver].
  destruct (negb (Py.truthy html)); set_solver.
Qed.

(** ** The invariant of the loop *)

Lemma loop_entry_spec (self : WebSpider) (raw : string) (st0 : LoopState) :
  loop_entry self raw = Some st0 ->
  st0 = {| spider := self;
           urls_to_visit := {[ normalize_url raw ]};
           page_count := 0 |}
  /\ is_valid_url (normalize_url raw) = true.
Proof.
  unfold loop_entry. destruct (is_valid_url (normalize_url raw)); simpl.
  - now intros [= <-].
  - discriminate.
Qed.

Lemma crawl_inv_entry (raw : string) (st0 : LoopState) :
  loop_entry new_spider raw = Some st0 ->
  crawl_inv (normalize_url raw) st0.
Proof.
  intros [-> _]%loop_entry_spec. split; simpl.
  - apply disjoint_empty_r.
  - now rewrite dom_empty_L.
  - intros u Hu. assert (u = normalize_url raw) as -> by set_solver.
    apply is_same_domain_refl.
  - intros u. split; [intros []|intros Hu; now apply not_elem_of_empty in Hu].
  - constructor.
  - reflexivity.
Qed.

Lemma crawl_inv_step (start : string) (st st' : LoopState) :
  crawl_inv start st ->
  loop_body ignore_words pick st = Some st' ->
  crawl_inv start st'.
Proof.
  intros [Hdisj Hrec Hscope Hprint Honce Hcount]
         (u & _ & Hu & Hpc & Hv & Hpend & Hdom & Hout)%loop_body_spec.
  assert (Hnew : u ∉ visited_urls (spider st)) by set_solver.
  rewrite decide_False in Hout by done.
  split.
  - intros l Hl Hl'. apply Hpend in Hl. set_solver.
  - set_solver.
  - intros l [Hl|Hl]%elem_of_union.
    + apply Hpend in Hl as [[Hl _]|(_ & Hl & _)]; [apply Hscope; set_solver|].
      apply is_same_domain_trans with u;
        [now apply page_links_same_domain in Hl|apply Hscope; set_solver].
    + apply Hscope. set_solver.
  - intros l. rewrite Hout, Hv, map_app, in_app_iff, Hprint. simpl. set_solver.
  - rewrite Hout, map_app. apply NoDup_app. split; [done|]. split.
    + intros x Hx%list_elem_of_In%Hprint. set_solver.
    + apply NoDup_singleton.
  - rewrite Hout, length_app, Hcount, Hpc. simpl. lia.
Qed.

Lemma crawl_inv_iterations (start : string) (n : nat) : forall st st',
  crawl_inv start st ->
  iterations ignore_words pick n st = Some st' ->
  crawl_inv start st'.
Proof.
  induction n as [|n IH]; intros st st' Hinv; simpl.
  - now intros [= <-].
  - destruct (decide (urls_to_visit st = ∅)); [discriminate|].
    destruct (loop_body ignore_words pick st) as [st1|] eqn:Hbody; [|discriminate].
    apply IH. eapply crawl_inv_step; eauto.
Qed.

(** The URLs popped so far are the URLs printed so far. *)
Lemma dequeued_printed (start : string) (n : nat) : forall st,
  crawl_inv start st ->
  exists m st', m <= n
    /\ iterations ignore_words pick m st = Some st'
    /\ map snd (stdout (spider st')) =
         (map snd (stdout (spider st)) ++ dequeued ignore_words pick n st)%list
    /\ (m < n -> urls_to_visit st' = ∅).
Proof.
  induction n as [|n IH]; intros st Hinv.
  { exists 0, st. simpl. rewrite app_nil_r. repeat split; [lia|lia]. }
  simpl. destruct (decide (urls_to_visit st = ∅)) as [He|Hne].
  { exists 0, st. simpl. rewrite app_nil_r. repeat split; [lia|done]. }
  destruct (pop_next_nonempty st Hne) as (u & Hpop & Hu).
  destruct (loop_body_progress st Hne) as [st1 Hbody].
  pose proof (crawl_inv_step start st st1 Hinv Hbody) as Hinv1.
  apply loop_body_spec in Hbody as Hspec.
  destruct Hspec as (u' & Hpop' & _ & _ & _ & _ & _ & Hout).
  rewrite Hpop in Hpop'. injection Hpop' as <-.
  rewrite decide_False in Hout by (destruct Hinv; set_solver).
  rewrite Hpop, Hbody.
  destruct (IH st1 Hinv1) as (m & st' & Hm & Hit & Hmap & Hend).
  exists (S m), st'. simpl. rewrite decide_False by done. rewrite Hbody.
  repeat split; [lia|done| |intros; apply Hend; lia].
  rewrite Hmap, Hout, map_app, <- app_assoc. reflexivity.
Qed.

(** ** Termination *)

Lemma while_loop_done (fuel : nat) (st : LoopState) :
  urls_to_visit st = ∅ -> while_loop ignore_words pick fuel st = Some st.
Proof. intros He. destruct fuel; simpl; now rewrite decide_True. Qed.

Lemma while_loop_step (fuel : nat) (st st' : LoopState) :
  urls_to_visit st <> ∅ ->
  loop_body ignore_words pick st = Some st' ->
  while_loop ignore_words pick (S fuel) st
  = while_loop ignore_words pick fuel st'.
Proof. intros Hne Hbody. simpl. rewrite decide_False by done. now rewrite Hbody. Qed.

Lemma within_step (U : gset string) (st st' : LoopState) :
  (forall n u, u ∈ U -> page_links n u ⊆ U) ->
  within U st ->
  loop_body ignore_words pick st = Some st' ->
  within U st'.
Proof.
  unfold within.
  intros Hclosed Hin (u & _ & Hu & _ & Hv & Hpend & _)%loop_body_spec.
  intros l [Hl|Hl]%elem_of_union.
  - apply Hpend in Hl as [[Hl _]|(_ & Hl & _)]; [set_solver|].
    apply (Hclosed (S (page_count st)) u); [set_solver|done].
  - set_solver.
Qed.

Lemma unvisited_shrinks (U : gset string) (st st' : LoopState) (start : string) :
  crawl_inv start st -> within U st ->
  loop_body ignore_words pick st = Some st' ->
  size (U ∖ visited_urls (spider st')) < size (U ∖ visited_urls (spider st)).
Proof.
  unfold within.
  intros [Hdisj _ _ _ _ _] Hin (u & _ & Hu & _ & Hv & _)%loop_body_spec.
  apply subset_size. rewrite Hv. split; [set_solver|].
  intros Hsub. assert (u ∈ U ∖ (visited_urls (spider st) ∪ {[ u ]})); set_solver.
Qed.

(** With enough fuel the loop ends, with nothing left to visit. *)
Lemma while_loop_terminates (U : gset string) (start : string) :
  (forall n u, u ∈ U -> page_links n u ⊆ U) ->
  forall fuel st,
  crawl_inv start st -> within U st ->
  size (U ∖ visited_urls (spider st)) <= fuel ->
  exists st', while_loop ignore_words pick fuel st = Some st'
    /\ urls_to_visit st' = ∅
    /\ crawl_inv start st' /\ within U st'.
Proof.
  intros Hclosed. induction fuel as [|fuel IH]; intros st Hinv Hin Hsize.
  - destruct (decide (urls_to_visit st = ∅)) as [He|Hne].
    { exists st. now rewrite while_loop_done. }
    destruct (pop_next_nonempty st Hne) as (u & _ & Hu).
    assert (u ∈ U ∖ visited_urls (spider st))
      by (destruct Hinv; unfold within in Hin; set_solver).
    assert (size (U ∖ visited_urls (spider st)) <> 0)
      by (apply size_non_empty_iff; set_solver).
    lia.
  - destruct (decide (urls_to_visit st = ∅)) as [He|Hne].
    { exists st. now rewrite while_loop_done. }
    destruct (loop_body_progress st Hne) as [st1 Hbody].
    rewrite (while_loop_step _ _ _ Hne Hbody).
    apply IH.
    + eapply crawl_inv_step; eauto.
    + eapply within_step; eauto.
    + pose proof (unvisited_shrinks U st st1 start Hinv Hin Hbody). lia.
Qed.

Lemma while_loop_iterations (fuel : nat) : forall st final,
  while_loop ignore_words pick fuel st = Some final ->
  urls_to_visit final = ∅
  /\ exists n, n <= fuel /\ iterations ignore_words pick n st = Some final.
Proof.
  induction fuel as [|fuel IH]; intros st final; simpl;
    destruct (decide (urls_to_visit st = ∅)) as [He|Hne].
  - intros [= <-]. split; [done|]. exists 0. now split.
  - discriminate.
  - intros [= <-]. split; [done|]. exists 0. split; [lia|done].
  - destruct (loop_body ignore_words pick st) as [st1|] eqn:Hbody; [|discriminate].
    intros (Hend & n & Hn & Hit)%IH. split; [done|].
    exists (S n). split; [lia|]. simpl. rewrite decide_False by done.
    now rewrite Hbody.
Qed.

(** A run that ends goes through every state that the loop reaches. *)
Lemma while_loop_from_iterations (n : nat) : forall fuel st st1 final,
  iterations ignore_words pick n st = Some st1 ->
  while_loop ignore_words pick fuel st = Some final ->
  while_loop ignore_words pick (fuel - n) st1 = Some final.
Proof.
  induction n as [|n IH]; intros fuel st st1 final; simpl.
  - intros [= <-]. now rewrite Nat.sub_0_r.
  - destruct (decide (urls_to_visit st = ∅)) as [He|Hne]; [discriminate|].
    destruct (loop_body ignore_words pick st) as [st2|] eqn:Hbody; [|discriminate].
    intros Hit. destruct fuel as [|fuel]; simpl.
    + now rewrite decide_False.
    + rewrite decide_False by done. rewrite Hbody. now apply IH.
Qed.

(** Nothing that the crawl knows is lost: a URL to visit stays so until
    it is visited. *)
Lemma iterations_grow (n : nat) : forall st st',
  iterations ignore_words pick n st = Some st' ->
  urls_to_visit st ∪ visited_urls (spider st)
    ⊆ urls_to_visit st' ∪ visited_urls (spider st').
Proof.
  induction n as [|n IH]; intros st st'; simpl.
  - now intros [= <-].
  - destruct (decide (urls_to_visit st = ∅)); [discriminate|].
    destruct (loop_body ignore_words pick st) as [st1|] eqn:Hbody; [|discriminate].
    intros Hit%IH. etrans; [|exact Hit].
    apply loop_body_spec in Hbody as (u & _ & Hu & _ & Hv & Hpend & _).
    intros l Hl. destruct (decide (l = u)) as [->|Hne]; [set_solver|].
    apply elem_of_union in Hl as [Hl|Hl]; [|set_solver].
    apply elem_of_union_l, Hpend. now left.
Qed.

Lemma while_loop_visits_all (fuel : nat) (st final : LoopState) :
  while_loop ignore_words pick fuel st = Some final ->
  urls_to_visit st ∪ visited_urls (spider st) ⊆ visited_urls (spider final).
Proof.
  intros (Hend & n & _ & Hit%iterations_grow)%while_loop_iterations.
  rewrite Hend in Hit. set_solver.
Qed.

Lemma printed_dequeued (start : string) (n : nat) : forall st st',
  crawl_inv start st ->
  iterations ignore_words pick n st = Some st' ->
  map snd (stdout (spider st')) =
    (map snd (stdout (spider st)) ++ dequeued ignore_words pick n st)%list.
Proof.
  intros st st' Hinv Hit.
  destruct (dequeued_printed start n st Hinv) as (m & st1 & Hm & Hit1 & Hmap & Hend).
  destruct (decide (m = n)) as [->|Hne]; [congruence|].
  assert (Hrest : while_loop ignore_words pick 0 st1 = Some st1)
    by (apply while_loop_done, Hend; lia).
  assert (Hdone : while_loop ignore_words pick m st = Some st1).
  { clear Hmap Hend Hne Hm Hit. revert st Hinv Hit1.
    induction m as [|m IH]; intros st Hinv; simpl.
    - intros [= ->]. exact Hrest.
    - destruct (decide (urls_to_visit st = ∅)); [discriminate|].
      destruct (loop_body ignore_words pick st) as [st2|] eqn:Hbody; [|discriminate].
      apply IH. eapply crawl_inv_step; eauto. }
  pose proof (while_loop_from_iterations n m st st' st1 Hit Hdone) as Hback.
  replace (m - n) with 0 in Hback by lia.
  destruct (decide (urls_to_visit st' = ∅)) as [He | Hne'].
  - rewrite while_loop_done in Hback by done. now injection Hback as ->.
  - simpl in Hback. now rewrite decide_False in Hback.
Qed.

End Crawl.

(** ** The crawl: claims about the frontier *)

Section Frontier.
Context `{Urllib} `{Bs4} `{Requests}.
Variable ignore_words : gset string.
Variable pick : nat -> list string -> nat.

(** C1: in a crawl, whatever the pages link to and whichever element
    [pop] picks, no URL is popped twice and no URL is processed twice: the
    URLs popped in the first [n] iterations are pairwise distinct, and
    they are the URLs printed. Offering links that are all visited or
    already waiting leaves the set of URLs to visit as it is (the visited
    set is not touched by an offer). *)
Theorem frontier_yields_once (raw : string) (st0 : LoopState) (n : nat) :
  loop_entry new_spider raw = Some st0 ->
  NoDup (dequeued ignore_words pick n st0)
  /\ (forall st, iterations ignore_words pick n st0 = Some st ->
        map snd (stdout (spider st)) = dequeued ignore_words pick n st0
        /\ NoDup (map snd (stdout (spider st)))
        /\ forall new_links,
             (forall link, link ∈ new_links ->
                link ∈ visited_urls (spider st) \/ link ∈ urls_to_visit st) ->
             offer (visited_urls (spider st)) (urls_to_visit st) new_links
             = urls_to_visit st).
Proof.
  intros Hentry. pose proof (crawl_inv_entry raw st0 Hentry) as Hinv.
  assert (Hout : stdout (spider st0) = []).
  { apply loop_entry_spec in Hentry as [-> _]. reflexivity. }
  split.
  - destruct (dequeued_printed ignore_words pick _ n st0 Hinv)
      as (m & st' & _ & Hit & Hmap & _).
    rewrite Hout in Hmap. simpl in Hmap. rewrite <- Hmap.
    apply (inv_once _ _ (crawl_inv_iterations _ _ _ _ _ _ Hinv Hit)).
  - intros st Hit.
    pose proof (crawl_inv_iterations _ _ _ _ _ _ Hinv Hit) as Hinv'.
    pose proof (printed_dequeued _ _ _ _ _ _ Hinv Hit) as Hmap.
    rewrite Hout in Hmap. simpl in Hmap.
    split; [exact Hmap|]. split; [apply (inv_once _ _ Hinv')|].
    intros new_links. apply offer_noop.
Qed.

(** C4: between any two iterations of a crawl, no URL is both visited and
    waiting, and every URL with a page record is visited. *)
Theorem visited_pending_disjoint (raw : string) (st0 st : LoopState) (n : nat) :
  loop_entry new_spider raw = Some st0 ->
  iterations ignore_words pick n st0 = Some st ->
  visited_urls (spider st) ∩ urls_to_visit st = ∅
  /\ (forall url, is_Some (page_word_counts (spider st) !! url) ->
        url ∈ visited_urls (spider st)).
Proof.
  intros Hentry Hit.
  destruct (crawl_inv_iterations _ _ _ _ _ _ (crawl_inv_entry raw st0 Hentry) Hit)
    as [Hdisj Hrec _ _ _ _].
  split; [set_solver|].
  intros url Hurl%elem_of_dom. set_solver.
Qed.

(** C3: in a crawl, every link that is kept, every URL that waits, is
    visited or is popped has the domain of the start URL: for the page
    being processed, the domain test of [crawl_page], made against that
    page, gives what the test against the start URL gives. *)
Theorem links_scoped_to_seed (raw : string) (st0 st : LoopState) (n : nat) :
  loop_entry new_spider raw = Some st0 ->
  iterations ignore_words pick n st0 = Some st ->
  (forall u, u ∈ urls_to_visit st ∪ visited_urls (spider st) ->
     is_same_domain u (normalize_url raw) = true)
  /\ (forall u, In u (dequeued ignore_words pick n st0) ->
        is_same_domain u (normalize_url raw) = true)
  /\ (forall u rest link, pop_next pick st = Some (u, rest) ->
        is_same_domain link u = is_same_domain link (normalize_url raw))
  /\ (forall st' link, loop_body ignore_words pick st = Some st' ->
        link ∈ urls_to_visit st' ->
        is_same_domain link (normalize_url raw) = true).
Proof.
  intros Hentry Hit.
  pose proof (crawl_inv_entry raw st0 Hentry) as Hinv0.
  pose proof (crawl_inv_iterations _ _ _ _ _ _ Hinv0 Hit) as Hinv.
  split; [apply (inv_scope _ _ Hinv)|]. split; [|split].
  - intros u Hu. apply (inv_scope _ _ Hinv), elem_of_union_r.
    apply (inv_printed _ _ Hinv).
    rewrite (printed_dequeued _ _ _ _ _ _ Hinv0 Hit), in_app_iff. now right.
  - intros u rest link [Hu _]%set_pop_Some.
    assert (Hkey : domain_key u = domain_key (normalize_url raw)).
    { apply is_same_domain_key, (inv_scope _ _ Hinv). set_solver. }
    unfold is_same_domain. fold (domain_key link) (domain_key u)
      (domain_key (normalize_url raw)). now rewrite Hkey.
  - intros st' link Hbody Hlink.
    apply (inv_scope _ _ (crawl_inv_step _ _ _ _ _ Hinv Hbody)). set_solver.
Qed.

End Frontier.

Lemma frontier_yields_once_witness :
  @loop_entry Instances.cpython_urllib new_spider "HTTP://Example.com/a#top"
    = Some (Instances.entry_at "http://example.com/a")
  /\ NoDup (@dequeued Instances.cpython_urllib Instances.tiny_soup
              Instances.cycle_net ∅ Instances.pick_last 3
              (Instances.entry_at "http://example.com/a"))
  /\ @dequeued Instances.cpython_urllib Instances.tiny_soup
       Instances.cycle_net ∅ Instances.pick_last 3
       (Instances.entry_at "http://example.com/a")
     = ["http://example.com/a"; "http://example.com/b"].
Proof.
  assert (He : @loop_entry Instances.cpython_urllib new_spider
                 "HTTP://Example.com/a#top"
               = Some (Instances.entry_at "http://example.com/a"))
    by (vm_compute; reflexivity).
  split; [exact He|]. split; [|vm_compute; reflexivity].
  exact (proj1 (@frontier_yields_once Instances.cpython_urllib
                  Instances.tiny_soup Instances.cycle_net ∅
                  Instances.pick_last _ _ 3 He)).
Defined.

Lemma visited_pending_disjoint_witness :
  exists st,
    @iterations Instances.cpython_urllib Instances.tiny_soup
      Instances.broken_net ∅ Instances.pick_first 2
      (Instances.entry_at "http://example.com/a") = Some st
    /\ elements (urls_to_visit st)
       = ["http://example.com/b"; "http://example.com/d"]
    /\ visited_urls (spider st) ∩ urls_to_visit st = ∅
    /\ (forall url, is_Some (page_word_counts (spider st) !! url) ->
          url ∈ visited_urls (spider st)).
Proof.
  assert (He : @loop_entry Instances.cpython_urllib new_spider
                 "http://example.com/a"
               = Some (Instances.entry_at "http://example.com/a"))
    by (vm_compute; reflexivity).
  destruct (@iterations Instances.cpython_urllib Instances.tiny_soup
              Instances.broken_net ∅ Instances.pick_first 2
              (Instances.entry_at "http://example.com/a")) as [st|] eqn:Hit;
    [|vm_compute in Hit; discriminate].
  exists st. split; [reflexivity|]. split.
  - assert (Hf : match @iterations Instances.cpython_urllib
                     Instances.tiny_soup Instances.broken_net ∅
                     Instances.pick_first 2
                     (Instances.entry_at "http://example.com/a") with
                 | Some s => elements (urls_to_visit s)
                             = ["http://example.com/b"; "http://example.com/d"]
                 | None => False
                 end) by (vm_compute; reflexivity).
    now rewrite Hit in Hf.
  - exact (@visited_pending_disjoint Instances.cpython_urllib
             Instances.tiny_soup Instances.broken_net ∅
             Instances.pick_first _ _ _ 2 He Hit).
Defined.

Lemma links_scoped_to_seed_witness :
  exists st,
    @iterations Instances.cpython_urllib Instances.tiny_soup
      Instances.single_net ∅ Instances.pick_first 1
      (Instances.entry_at "http://example.com/") = Some st
    /\ urls_to_visit st = ∅
    /\ (forall u, u ∈ urls_to_visit st ∪ visited_urls (spider st) ->
          @is_same_domain Instances.cpython_urllib u
            (@normalize_url Instances.cpython_urllib "http://example.com/")
          = true).
Proof.
  assert (He : @loop_entry Instances.cpython_urllib new_spider
                 "http://example.com/"
               = Some (Instances.entry_at "http://example.com/"))
    by (vm_compute; reflexivity).
  destruct (@iterations Instances.cpython_urllib Instances.tiny_soup
              Instances.single_net ∅ Instances.pick_first 1
              (Instances.entry_at "http://example.com/")) as [st|] eqn:Hit;
    [|vm_compute in Hit; discriminate].
  exists st. split; [reflexivity|]. split.
  - assert (Hf : match @iterations Instances.cpython_urllib
                     Instances.tiny_soup Instances.single_net ∅
                     Instances.pick_first 1
                     (Instances.entry_at "http://example.com/") with
                 | Some s => urls_to_visit s = ∅
                 | None => False
                 end) by (vm_compute; reflexivity).
    now rewrite Hit in Hf.
  - exact (proj1 (@links_scoped_to_seed Instances.cpython_urllib
                    Instances.tiny_soup Instances.single_net ∅
                    Instances.pick_first _ _ _ 1 He Hit)).
Defined.

(** ** The crawl: termination *)

Section Termination.
Context `{Urllib} `{Bs4} `{Requests}.
Variable ignore_words : gset string.
Variable pick : nat -> list string -> nat.

Lemma filter_unvisited_new (V : gset string) (x : string) :
  x ∉ V -> filter (fun l => l ∉ V) ({[ x ]} : gset string) = {[ x ]}.
Proof. set_solver. Qed.

Lemma filter_unvisited_old (V : gset string) (x : string) :
  x ∈ V -> filter (fun l => l ∉ V) ({[ x ]} : gset string) = ∅.
Proof. set_solver. Qed.

Lemma filter_unvisited_empty (V : gset string) :
  filter (fun l => l ∉ V) (∅ : gset string) = ∅.
Proof. set_solver. Qed.

(** An iteration that starts with a single URL to visit. *)
Lemma loop_body_only (st : LoopState) (u : string) :
  urls_to_visit st = {[ u ]} ->
  u ∉ visited_urls (spider st) ->
  exists st', loop_body ignore_words pick st = Some st'
    /\ visited_urls (spider st') = visited_urls (spider st) ∪ {[ u ]}
    /\ urls_to_visit st' =
         filter (fun l => l ∉ (visited_urls (spider st) ∪ {[ u ]}))
                (page_links (S (page_count st)) u)
    /\ stdout (spider st') = (stdout (spider st) ++ [(S (page_count st), u)])%list
    /\ page_count st' = S (page_count st).
Proof.
  intros Hone Hnew.
  destruct (loop_body_progress ignore_words pick st) as [st' Hbody];
    [rewrite Hone; set_solver|].
  exists st'. split; [exact Hbody|].
  apply loop_body_spec in Hbody
    as (u' & _ & Hu' & Hpc & Hv & Hpend & _ & Hout).
  assert (u' = u) as -> by set_solver.
  rewrite decide_False in Hout by done.
  repeat split; try done.
  apply set_eq. intros l. rewrite Hpend, Hone. clear Hpend.
  rewrite elem_of_filter, elem_of_singleton. tauto.
Qed.

(** C2: the loop of a crawl ends. When the links found on the pages stay
    within a finite set [U] of URLs, a crawl from a URL of [U] returns
    after at most [size U] iterations, whatever [pop] picks. When A links
    to B and B links back to A, the crawl from A returns with the visited
    set {A, B}, after processing A once, then B once. When the page of the
    start URL has no link of its domain, the crawl returns after
    processing exactly that page. *)
Theorem crawl_terminates (raw : string) :
  (forall (U : gset string) (fuel : nat),
     (forall n u, u ∈ U -> page_links n u ⊆ U) ->
     normalize_url raw ∈ U ->
     size U <= fuel ->
     exists final,
       crawl_website ignore_words pick fuel new_spider raw = Some final
       /\ visited_urls final ⊆ U
       /\ length (stdout final) <= size U)
  /\ (forall (A B : string) (fuel : nat),
        normalize_url raw = A -> is_valid_url A = true -> A <> B ->
        (forall n, page_links n A = {[ B ]}) ->
        (forall n, page_links n B = {[ A ]}) ->
        2 <= fuel ->
        exists final,
          crawl_website ignore_words pick fuel new_spider raw = Some final
          /\ visited_urls final = {[ A; B ]}
          /\ stdout final = [(1, A); (2, B)])
  /\ (forall (A : string) (fuel : nat),
        normalize_url raw = A -> is_valid_url A = true ->
        (forall n, page_links n A = ∅) ->
        1 <= fuel ->
        exists final,
          crawl_website ignore_words pick fuel new_spider raw = Some final
          /\ visited_urls final = {[ A ]}
          /\ stdout final = [(1, A)]).
Proof.
  split; [|split].
  - intros U fuel Hclosed Hstart Hfuel. unfold crawl_website.
    destruct (loop_entry new_spider raw) as [st0|] eqn:Hentry.
    2:{ exists new_spider. repeat split; [set_solver|simpl; lia]. }
    pose proof (crawl_inv_entry raw st0 Hentry) as Hinv.
    apply loop_entry_spec in Hentry as [-> _].
    destruct (while_loop_terminates ignore_words pick U _ Hclosed fuel _ Hinv)
      as (st' & -> & Hend & Hinv' & Hin).
    + unfold within. simpl. set_solver.
    + simpl. etrans; [|exact Hfuel]. apply subseteq_size. set_solver.
    + exists (spider st'). split; [reflexivity|].
      assert (Hsub : visited_urls (spider st') ⊆ U)
        by (unfold within in Hin; set_solver).
      split; [exact Hsub|].
      rewrite <- (length_map snd).
      etrans; [|apply (subseteq_size _ _ Hsub)].
      unfold size, set_size. simpl. apply Nat.eq_le_incl, Permutation_length.
      apply NoDup_Permutation;
        [apply (inv_once _ _ Hinv')|apply NoDup_elements|].
      intros u. rewrite elem_of_elements, list_elem_of_In.
      apply (inv_printed _ _ Hinv').
  - intros A B fuel HA Hvalid Hne HAB HBA Hfuel.
    unfold crawl_website, loop_entry. rewrite HA, Hvalid. simpl.
    destruct (loop_body_only
                {| spider := new_spider; urls_to_visit := {[ A ]}; page_count := 0 |}
                A eq_refl (not_elem_of_empty A))
      as (st1 & Hb1 & Hv1 & Hp1 & Ho1 & Hc1).
    simpl in Hv1, Hp1, Ho1, Hc1.
    rewrite HAB, filter_unvisited_new in Hp1 by (clear - Hne; set_solver).
    destruct (loop_body_only st1 B Hp1) as (st2 & Hb2 & Hv2 & Hp2 & Ho2 & Hc2).
    { rewrite Hv1. clear - Hne. set_solver. }
    rewrite Hc1 in Hp2, Ho2.
    rewrite HBA, filter_unvisited_old in Hp2 by (rewrite Hv1; clear; set_solver).
    destruct fuel as [|[|fuel]]; [lia|lia|].
    rewrite (while_loop_step _ _ _ _ _ (non_empty_singleton_L A) Hb1).
    rewrite (while_loop_step _ _ _ _ _
               ltac:(rewrite Hp1; apply non_empty_singleton_L) Hb2).
    rewrite (while_loop_done _ _ _ _ Hp2). exists (spider st2). simpl.
    split; [reflexivity|]. split.
    + rewrite Hv2, Hv1. clear. set_solver.
    + now rewrite Ho2, Ho1.
  - intros A fuel HA Hvalid Hnone Hfuel.
    unfold crawl_website, loop_entry. rewrite HA, Hvalid. simpl.
    destruct (loop_body_only
                {| spider := new_spider; urls_to_visit := {[ A ]}; page_count := 0 |}
                A eq_refl (not_elem_of_empty A))
      as (st1 & Hb1 & Hv1 & Hp1 & Ho1 & Hc1).
    simpl in Hv1, Hp1, Ho1, Hc1.
    rewrite Hnone, filter_unvisited_empty in Hp1.
    destruct fuel as [|fuel]; [lia|].
    rewrite (while_loop_step _ _ _ _ _ (non_empty_singleton_L A) Hb1).
    rewrite (while_loop_done _ _ _ _ Hp1). exists (spider st1). simpl.
    split; [reflexivity|]. split; [|exact Ho1].
    rewrite Hv1. clear. set_solver.
Qed.

End Termination.

Lemma crawl_terminates_witness :
  (exists final,
     @crawl_website Instances.cpython_urllib Instances.tiny_soup
       Instances.broken_net ∅ Instances.pick_last 4 new_spider
       "http://example.com/a" = Some final
     /\ visited_urls final
        ⊆ {[ "http://example.com/a"; "http://example.com/b";
             "http://example.com/c"; "http://example.com/d" ]})
  /\ (exists final,
        @crawl_website Instances.cpython_urllib Instances.tiny_soup
          Instances.cycle_net ∅ Instances.pick_last 2 new_spider
          "http://example.com/a" = Some final
        /\ visited_urls final
           = {[ "http://example.com/a"; "http://example.com/b" ]}
        /\ stdout final
           = [(1, "http://example.com/a"); (2, "http://example.com/b")])
  /\ (exists final,
        @crawl_website Instances.cpython_urllib Instances.tiny_soup
          Instances.single_net ∅ Instances.pick_first 1 new_spider
          "http://example.com/" = Some final
        /\ visited_urls final = {[ "http://example.com/" ]}
        /\ stdout final = [(1, "http://example.com/")]).
Proof.
  split; [|split].
  - destruct (proj1 (@crawl_terminates Instances.cpython_urllib
                 Instances.tiny_soup Instances.broken_net ∅
                 Instances.pick_last "http://example.com/a")
               {[ "http://example.com/a"; "http://example.com/b";
                  "http://example.com/c"; "http://example.com/d" ]} 4)
      as (final & Hrun & Hsub & _).
    + intros n u Hu. apply (bool_decide_unpack _).
      repeat (apply elem_of_union in Hu as [Hu|Hu]);
        apply elem_of_singleton in Hu as ->; vm_compute; exact I.
    + apply (bool_decide_unpack _). vm_compute. exact I.
    + vm_compute. repeat constructor.
    + exists final. split; [exact Hrun|exact Hsub].
  - apply (proj1 (proj2 (@crawl_terminates Instances.cpython_urllib
                 Instances.tiny_soup Instances.cycle_net ∅
                 Instances.pick_last "http://example.com/a"))).
    + vm_compute; reflexivity.
    + vm_compute; reflexivity.
    + discriminate.
    + intros n. vm_compute. reflexivity.
    + intros n. vm_compute. reflexivity.
    + lia.
  - apply (proj2 (proj2 (@crawl_terminates Instances.cpython_urllib
                 Instances.tiny_soup Instances.single_net ∅
                 Instances.pick_first "http://example.com/"))).
    + vm_compute; reflexivity.
    + vm_compute; reflexivity.
    + intros n. vm_compute. reflexivity.
    + lia.
Defined.

(** ** The crawl: pages without content *)

Section Failures.
Context `{Urllib} `{Bs4} `{Requests}.
Variable ignore_words : gset string.
Variable pick : nat -> list string -> nat.

(** [fetch_page] returns [None] for the two kinds of failure: an exception
    of [requests], and a content type that is neither HTML nor XHTML. *)
Lemma fetch_page_None (n : nat) (url : string) :
  fetch_page n url = None <->
  session_get n url = RequestException
  \/ exists header text,
       session_get n url = Response header text
       /\ Py.contains "text/html" (Py.lower (default "" header)) = false
       /\ Py.contains "application/xhtml" (Py.lower (default "" header)) = false.
Proof.
  unfold fetch_page. destruct (session_get n url) as [|header text].
  - split; [now left|done].
  - destruct (Py.contains "text/html" _) eqn:Ehtml,
             (Py.contains "application/xhtml" _) eqn:Exhtml; simpl.
    all: split;
      [ try discriminate; intros _; right; exists header, text; done
      | intros [Hx|(h & t & [= <- <-] & Ha & Hb)]; congruence ].
Qed.

Lemma loop_body_no_content (st : LoopState) (u : string) (rest : gset string) :
  pop_next pick st = Some (u, rest) ->
  u ∉ visited_urls (spider st) ->
  fetch_page (S (page_count st)) u = None
  \/ fetch_page (S (page_count st)) u = Some "" ->
  loop_body ignore_words pick st =
    Some {| spider :=
              {| visited_urls := visited_urls (spider st) ∪ {[ u ]};
                 word_counts := word_counts (spider st);
                 page_word_counts := page_word_counts (spider st);
                 total_words_processed := total_words_processed (spider st);
                 stdout := stdout (spider st) ++ [(S (page_count st), u)] |};
            urls_to_visit := urls_to_visit st ∖ {[ u ]};
            page_count := S (page_count st) |}.
Proof.
  intros Hpop Hnew Hfetch. rewrite (loop_body_unfold _ _ _ _ _ Hpop).
  rewrite (crawl_page_no_content _ _ _ _ _ Hnew Hfetch). simpl.
  apply set_pop_Some in Hpop as [_ ->]. do 2 f_equal.
  unfold offer. set_solver.
Qed.

Lemma iterations_add (n m : nat) : forall st st1 st2,
  iterations ignore_words pick n st = Some st1 ->
  iterations ignore_words pick m st1 = Some st2 ->
  iterations ignore_words pick (n + m) st = Some st2.
Proof.
  induction n as [|n IH]; intros st st1 st2; simpl.
  - now intros [= <-].
  - destruct (decide (urls_to_visit st = ∅)); [discriminate|].
    destruct (loop_body ignore_words pick st); [apply IH|discriminate].
Qed.

(** A visited URL without a page record never gets one. *)
Lemma no_record_kept (start : string) (u : string) (n : nat) : forall st st',
  crawl_inv start st ->
  iterations ignore_words pick n st = Some st' ->
  u ∈ visited_urls (spider st) ->
  page_word_counts (spider st) !! u = None ->
  page_word_counts (spider st') !! u = None.
Proof.
  induction n as [|n IH]; intros st st' Hinv; simpl.
  - now intros [= <-].
  - destruct (decide (urls_to_visit st = ∅)); [discriminate|].
    destruct (loop_body ignore_words pick st) as [st1|] eqn:Hbody; [|discriminate].
    intros Hit Hu Hnone.
    pose proof (crawl_inv_step _ _ _ _ _ Hinv Hbody) as Hinv1.
    apply loop_body_spec in Hbody as (u' & _ & Hu' & _ & Hv & _ & Hdom & _).
    apply (IH st1 st' Hinv1 Hit); [set_solver|].
    apply not_elem_of_dom. apply not_elem_of_dom in Hnone.
    destruct Hinv as [Hdisj _ _ _ _ _]. set_solver.
Qed.

(** C5: when the fetch of a URL fails during a crawl (an exception of the
    request, which covers network errors, timeouts and error statuses, or
    a content type that is neither HTML nor XHTML), the iteration
    completes: the URL is visited, the word counts and the page records
    are unchanged, and the other URLs still wait. The crawl then runs to
    its end: the URL is in the final visited set without a page record,
    and every URL that waits or is found afterwards is visited. *)
Theorem fetch_failure_goes_on (U : gset string) (raw : string)
    (fuel n : nat) (st0 st : LoopState) (u : string) (rest : gset string) :
  (forall k v, v ∈ U -> page_links k v ⊆ U) ->
  normalize_url raw ∈ U ->
  size U <= fuel ->
  loop_entry new_spider raw = Some st0 ->
  iterations ignore_words pick n st0 = Some st ->
  pop_next pick st = Some (u, rest) ->
  (session_get (S (page_count st)) u = RequestException
   \/ exists header text,
        session_get (S (page_count st)) u = Response header text
        /\ Py.contains "text/html" (Py.lower (default "" header)) = false
        /\ Py.contains "application/xhtml" (Py.lower (default "" header))
           = false) ->
  exists st' final,
    loop_body ignore_words pick st = Some st'
    /\ visited_urls (spider st') = visited_urls (spider st) ∪ {[ u ]}
    /\ word_counts (spider st') = word_counts (spider st)
    /\ page_word_counts (spider st') = page_word_counts (spider st)
    /\ total_words_processed (spider st') = total_words_processed (spider st)
    /\ urls_to_visit st' = urls_to_visit st ∖ {[ u ]}
    /\ crawl_website ignore_words pick fuel new_spider raw = Some final
    /\ u ∈ visited_urls final
    /\ page_word_counts final !! u = None
    /\ (forall m st2,
          iterations ignore_words pick m st' = Some st2 ->
          urls_to_visit st2 ∪ visited_urls (spider st2) ⊆ visited_urls final).
Proof.
  intros Hclosed Hstart Hfuel Hentry Hit Hpop Hfail%fetch_page_None.
  pose proof (crawl_inv_entry raw st0 Hentry) as Hinv0.
  pose proof (crawl_inv_iterations _ _ _ _ _ _ Hinv0 Hit) as Hinv.
  apply set_pop_Some in Hpop as Hu. destruct Hu as [Hu _].
  assert (Hnew : u ∉ visited_urls (spider st))
    by (destruct Hinv; set_solver).
  assert (Hne : urls_to_visit st <> ∅) by set_solver.
  pose proof (loop_body_no_content st u rest Hpop Hnew (or_introl Hfail))
    as Hbody.
  match type of Hbody with _ = Some ?x => set (st' := x) in * end.
  destruct (while_loop_terminates ignore_words pick U _ Hclosed fuel st0 Hinv0)
    as (stf & Hrun & Hend & Hinvf & _).
  { apply loop_entry_spec in Hentry as [-> _]. unfold within. simpl.
    clear - Hstart. set_solver. }
  { etrans; [|exact Hfuel]. apply subseteq_size. clear. set_solver. }
  exists st', (spider stf). split; [exact Hbody|].
  do 5 (split; [reflexivity|]).
  split; [unfold crawl_website; now rewrite Hentry, Hrun|].
  assert (Hit' : iterations ignore_words pick (n + 1) st0 = Some st').
  { apply (iterations_add _ _ _ _ _ Hit). simpl.
    rewrite decide_False by done. now rewrite Hbody. }
  assert (Hall : forall m st2,
    iterations ignore_words pick m st' = Some st2 ->
    urls_to_visit st2 ∪ visited_urls (spider st2) ⊆ visited_urls (spider stf)).
  { intros m st2 Hm. pose proof (iterations_add _ _ _ _ _ Hit' Hm) as Hm'.
    apply (while_loop_visits_all ignore_words pick (fuel - (n + 1 + m))).
    eapply while_loop_from_iterations; eauto. }
  split.
  { apply (Hall 0 st' eq_refl). simpl. clear. set_solver. }
  split; [|exact Hall].
  pose proof (while_loop_from_iterations _ _ _ _ _ _ _ Hit' Hrun) as Hrest.
  apply while_loop_iterations in Hrest as (_ & k & _ & Hk).
  apply (no_record_kept (normalize_url raw) u k st' stf
           (crawl_inv_iterations _ _ _ _ _ _ Hinv0 Hit') Hk).
  - simpl. clear. set_solver.
  - simpl. apply not_elem_of_dom. destruct Hinv as [_ Hrec _ _ _ _].
    clear - Hrec Hnew. set_solver.
Qed.

End Failures.
Lemma fetch_failure_goes_on_witness :
  exists st st' final,
    @iterations Instances.cpython_urllib Instances.tiny_soup
      Instances.broken_net ∅ Instances.pick_last 2
      (Instances.entry_at "http://example.com/a") = Some st
    /\ pop_next Instances.pick_last st
       = Some ("http://example.com/b",
               urls_to_visit st ∖ {[ "http://example.com/b" ]})
    /\ @session_get Instances.broken_net 3 "http://example.com/b"
       = RequestException
    /\ @loop_body Instances.cpython_urllib Instances.tiny_soup
         Instances.broken_net ∅ Instances.pick_last st = Some st'
    /\ word_counts (spider st') = word_counts (spider st)
    /\ @crawl_website Instances.cpython_urllib Instances.tiny_soup
         Instances.broken_net ∅ Instances.pick_last 4 new_spider
         "http://example.com/a" = Some final
    /\ "http://example.com/b" ∈ visited_urls final
    /\ page_word_counts final !! "http://example.com/b" = None
    /\ urls_to_visit st' ⊆ visited_urls final.
Proof.
  assert (He : @loop_entry Instances.cpython_urllib new_spider
                 "http://example.com/a"
               = Some (Instances.entry_at "http://example.com/a"))
    by (vm_compute; reflexivity).
  destruct (@iterations Instances.cpython_urllib Instances.tiny_soup
              Instances.broken_net ∅ Instances.pick_last 2
              (Instances.entry_at "http://example.com/a")) as [st|] eqn:Hit;
    [|vm_compute in Hit; discriminate].
  assert (Hpop : pop_next Instances.pick_last st
                 = Some ("http://example.com/b",
                         urls_to_visit st ∖ {[ "http://example.com/b" ]})).
  { assert (Hf : match @iterations Instances.cpython_urllib
                      Instances.tiny_soup Instances.broken_net ∅
                      Instances.pick_last 2
                      (Instances.entry_at "http://example.com/a") with
                 | Some s => pop_next Instances.pick_last s
                             = Some ("http://example.com/b",
                                     urls_to_visit s
                                       ∖ {[ "http://example.com/b" ]})
                 | None => False
                 end) by (vm_compute; reflexivity).
    now rewrite Hit in Hf. }
  assert (Hclosed : forall k v,
    v ∈ ({[ "http://example.com/a"; "http://example.com/b";
            "http://example.com/c"; "http://example.com/d" ]} : gset string) ->
    @page_links Instances.cpython_urllib Instances.tiny_soup
      Instances.broken_net k v
    ⊆ {[ "http://example.com/a"; "http://example.com/b";
         "http://example.com/c"; "http://example.com/d" ]}).
  { intros k v Hv. apply (bool_decide_unpack _).
    repeat (apply elem_of_union in Hv as [Hv|Hv]);
      apply elem_of_singleton in Hv as ->; vm_compute; exact I. }
  destruct (@fetch_failure_goes_on Instances.cpython_urllib
              Instances.tiny_soup Instances.broken_net ∅ Instances.pick_last
              _ "http://example.com/a" 4 2
              (Instances.entry_at "http://example.com/a") st
              "http://example.com/b"
              (urls_to_visit st ∖ {[ "http://example.com/b" ]}) Hclosed)
    as (st' & final & Hbody & Hv & Hw & Hp & Ht & Hq & Hrun & Hb & Hnone & Hall).
  - apply (bool_decide_unpack _). vm_compute. exact I.
  - vm_compute. repeat constructor.
  - exact He.
  - exact Hit.
  - exact Hpop.
  - left. reflexivity.
  - exists st, st', final.
    split; [reflexivity|]. split; [exact Hpop|]. split; [reflexivity|].
    split; [exact Hbody|]. split; [exact Hw|]. split; [exact Hrun|].
    split; [exact Hb|]. split; [exact Hnone|].
    intros x Hx. apply (Hall 0 st' eq_refl). now apply elem_of_union_l.
Defined.

(** ** [normalize_url] *)




(** ** [normalize_url] with the [urllib.parse] of CPython *)

(** *** Searching and cutting a string *)








(** *** The pieces of [urlsplit] *)









(** *** The characters that [urlsplit] removes *)







(** *** [_splitparams] *)







(** *** What [urlsplit] returns *)





(** *** Parsing what [urlunsplit] has put together *)






Lemma truthy_lower (s : string) : Py.truthy (Py.lower s) = Py.truthy s.
Proof. now destruct s. Qed.



(** *** The normal form, parsed again *)







(** ** Empty pages *)

(** C10: a page whose text is empty is handled as a failed fetch is:
    [crawl_page] gives the same result in both cases, the URL becomes
    visited, no page record is made, the counts are unchanged and no link
    is returned. On the site with the empty page d and the missing page b,
    the URLs with a page record are a strict subset of the visited URLs. *)
Theorem empty_body_like_failure :
  (forall (net : Requests) (n : nat) (url : string) (header : option string),
     @session_get net n url = Response header "" ->
     Py.contains "text/html" (Py.lower (default "" header)) = true ->
     @fetch_page net n url = Some "")
  /\ (forall (urllib : Urllib) (bs4 : Bs4) (net_empty net_failed : Requests)
        (ignore_words : gset string) (self : WebSpider) (url : string)
        (n q : nat),
        @fetch_page net_empty n url = Some "" ->
        @fetch_page net_failed n url = None ->
        @crawl_page urllib bs4 net_empty ignore_words self url n q
        = @crawl_page urllib bs4 net_failed ignore_words self url n q)
  /\ (forall (urllib : Urllib) (bs4 : Bs4) (net : Requests)
        (ignore_words : gset string) (self : WebSpider) (url : string)
        (n q : nat),
        url ∉ visited_urls self ->
        @fetch_page net n url = Some "" ->
        visited_urls (@crawl_page urllib bs4 net ignore_words self url n q).1
          = visited_urls self ∪ {[ url ]}
        /\ page_word_counts
             (@crawl_page urllib bs4 net ignore_words self url n q).1
           = page_word_counts self
        /\ word_counts (@crawl_page urllib bs4 net ignore_words self url n q).1
           = word_counts self
        /\ (@crawl_page urllib bs4 net ignore_words self url n q).2 = ∅)
  /\ (exists final,
        @crawl_website Instances.cpython_urllib Instances.tiny_soup
          Instances.broken_net ∅ Instances.pick_first 4 new_spider
          "http://example.com/a" = Some final
        /\ "http://example.com/d" ∈ visited_urls final
        /\ page_word_counts final !! "http://example.com/d" = None
        /\ dom (page_word_counts final) ⊂ visited_urls final).
Proof.
  split; [|split; [|split]].
  - intros net n url header Hget Hhtml. unfold fetch_page.
    now rewrite Hget, Hhtml.
  - intros urllib bs4 net_empty net_failed ignore_words self url n q He Hf.
    unfold crawl_page. now rewrite He, Hf.
  - intros urllib bs4 net ignore_words self url n q Hnew He.
    now rewrite (crawl_page_no_content _ _ _ _ _ Hnew (or_intror He)).
  - assert (Hf : match @crawl_website Instances.cpython_urllib
                     Instances.tiny_soup Instances.broken_net ∅
                     Instances.pick_first 4 new_spider "http://example.com/a" with
                 | Some final =>
                     bool_decide ("http://example.com/d" ∈ visited_urls final)
                     && bool_decide (page_word_counts final
                                       !! "http://example.com/d" = None)
                     && bool_decide (dom (page_word_counts final)
                                       ⊆ visited_urls final)
                 | None => false
                 end = true) by (vm_compute; reflexivity).
    destruct (@crawl_website Instances.cpython_urllib Instances.tiny_soup
                Instances.broken_net ∅ Instances.pick_first 4 new_spider
                "http://example.com/a") as [final|]; [|discriminate].
    apply andb_prop in Hf as [[Hd Hnone]%andb_prop Hsub].
    apply bool_decide_eq_true in Hd, Hnone, Hsub.
    exists final. split; [reflexivity|]. split; [exact Hd|].
    split; [exact Hnone|]. split; [exact Hsub|].
    intros Hback. apply not_elem_of_dom in Hnone. apply Hnone, Hback, Hd.
Qed.

(** * Further properties of the program *)

(** ** [URLValidator.is_same_domain] *)

Section SameDomain.
Context `{Urllib}.

Lemma get_domain_lower (url : string) :
  Py.lower (get_domain url) = get_domain url.
Proof. apply lower_idem. Qed.

Lemma is_same_domain_strip (a b : string) :
  is_same_domain a b = true <->
  strip_www (get_domain a) = strip_www (get_domain b).
Proof.
  rewrite is_same_domain_key. unfold domain_key.
  now rewrite !get_domain_lower.
Qed.

(** X1: [is_same_domain] is an equivalence relation on URLs: it compares
    the lowercased network locations once a leading "www." is taken off
    each (the second [lower] of the code changes nothing). *)
Theorem is_same_domain_equivalence :
  (forall a b, is_same_domain a b = true <->
               strip_www (get_domain a) = strip_www (get_domain b))
  /\ (forall a, is_same_domain a a = true)
  /\ (forall a b, is_same_domain a b = is_same_domain b a)
  /\ (forall a b c, is_same_domain a b = true ->
                    is_same_domain b c = true -> is_same_domain a c = true).
Proof.
  split; [|split; [|split]].
  - apply is_same_domain_strip.
  - apply is_same_domain_refl.
  - intros a b. unfold is_same_domain. apply String.eqb_sym.
  - apply is_same_domain_trans.
Qed.

Lemma length_drop (n : nat) : forall s : string,
  String.length (Py.drop n s) = String.length s - n.
Proof.
  induction n as [|n IH]; intros [|c s]; simpl; try lia. apply IH.
Qed.

Lemma startswith_length (p : string) : forall s : string,
  Py.startswith p s = true -> String.length p <= String.length s.
Proof.
  unfold Py.startswith.
  induction p as [|a p IH]; intros [|c s]; simpl; try lia; try discriminate.
  destruct (ascii_dec a c); [|discriminate].
  intros Hp%IH. lia.
Qed.

Lemma strip_www_prefixed (d : string) : strip_www ("www." ++ d) = d.
Proof.
  unfold strip_www, Py.startswith.
  change (String.prefix "www." ("www." ++ d)) with (String.prefix "" d).
  now destruct d.
Qed.

Lemma strip_www_fixed (d : string) :
  strip_www d = d <-> Py.startswith "www." d = false.
Proof.
  unfold strip_www. destruct (Py.startswith "www." d) eqn:Hw; [|done].
  split; [|discriminate]. intros Heq.
  apply (f_equal String.length) in Heq. rewrite length_drop in Heq.
  apply (startswith_length "www.") in Hw. simpl in Hw. lia.
Qed.

(** X2: only one leading "www." is ignored. When the host of [a] is the
    host of [b] with "www." in front, the two URLs are of the same domain
    exactly when the host of [b] does not itself start with "www.". *)
Theorem is_same_domain_www (a b : string) :
  get_domain a = "www." ++ get_domain b ->
  is_same_domain a b = negb (Py.startswith "www." (get_domain b)).
Proof.
  intros Ha.
  pose proof (is_same_domain_strip a b) as Hiff.
  rewrite Ha, strip_www_prefixed in Hiff.
  pose proof (strip_www_fixed (get_domain b)) as Hfix.
  destruct (is_same_domain a b), (Py.startswith "www." (get_domain b));
    simpl; try reflexivity.
  - destruct Hiff as [Hiff _]. specialize (Hiff eq_refl).
    symmetry in Hiff. apply Hfix in Hiff. discriminate.
  - destruct Hiff as [_ Hiff]. destruct Hfix as [_ Hfix].
    rewrite Hfix in Hiff by reflexivity. now specialize (Hiff eq_refl).
Qed.

End SameDomain.

Lemma is_same_domain_www_witness :
  @get_domain Instances.cpython_urllib "http://WWW.Example.com/a"
    = "www." ++ @get_domain Instances.cpython_urllib "https://example.COM/b?x"
  /\ @is_same_domain Instances.cpython_urllib "http://WWW.Example.com/a"
       "https://example.COM/b?x" = true
  /\ @is_same_domain Instances.cpython_urllib "http://www.www.example.com/"
       "http://www.example.com/" = false.
Proof.
  split; [reflexivity|]. split.
  - exact (@is_same_domain_www Instances.cpython_urllib
             "http://WWW.Example.com/a" "https://example.COM/b?x" eq_refl).
  - exact (@is_same_domain_www Instances.cpython_urllib
             "http://www.www.example.com/" "http://www.example.com/" eq_refl).
Defined.

(** ** [class IgnoreListManager] *)

(** The line, as [load_ignore_list] stores it, if it does. *)
Lemma load_ignore_list_fold (lines : list string) : forall (acc : gset string) w,
  w ∈ fold_left
        (fun (ignore_words : gset string) (line : string) =>
           let line := Py.lower (Py.strip line) in
           if Py.truthy line && negb (Py.startswith "#" line)
           then ignore_words ∪ {[ line ]}
           else ignore_words)
        lines acc
  <-> w ∈ acc
      \/ exists line, In line lines /\ w = Py.lower (Py.strip line)
           /\ w <> "" /\ Py.startswith "#" w = false.
Proof.
  induction lines as [|l lines IH]; intros acc w; simpl.
  - split; [now left|]. intros [Hw|(line & [] & _)]. exact Hw.
  - rewrite IH. clear IH.
    destruct (Py.truthy (Py.lower (Py.strip l))
              && negb (Py.startswith "#" (Py.lower (Py.strip l)))) eqn:Hkeep.
    + apply andb_prop in Hkeep as [Ht Hc]. apply negb_true_iff in Hc.
      rewrite elem_of_union, elem_of_singleton. split.
      * intros [[Hw| ->]|(line & Hin & Hrest)].
        -- now left.
        -- right. exists l. repeat split; try done; [now left|].
           intros He. now rewrite He in Ht.
        -- right. exists line. split; [now right|exact Hrest].
      * intros [Hw|(line & [<-|Hin] & Hrest)].
        -- now left; left.
        -- left; right. apply Hrest.
        -- right. exists line. now split.
    + split.
      * intros [Hw|(line & Hin & Hrest)]; [now left|].
        right. exists line. split; [now right|exact Hrest].
      * intros [Hw|(line & [<-|Hin] & -> & Hne & Hc)]; [now left| |].
        -- rewrite Hc, andb_true_r in Hkeep.
           destruct (Py.lower (Py.strip l)); [done|discriminate].
        -- right. exists line. now repeat split.
Qed.

(** X3: with the ignore words loaded from [lines], a word is ignored
    exactly when, in lower case, it is a line in lower case without the
    white space around it, that line being neither empty nor a comment
    (a line that starts with "#"). *)
Theorem should_ignore_loaded (lines : list string) (word : string) :
  should_ignore (load_ignore_list lines) word = true <->
  exists line, In line lines
    /\ Py.lower word = Py.lower (Py.strip line)
    /\ Py.lower (Py.strip line) <> ""
    /\ Py.startswith "#" (Py.lower (Py.strip line)) = false.
Proof.
  unfold should_ignore, load_ignore_list.
  rewrite bool_decide_eq_true, load_ignore_list_fold. split.
  - intros [Hin|(line & Hin & Hw & Hne & Hc)]; [now apply not_elem_of_empty in Hin|].
    exists line. rewrite <- Hw. now repeat split.
  - intros (line & Hin & Hw & Hne & Hc). right. exists line.
    rewrite Hw. now repeat split.
Qed.

(** *** Writing the ignore file and reading it back *)

Lemma readlines_aux_other (cur : string) (c : ascii) (s : string) :
  (Ascii.eqb c "010" || Ascii.eqb c "013") = false ->
  Py.readlines_aux cur (String c s)
  = Py.readlines_aux (cur ++ String c "") s.
Proof.
  destruct c as [[] [] [] [] [] [] [] []]; intros Hc;
    try discriminate Hc; now destruct s.
Qed.

Lemma readlines_aux_line (w : string) : forall cur rest,
  Py.all_chars (fun c => negb (Ascii.eqb c "010" || Ascii.eqb c "013")) w = true ->
  Py.readlines_aux cur (w ++ String "010" rest)
  = (cur ++ w ++ String "010" "") :: Py.readlines_aux "" rest.
Proof.
  induction w as [|c w IH]; intros cur rest Hw.
  - reflexivity.
  - simpl in Hw. apply andb_prop in Hw as [Hc Hw]. apply negb_true_iff in Hc.
    rewrite append_cons, (readlines_aux_other _ _ _ Hc), (IH _ _ Hw).
    now rewrite !append_assoc.
Qed.

Lemma readlines_aux_last (w : string) : forall cur,
  Py.all_chars (fun c => negb (Ascii.eqb c "010" || Ascii.eqb c "013")) w = true ->
  Py.readlines_aux cur w
  = match cur ++ w with "" => [] | l => [l] end.
Proof.
  induction w as [|c w IH]; intros cur Hw.
  - rewrite append_nil_r. now destruct cur.
  - simpl in Hw. apply andb_prop in Hw as [Hc Hw]. apply negb_true_iff in Hc.
    rewrite (readlines_aux_other _ _ _ Hc), (IH _ Hw).
    now rewrite append_assoc.
Qed.

Lemma rstrip_snoc_space (s : string) (c : ascii) :
  Py.is_space c = true -> Py.rstrip (s ++ String c "") = Py.rstrip s.
Proof.
  intros Hc. induction s as [|d s IH].
  - rewrite append_nil_l. simpl. now rewrite Hc.
  - rewrite append_cons. simpl. now rewrite IH.
Qed.

Lemma lstrip_spaces (w t : string) :
  Py.all_chars Py.is_space w = true -> Py.lstrip (w ++ t) = Py.lstrip t.
Proof.
  induction w as [|c w IH]; [reflexivity|]. simpl.
  intros [Hc Hw]%andb_prop. rewrite Hc. auto.
Qed.

Lemma lstrip_app (w t : string) :
  Py.all_chars Py.is_space w = false -> Py.lstrip (w ++ t) = Py.lstrip w ++ t.
Proof.
  induction w as [|c w IH]; [discriminate|]. simpl.
  destruct (Py.is_space c); simpl; [exact IH|reflexivity].
Qed.

Lemma strip_line_end (w : string) :
  Py.strip (w ++ String "010" "") = Py.strip w.
Proof.
  unfold Py.strip. destruct (Py.all_chars Py.is_space w) eqn:Hw.
  - rewrite (lstrip_spaces _ _ Hw).
    pose proof (lstrip_spaces w "" Hw) as Hempty.
    rewrite append_nil_r in Hempty. now rewrite Hempty.
  - rewrite (lstrip_app _ _ Hw). now apply rstrip_snoc_space.
Qed.

(** X4: writing lines to the ignore file, joined by line feeds, and
    loading the file gives the ignore words that the lines themselves
    give, provided that no line contains a line feed or a carriage
    return; this is how [create_default_ignore_list] gets the default
    words into the manager. *)
Theorem ignore_file_round_trip (words : list string) :
  Forall (fun w =>
            Py.all_chars
              (fun c => negb (Ascii.eqb c "010" || Ascii.eqb c "013")) w
            = true) words ->
  load_ignore_list (Py.readlines (Py.join (String "010" "") words))
  = load_ignore_list words.
Proof.
  unfold load_ignore_list, Py.readlines, Py.join.
  generalize (∅ : gset string).
  induction words as [|w words IH]; intros acc Hall; [reflexivity|].
  apply Forall_cons in Hall as [Hw Hall].
  destruct words as [|w2 words].
  - simpl String.concat. rewrite (readlines_aux_last w "" Hw), append_nil_l.
    now destruct w.
  - change (String.concat (String "010" "") (w :: w2 :: words))
      with (w ++ String "010" (String.concat (String "010" "") (w2 :: words))).
    rewrite (readlines_aux_line w "" _ Hw), append_nil_l.
    cbn [fold_left]. rewrite strip_line_end. apply (IH _ Hall).
Qed.

Lemma ignore_file_round_trip_witness :
  snd (ignore_manager_init None) = load_ignore_list default_words
  /\ size (snd (ignore_manager_init None)) = 77
  /\ should_ignore (snd (ignore_manager_init None)) "The" = true
  /\ should_ignore (snd (ignore_manager_init None))
       "# Common English words to ignore" = false.
Proof.
  split.
  - apply (ignore_file_round_trip default_words). repeat constructor.
  - split; [vm_compute; reflexivity|].
    split; vm_compute; reflexivity.
Defined.

(** ** [TextProcessor.extract_links] *)

Section Links.
Context `{Urllib} `{Bs4}.

Lemma is_valid_url_accepted (url : string) :
  is_valid_url url = true -> urlparse_raises url = false.
Proof. unfold is_valid_url. now destruct (urlparse_raises url). Qed.

Lemma extract_links_loop_spec (base_url : string) (hrefs : list string) :
  forall (acc : gset string) (l : string),
  l ∈ extract_links_loop base_url hrefs acc
  <-> l ∈ acc
      \/ exists before href after,
           hrefs = (before ++ href :: after)%list
           /\ Forall (fun h => link_raises base_url h = false)
                 (before ++ [href])
           /\ l = normalize_url (urljoin base_url href)
           /\ is_valid_url l = true.
Proof.
  induction hrefs as [|h hrefs IH]; intros acc l; simpl.
  - split; [now left|]. intros [Hl|(before & href & after & Heq & _)];
      [exact Hl|]. now destruct before.
  - assert (Hstop : link_raises base_url h = true ->
      (exists before href after,
         h :: hrefs = (before ++ href :: after)%list
         /\ Forall (fun h => link_raises base_url h = false)
               (before ++ [href])
         /\ l = normalize_url (urljoin base_url href)
         /\ is_valid_url l = true) -> False).
    { intros Hraise (before & href & after & Heq & Hok & _).
      destruct before as [|b before]; simpl in Heq, Hok;
        injection Heq as <- _; apply Forall_cons in Hok as [Hok _];
        congruence. }
    unfold link_raises in Hstop.
    destruct (urljoin_raises base_url h) eqn:Hjoin.
    { split; [now left|]. intros [Hl|Hex]; [exact Hl|].
      now destruct (Hstop eq_refl Hex). }
    destruct (normalize_url_raises (urljoin base_url h)) eqn:Hnorm.
    { split; [now left|]. intros [Hl|Hex]; [exact Hl|].
      now destruct (Hstop eq_refl Hex). }
    clear Hstop.
    assert (Hh : link_raises base_url h = false)
      by (unfold link_raises; now rewrite Hjoin, Hnorm).
    rewrite IH. clear IH. split.
    + intros [Hl|(before & href & after & -> & Hok & Hrest)].
      * destruct (is_valid_url (normalize_url (urljoin base_url h)))
          eqn:Hvalid; [|now left].
        apply elem_of_union in Hl as [Hl|Hl]; [now left|].
        apply elem_of_singleton in Hl as ->. right.
        exists [], h, hrefs. split; [reflexivity|].
        split; [now repeat constructor|now split].
      * right. exists (h :: before), href, after. split; [reflexivity|].
        split; [|exact Hrest]. simpl. now constructor.
    + intros [Hl|(before & href & after & Heq & Hok & Hl & Hvalid)].
      * left. destruct (is_valid_url _); [|exact Hl].
        now apply elem_of_union_l.
      * destruct before as [|b before]; simpl in Heq, Hok;
          injection Heq as <- ->.
        -- left. rewrite <- Hl, Hvalid. apply elem_of_union_r.
           now apply elem_of_singleton.
        -- right. exists before, href, after. split; [reflexivity|].
           apply Forall_cons in Hok as [_ Hok]. now split.
Qed.

Lemma extract_links_valid (html_content base_url l : string) :
  l ∈ extract_links html_content base_url -> is_valid_url l = true.
Proof.
  unfold extract_links. destruct (soup_hrefs html_content) as [hrefs|].
  - rewrite extract_links_loop_spec.
    intros [Hl|(_ & _ & _ & _ & _ & _ & Hvalid)]; [|exact Hvalid].
    now apply not_elem_of_empty in Hl.
  - intros Hl. now apply not_elem_of_empty in Hl.
Qed.

(** X5: the links of a page are the valid URLs among the normal forms of
    its anchors, each joined to the base URL, up to the first anchor on
    which [urljoin] or [normalize_url] raises: the [try] of
    [extract_links] ends the loop there, and the anchors behind it are
    lost.  Every link is a URL that [urlparse] accepts, and a page that
    the parser rejects has no link. *)
Theorem extract_links_spec (html_content base_url : string) :
  (forall l, l ∈ extract_links html_content base_url <->
     exists hrefs before href after,
       soup_hrefs html_content = Some hrefs
       /\ hrefs = (before ++ href :: after)%list
       /\ Forall (fun h => link_raises base_url h = false)
             (before ++ [href])
       /\ l = normalize_url (urljoin base_url href)
       /\ is_valid_url l = true)
  /\ (forall l, l ∈ extract_links html_content base_url ->
        is_valid_url l = true /\ urlparse_raises l = false)
  /\ (forall hrefs,
        soup_hrefs html_content = Some hrefs ->
        Forall (fun h => link_raises base_url h = false) hrefs ->
        forall l, l ∈ extract_links html_content base_url <->
          exists href, In href hrefs
            /\ l = normalize_url (urljoin base_url href)
            /\ is_valid_url l = true)
  /\ (soup_hrefs html_content = None ->
      extract_links html_content base_url = ∅).
Proof.
  assert (Hspec : forall l, l ∈ extract_links html_content base_url <->
     exists hrefs before href after,
       soup_hrefs html_content = Some hrefs
       /\ hrefs = (before ++ href :: after)%list
       /\ Forall (fun h => link_raises base_url h = false)
             (before ++ [href])
       /\ l = normalize_url (urljoin base_url href)
       /\ is_valid_url l = true).
  { intros l. unfold extract_links.
    destruct (soup_hrefs html_content) as [hrefs|].
    - rewrite extract_links_loop_spec. split.
      + intros [Hl|(before & href & after & Hrest)];
          [now apply not_elem_of_empty in Hl|].
        now exists hrefs, before, href, after.
      + intros (hrefs' & before & href & after & [= <-] & Hrest). right.
        now exists before, href, after.
    - split.
      + intros Hl. now apply not_elem_of_empty in Hl.
      + intros (hrefs & _ & _ & _ & Hnone & _). discriminate. }
  split; [exact Hspec|]. split; [|split].
  - intros l Hl. pose proof (extract_links_valid _ _ _ Hl) as Hvalid.
    split; [exact Hvalid|now apply is_valid_url_accepted].
  - intros hrefs Hsoup Hok l. rewrite Hspec. split.
    + intros (hrefs' & before & href & after & Hsoup' & -> & _ & Hrest).
      rewrite Hsoup in Hsoup'. injection Hsoup' as ->.
      exists href. split; [|exact Hrest].
      apply in_or_app. right. now left.
    + intros (href & Hin & Hrest).
      apply in_split in Hin as (before & after & ->).
      exists (before ++ href :: after)%list, before, href, after.
      split; [exact Hsoup|]. split; [reflexivity|]. split; [|exact Hrest].
      apply Forall_app in Hok as [Hb Ha].
      apply Forall_cons in Ha as [Hh _].
      apply Forall_app. split; [exact Hb|now repeat constructor].
  - intros Hnone. unfold extract_links. now rewrite Hnone.
Qed.

End Links.

Lemma extract_links_spec_witness :
  @soup_hrefs Instances.tiny_soup
    "<a href='/ok1'>one</a> <a href='http://[bad/'>two</a> <a href='/ok2'>three</a>"
  = Some ["/ok1"; "http://[bad/"; "/ok2"]
  /\ @link_raises Instances.cpython_urllib "http://example.com/" "/ok1" = false
  /\ @link_raises Instances.cpython_urllib "http://example.com/" "http://[bad/"
     = true
  /\ "http://example.com/ok1"
       ∈ @extract_links Instances.cpython_urllib Instances.tiny_soup
           "<a href='/ok1'>one</a> <a href='http://[bad/'>two</a> <a href='/ok2'>three</a>"
           "http://example.com/"
  /\ @extract_links Instances.cpython_urllib Instances.tiny_soup
       "<a href='/ok1'>one</a> <a href='http://[bad/'>two</a> <a href='/ok2'>three</a>"
       "http://example.com/"
     = {[ "http://example.com/ok1" ]}.
Proof.
  split; [reflexivity|]. split; [reflexivity|]. split; [reflexivity|].
  split.
  - apply (proj1 (@extract_links_spec Instances.cpython_urllib
                    Instances.tiny_soup _ _)).
    exists ["/ok1"; "http://[bad/"; "/ok2"], [], "/ok1",
           ["http://[bad/"; "/ok2"].
    split; [reflexivity|]. split; [reflexivity|].
    split; [now repeat constructor|]. split; reflexivity.
  - apply (bool_decide_unpack _). vm_compute. exact I.
Defined.

(** ** [collections.Counter] *)

Section Counters.
Implicit Types (c : Counter) (words : list string).

Lemma counter_get_add (elem : string) (count : nat) c (w : string) :
  counter_get (counter_add elem count c) w
  = (if String.eqb elem w then count else 0) + counter_get c w.
Proof.
  induction c as [|[k v] c IH]; simpl.
  - destruct (String.eqb elem w); lia.
  - destruct (String.eqb k elem) eqn:Hk; simpl.
    + apply String.eqb_eq in Hk as ->.
      destruct (String.eqb elem w); lia.
    + destruct (String.eqb k w) eqn:Hw; [|exact IH].
      apply String.eqb_eq in Hw as ->.
      rewrite String.eqb_sym, Hk. lia.
Qed.

Lemma counter_of_snoc words (w : string) :
  counter_of (words ++ [w]) = counter_add w 1 (counter_of words).
Proof. unfold counter_of. now rewrite fold_left_app. Qed.

Lemma existsb_eqb_In (w : string) (l : list string) :
  existsb (String.eqb w) l = true <-> In w l.
Proof.
  rewrite existsb_exists. split.
  - now intros (x & Hx & ->%String.eqb_eq).
  - intros Hin. exists w. split; [exact Hin|apply String.eqb_refl].
Qed.

Lemma counter_add_keys_nodup (elem : string) (count : nat) c :
  NoDup (map fst c) -> NoDup (map fst (counter_add elem count c)).
Proof.
  intros Hnd. rewrite counter_add_keys.
  destruct (existsb (String.eqb elem) (map fst c)) eqn:Hex; [exact Hnd|].
  apply NoDup_app. split; [exact Hnd|]. split; [|apply NoDup_singleton].
  intros x Hx ->%list_elem_of_singleton.
  apply list_elem_of_In, existsb_eqb_In in Hx. congruence.
Qed.

Lemma counter_add_keys_In (elem : string) (count : nat) c (w : string) :
  In w (map fst (counter_add elem count c)) <-> w = elem \/ In w (map fst c).
Proof.
  rewrite counter_add_keys.
  destruct (existsb (String.eqb elem) (map fst c)) eqn:Hex.
  - apply existsb_eqb_In in Hex. split; [now right|]. now intros [->|Hin].
  - rewrite in_app_iff. simpl. intuition congruence.
Qed.

Lemma counter_of_keys words (w : string) :
  In w (map fst (counter_of words)) <-> In w words.
Proof.
  revert w. induction words as [|x ws IH] using rev_ind; intros w; [reflexivity|].
  rewrite counter_of_snoc, counter_add_keys_In, IH, in_app_iff. simpl.
  intuition congruence.
Qed.

Lemma counter_of_get words (w : string) :
  counter_get (counter_of words) w = count_occ string_dec words w.
Proof.
  revert w. induction words as [|x words IH] using rev_ind; intros w; [reflexivity|].
  rewrite counter_of_snoc, counter_get_add, IH, count_occ_app. simpl.
  destruct (string_dec x w) as [->|Hne].
  - rewrite String.eqb_refl. lia.
  - apply String.eqb_neq in Hne. rewrite Hne. lia.
Qed.

Lemma counter_of_nodup words : NoDup (map fst (counter_of words)).
Proof.
  induction words as [|x words IH] using rev_ind; [constructor|].
  rewrite counter_of_snoc. now apply counter_add_keys_nodup.
Qed.

(** X6: [Counter(words)] counts every word by its number of occurrences
    in [words]; its keys are the words of the list, each once, in the
    order of their first occurrence (a word that is read again keeps its
    place, a new word goes to the end). *)
Theorem counter_of_counts words :
  (forall w, counter_get (counter_of words) w = count_occ string_dec words w)
  /\ NoDup (map fst (counter_of words))
  /\ (forall w, In w (map fst (counter_of words)) <-> In w words)
  /\ (forall w, map fst (counter_of (words ++ [w]))
                = if existsb (String.eqb w) words
                  then map fst (counter_of words)
                  else (map fst (counter_of words) ++ [w])%list).
Proof.
  split; [apply counter_of_get|].
  split; [apply counter_of_nodup|].
  split; [apply counter_of_keys|].
  intros w. rewrite counter_of_snoc, counter_add_keys.
  destruct (existsb (String.eqb w) (map fst (counter_of words))) eqn:Hex,
           (existsb (String.eqb w) words) eqn:Hex'; try reflexivity.
  - assert (Hin : In w words)
      by (apply counter_of_keys; apply (proj1 (existsb_eqb_In _ _)); exact Hex).
    apply (proj2 (existsb_eqb_In _ _)) in Hin. congruence.
  - assert (Hin : In w (map fst (counter_of words)))
      by (apply counter_of_keys; apply (proj1 (existsb_eqb_In _ _)); exact Hex').
    apply (proj2 (existsb_eqb_In _ _)) in Hin. congruence.
Qed.

Lemma counter_total_add (elem : string) (count : nat) c :
  counter_total (counter_add elem count c) = count + counter_total c.
Proof.
  induction c as [|[k v] c IH]; simpl; [lia|].
  destruct (String.eqb k elem); simpl; [lia|]. rewrite IH. lia.
Qed.

Lemma counter_total_update c (other : Counter) :
  counter_total (counter_update c other)
  = counter_total c + counter_total other.
Proof.
  unfold counter_update. revert c.
  induction other as [|[k v] other IH]; intros c; simpl; [lia|].
  rewrite IH, counter_total_add. lia.
Qed.

Lemma counter_total_of words : counter_total (counter_of words) = length words.
Proof.
  induction words as [|x words IH] using rev_ind; [reflexivity|].
  rewrite counter_of_snoc, counter_total_add, IH, length_app. simpl. lia.
Qed.

Lemma counter_get_absent c (w : string) :
  ~ In w (map fst c) -> counter_get c w = 0.
Proof.
  induction c as [|[k v] c IH]; simpl; [reflexivity|].
  intros Hnot. destruct (String.eqb k w) eqn:Hk.
  - apply String.eqb_eq in Hk. tauto.
  - apply IH. tauto.
Qed.

(** What [update] adds to the count of [w]: the counts of the items of
    [other] with key [w]. *)
Lemma counter_get_update c (other : Counter) (w : string) :
  counter_get (counter_update c other) w
  = counter_get c w
    + list_sum (map snd (List.filter (fun kv => String.eqb (fst kv) w) other)).
Proof.
  unfold counter_update. revert c.
  induction other as [|[k v] other IH]; intros c; simpl; [lia|].
  rewrite IH, counter_get_add.
  destruct (String.eqb k w); simpl; lia.
Qed.

Lemma counter_get_sum (other : Counter) (w : string) :
  NoDup (map fst other) ->
  list_sum (map snd (List.filter (fun kv => String.eqb (fst kv) w) other))
  = counter_get other w.
Proof.
  induction other as [|[k v] other IH]; simpl; [reflexivity|].
  intros [Hk Hnd]%NoDup_cons. destruct (String.eqb k w) eqn:Hkw; simpl.
  - apply String.eqb_eq in Hkw as ->. rewrite (IH Hnd).
    rewrite counter_get_absent; [lia|].
    intros Hin. apply Hk, list_elem_of_In, Hin.
  - apply (IH Hnd).
Qed.

Lemma counter_add_keys_prefix (elem : string) (count : nat) c :
  exists new, map fst (counter_add elem count c) = (map fst c ++ new)%list.
Proof.
  rewrite counter_add_keys. destruct (existsb _ _).
  - exists []. now rewrite app_nil_r.
  - now exists [elem].
Qed.

Lemma counter_update_keys_prefix (other : Counter) : forall c,
  exists new, map fst (counter_update c other) = (map fst c ++ new)%list.
Proof.
  unfold counter_update.
  induction other as [|[k v] other IH]; intros c; simpl.
  - exists []. now rewrite app_nil_r.
  - destruct (IH (counter_add k v c)) as [new2 ->].
    destruct (counter_add_keys_prefix k v c) as [new1 ->].
    exists (new1 ++ new2)%list. now rewrite app_assoc.
Qed.

(** X7: adding the counter of a page to the global counter adds, for
    every word, its number of occurrences on the page; the total grows by
    the number of words of the page; the words already counted keep
    their places and new words go behind them. *)
Theorem counter_update_adds c words :
  (forall w, counter_get (counter_update c (counter_of words)) w
             = counter_get c w + count_occ string_dec words w)
  /\ counter_total (counter_update c (counter_of words))
     = counter_total c + length words
  /\ (exists new, map fst (counter_update c (counter_of words))
                  = (map fst c ++ new)%list).
Proof.
  split; [|split].
  - intros w. now rewrite counter_get_update,
      (counter_get_sum _ _ (counter_of_nodup words)), counter_of_get.
  - now rewrite counter_total_update, counter_total_of.
  - apply counter_update_keys_prefix.
Qed.

(** X8: [most_common(n)] returns [n] items, or all the items when there
    are fewer: with at least as many places as words the result is the
    full ranking, and the full ranking has every item of the counter. *)
Theorem most_common_length c (n : nat) :
  length (most_common (Some n) c) = Nat.min n (length c)
  /\ length (most_common None c) = length c
  /\ (length c <= n -> most_common (Some n) c = most_common None c).
Proof.
  assert (Hlen : length (sorted_desc c) = length c)
    by apply Permutation_length, sorted_desc_perm.
  unfold most_common. split; [|split].
  - now rewrite length_firstn, Hlen.
  - exact Hlen.
  - intros Hn. apply firstn_all2. lia.
Qed.

End Counters.

(** ** The counts of a crawl *)

Section Forall.
Variable P : string -> Prop.
Implicit Types (c : Counter).

Lemma counter_add_forall (elem : string) (count : nat) c :
  P elem -> 1 <= count ->
  (forall w n, In (w, n) c -> P w /\ 1 <= n) ->
  forall w n, In (w, n) (counter_add elem count c) -> P w /\ 1 <= n.
Proof.
  intros He Hc. induction c as [|[k v] c IH]; intros Hall w n; simpl.
  - intros [[= <- <-]|[]]. now split.
  - destruct (String.eqb k elem) eqn:Hk; simpl.
    + intros [[= <- <-]|Hin].
      * destruct (Hall k v (or_introl eq_refl)). split; [done|lia].
      * apply (Hall w n). now right.
    + intros [[= <- <-]|Hin].
      * apply (Hall k v). now left.
      * apply IH; [|exact Hin]. intros w' n' Hin'. apply Hall. now right.
Qed.

Lemma counter_of_forall (words : list string) :
  (forall w, In w words -> P w) ->
  forall w n, In (w, n) (counter_of words) -> P w /\ 1 <= n.
Proof.
  induction words as [|x words IH] using rev_ind; intros Hall; [intros w n []|].
  rewrite counter_of_snoc. apply counter_add_forall; [|lia|].
  - apply Hall, in_app_iff. right. now left.
  - apply IH. intros w Hw. apply Hall, in_app_iff. now left.
Qed.

Lemma counter_update_forall (other : Counter) : forall c,
  (forall w n, In (w, n) c -> P w /\ 1 <= n) ->
  (forall w n, In (w, n) other -> P w /\ 1 <= n) ->
  forall w n, In (w, n) (counter_update c other) -> P w /\ 1 <= n.
Proof.
  unfold counter_update.
  induction other as [|[k v] other IH]; intros c Hc Ho; [exact Hc|]. simpl.
  apply IH.
  - destruct (Ho k v (or_introl eq_refl)). now apply counter_add_forall.
  - intros w n Hin. apply Ho. now right.
Qed.

End Forall.

Lemma counter_update_nodup (other : Counter) : forall c : Counter,
  NoDup (map fst c) -> NoDup (map fst (counter_update c other)).
Proof.
  unfold counter_update.
  induction other as [|[k v] other IH]; intros c Hc; [exact Hc|]. simpl.
  now apply IH, counter_add_keys_nodup.
Qed.

Lemma extract_words_accepted (ignore_words : gset string) (text w : string) :
  In w (extract_words ignore_words text) -> accepted_word ignore_words w.
Proof.
  intros (Hin & Hlen & Hnot)%extract_words_spec.
  destruct (findall_lower_tokens text w Hin) as (_ & Hlow & _).
  repeat split; [exact Hlow|exact Hlen|].
  now rewrite <- (lower_of_lowercase w Hlow).
Qed.

Lemma pages_total_insert (pwc : gmap string Counter) (url : string)
    (c : Counter) (w : string) :
  pwc !! url = None ->
  pages_total (<[ url := c ]> pwc) w = counter_get c w + pages_total pwc w.
Proof.
  intros Hnone. unfold pages_total.
  rewrite (map_fold_insert_L _ _ _ _ _); [reflexivity| |exact Hnone].
  intros. lia.
Qed.

Section Stats.
Context `{Urllib} `{Bs4} `{Requests}.
Variable ignore_words : gset string.
Variable pick : nat -> list string -> nat.

(** The counts after a page that is not yet visited. *)
Lemma crawl_page_counts (self : WebSpider) (url : string) (n q : nat) :
  url ∉ visited_urls self ->
  let after := (crawl_page ignore_words self url n q).1 in
  match fetched_words ignore_words n url with
  | Some words =>
      word_counts after = counter_update (word_counts self) (counter_of words)
      /\ page_word_counts after
         = <[ url := counter_of words ]> (page_word_counts self)
      /\ total_words_processed after
         = total_words_processed self + length words
  | None =>
      word_counts after = word_counts self
      /\ page_word_counts after = page_word_counts self
      /\ total_words_processed after = total_words_processed self
  end.
Proof.
  intros Hnew. unfold crawl_page, fetched_words.
  rewrite decide_False by done.
  destruct (fetch_page n url) as [html|]; [|done].
  destruct (negb (Py.truthy html)); done.
Qed.

Lemma loop_body_counts (start : string) (st st' : LoopState) :
  crawl_inv start st ->
  loop_body ignore_words pick st = Some st' ->
  exists u rest,
    pop_next pick st = Some (u, rest)
    /\ (u ∉ visited_urls (spider st))
    /\ page_word_counts (spider st) !! u = None
    /\ match fetched_words ignore_words (S (page_count st)) u with
       | Some words =>
           word_counts (spider st')
           = counter_update (word_counts (spider st)) (counter_of words)
           /\ page_word_counts (spider st')
              = <[ u := counter_of words ]> (page_word_counts (spider st))
           /\ total_words_processed (spider st')
              = total_words_processed (spider st) + length words
       | None =>
           word_counts (spider st') = word_counts (spider st)
           /\ page_word_counts (spider st') = page_word_counts (spider st)
           /\ total_words_processed (spider st')
              = total_words_processed (spider st)
       end.
Proof.
  intros [Hdisj Hrec _ _ _ _] Hbody.
  destruct (pop_next pick st) as [[u rest]|] eqn:Hpop.
  2:{ unfold loop_body in Hbody. fold (pop_next pick st) in Hbody.
      now rewrite Hpop in Hbody. }
  apply set_pop_Some in Hpop as Hu. destruct Hu as [Hu _].
  assert (Hnew : u ∉ visited_urls (spider st)).
  { intros Hv. exact (Hdisj u Hu Hv). }
  exists u, rest. split; [reflexivity|]. split; [exact Hnew|]. split.
  { apply not_elem_of_dom. intros Hd. apply Hnew, Hrec, Hd. }
  rewrite (loop_body_unfold ignore_words pick _ _ _ Hpop) in Hbody.
  injection Hbody as <-. simpl.
  apply (crawl_page_counts (spider st) u (S (page_count st)) (size rest) Hnew).
Qed.

Lemma stats_inv_entry (raw : string) (st0 : LoopState) :
  loop_entry new_spider raw = Some st0 -> stats_inv ignore_words st0.
Proof.
  intros [-> _]%loop_entry_spec. split; simpl; try done. constructor.
Qed.

Lemma stats_inv_step (start : string) (st st' : LoopState) :
  crawl_inv start st -> stats_inv ignore_words st ->
  loop_body ignore_words pick st = Some st' ->
  stats_inv ignore_words st'.
Proof.
  intros Hinv [Htot Hpages Hkeys Hwords Hrec Hnum] Hbody.
  pose proof (loop_body_counts start st st' Hinv Hbody)
    as (u & rest & Hpop & Hnew & Hnone & Hcounts).
  apply loop_body_spec in Hbody as (u' & Hpop' & _ & Hpc & _ & _ & _ & Hout).
  rewrite Hpop in Hpop'. injection Hpop' as <- _.
  rewrite decide_False in Hout by done.
  assert (Hnum' : map fst (stdout (spider st')) = seq 1 (page_count st')).
  { rewrite Hout, Hpc, map_app, Hnum, seq_S. reflexivity. }
  destruct (fetched_words ignore_words (S (page_count st)) u) as [words|] eqn:Hf.
  - destruct Hcounts as (Hwc & Hpwc & Ht).
    assert (Hacc : forall w n, In (w, n) (counter_of words) ->
                     accepted_word ignore_words w /\ 1 <= n).
    { apply counter_of_forall. intros w Hw. unfold fetched_words in Hf.
      destruct (fetch_page _ u) as [html|]; [|discriminate].
      destruct (negb (Py.truthy html)); [discriminate|].
      injection Hf as <-. eapply extract_words_accepted, Hw. }
    split.
    + now rewrite Ht, Hwc, counter_total_update, counter_total_of, Htot.
    + intros w. rewrite Hwc, Hpwc, (pages_total_insert _ _ _ _ Hnone).
      rewrite counter_get_update, (counter_get_sum _ _ (counter_of_nodup words)).
      rewrite Hpages. lia.
    + rewrite Hwc. now apply counter_update_nodup.
    + rewrite Hwc. now apply counter_update_forall.
    + intros url c w n. rewrite Hpwc, lookup_insert.
      destruct (decide (u = url)) as [->|Hne].
      * intros [= <-]. apply Hacc.
      * apply Hrec.
    + exact Hnum'.
  - destruct Hcounts as (Hwc & Hpwc & Ht).
    split; rewrite ?Hwc, ?Hpwc, ?Ht; assumption.
Qed.

Lemma stats_inv_iterations (start : string) (n : nat) : forall st st',
  crawl_inv start st -> stats_inv ignore_words st ->
  iterations ignore_words pick n st = Some st' ->
  stats_inv ignore_words st'.
Proof.
  induction n as [|n IH]; intros st st' Hinv Hstats; simpl.
  - now intros [= <-].
  - destruct (decide (urls_to_visit st = ∅)); [discriminate|].
    destruct (loop_body ignore_words pick st) as [st1|] eqn:Hbody; [|discriminate].
    apply IH.
    + eapply crawl_inv_step; eauto.
    + eapply stats_inv_step; eauto.
Qed.

(** The visited URLs are as many as the iterations made. *)
Lemma visited_size (start : string) (st : LoopState) :
  crawl_inv start st -> size (visited_urls (spider st)) = page_count st.
Proof.
  intros [_ _ _ Hprint Honce Hcount].
  rewrite <- Hcount, <- (length_map snd).
  unfold size, set_size. simpl. apply Permutation_length.
  apply NoDup_Permutation; [apply NoDup_elements|exact Honce|].
  intros u. rewrite elem_of_elements, list_elem_of_In. symmetry. apply Hprint.
Qed.

End Stats.

Section CrawlCounts.
Context `{Urllib} `{Bs4} `{Requests}.
Variable ignore_words : gset string.
Variable pick : nat -> list string -> nat.

(** X9: at any point of a crawl, the global count of every word is the
    sum of its counts in the page records. *)
Theorem global_counts_sum_pages (raw : string) (st0 st : LoopState) (n : nat) :
  loop_entry new_spider raw = Some st0 ->
  iterations ignore_words pick n st0 = Some st ->
  forall w, counter_get (word_counts (spider st)) w
            = pages_total (page_word_counts (spider st)) w.
Proof.
  intros Hentry Hit.
  apply (stats_pages ignore_words st).
  eapply stats_inv_iterations; eauto using crawl_inv_entry, stats_inv_entry.
Qed.

(** X10: at any point of a crawl, every word that is counted, globally or
    in a page record, is a word that [extract_words] keeps (lowercase
    letters, more than two of them, not an ignore word), its count is at
    least 1, and no word has two entries in the global counter. *)
Theorem counted_words_accepted (raw : string) (st0 st : LoopState) (n : nat) :
  loop_entry new_spider raw = Some st0 ->
  iterations ignore_words pick n st0 = Some st ->
  NoDup (map fst (word_counts (spider st)))
  /\ (forall w k, In (w, k) (word_counts (spider st)) ->
        accepted_word ignore_words w /\ 1 <= k)
  /\ (forall url c w k,
        page_word_counts (spider st) !! url = Some c -> In (w, k) c ->
        accepted_word ignore_words w /\ 1 <= k).
Proof.
  intros Hentry Hit.
  assert (Hstats : stats_inv ignore_words st)
    by (eapply stats_inv_iterations; eauto using crawl_inv_entry, stats_inv_entry).
  destruct Hstats as [_ _ Hkeys Hwords Hrec _]. auto.
Qed.

(** The numbers of a crawl that has returned. *)
Lemma crawl_website_totals (fuel : nat) (raw : string) (final : WebSpider) :
  crawl_website ignore_words pick fuel new_spider raw = Some final ->
  size (visited_urls final) = length (stdout final)
  /\ total_words_processed final = counter_total (word_counts final)
  /\ map fst (stdout final) = seq 1 (length (stdout final)).
Proof.
  unfold crawl_website.
  destruct (loop_entry new_spider raw) as [st0|] eqn:Hentry.
  - destruct (while_loop ignore_words pick fuel st0) as [stf|] eqn:Hrun;
      [|discriminate].
    intros [= <-].
    apply while_loop_iterations in Hrun as (_ & n & _ & Hit).
    pose proof (crawl_inv_iterations _ _ _ _ _ _ (crawl_inv_entry raw st0 Hentry)
                  Hit) as Hinv.
    pose proof (stats_inv_iterations ignore_words pick _ _ _ _
                  (crawl_inv_entry raw st0 Hentry)
                  (stats_inv_entry ignore_words raw st0 Hentry) Hit) as Hstats.
    rewrite (visited_size _ _ Hinv), (inv_count _ _ Hinv).
    split; [reflexivity|]. split; [apply (stats_total _ _ Hstats)|].
    apply (stats_numbers _ _ Hstats).
  - intros [= <-]. repeat split.
Qed.

End CrawlCounts.

(** X11: when [main] writes JSON, the summary agrees with the crawl: the
    number of pages is the number of pages that the crawl processed and
    printed, numbered 1, 2, ... in order, and the number of word
    occurrences is the number of words that the crawl processed. *)
Theorem main_json_summary `{Urllib} `{Bs4} `{Requests}
    (pick : nat -> list string -> nat) (fuel : nat) (url output : string)
    (ignore_file : option string) (data : JsonData) :
  main pick fuel url output ignore_file = Some (WrittenJson data) ->
  exists final,
    crawl_website (snd (ignore_manager_init ignore_file)) pick fuel
      new_spider url = Some final
    /\ total_pages (summary data) = length (stdout final)
    /\ map fst (stdout final) = seq 1 (total_pages (summary data))
    /\ total_word_occurrences (summary data) = total_words_processed final
    /\ total_unique_words (summary data) = length (word_counts final)
    /\ overall_word_counts data = most_common None (word_counts final).
Proof.
  unfold main, save_results.
  destruct (crawl_website _ pick fuel new_spider url) as [final|] eqn:Hrun;
    [|discriminate].
  destruct (save_format output); [|discriminate|discriminate].
  intros [= <-]. exists final. split; [reflexivity|]. simpl.
  destruct (crawl_website_totals _ _ _ _ _ Hrun) as (Hsize & Htot & Hnum).
  rewrite Hsize, <- Htot. now repeat split.
Qed.

Lemma global_counts_sum_pages_witness :
  exists st,
    @iterations Instances.cpython_urllib Instances.tiny_soup
      Instances.cycle_net ∅ Instances.pick_first 2
      (Instances.entry_at "http://example.com/a") = Some st
    /\ counter_get (word_counts (spider st)) "page" = 2
    /\ counter_get (word_counts (spider st)) "page"
       = pages_total (page_word_counts (spider st)) "page".
Proof.
  assert (He : @loop_entry Instances.cpython_urllib new_spider
                 "http://example.com/a"
               = Some (Instances.entry_at "http://example.com/a"))
    by (vm_compute; reflexivity).
  destruct (@iterations Instances.cpython_urllib Instances.tiny_soup
              Instances.cycle_net ∅ Instances.pick_first 2
              (Instances.entry_at "http://example.com/a")) as [st|] eqn:Hit;
    [|vm_compute in Hit; discriminate].
  exists st. split; [reflexivity|]. split.
  - assert (Hf : match @iterations Instances.cpython_urllib
                     Instances.tiny_soup Instances.cycle_net ∅
                     Instances.pick_first 2
                     (Instances.entry_at "http://example.com/a") with
                 | Some s => counter_get (word_counts (spider s)) "page" = 2
                 | None => False
                 end) by (vm_compute; reflexivity).
    now rewrite Hit in Hf.
  - exact (@global_counts_sum_pages Instances.cpython_urllib
             Instances.tiny_soup Instances.cycle_net ∅ Instances.pick_first
             _ _ _ 2 He Hit "page").
Defined.

Lemma counted_words_accepted_witness :
  exists st,
    @iterations Instances.cpython_urllib Instances.tiny_soup
      Instances.cycle_net {[ "page" ]} Instances.pick_first 2
      (Instances.entry_at "http://example.com/a") = Some st
    /\ map fst (word_counts (spider st)) = ["alpha"; "next"; "beta"; "back"; "top"]
    /\ (forall w k, In (w, k) (word_counts (spider st)) ->
          accepted_word {[ "page" ]} w /\ 1 <= k).
Proof.
  assert (He : @loop_entry Instances.cpython_urllib new_spider
                 "http://example.com/a"
               = Some (Instances.entry_at "http://example.com/a"))
    by (vm_compute; reflexivity).
  destruct (@iterations Instances.cpython_urllib Instances.tiny_soup
              Instances.cycle_net {[ "page" ]} Instances.pick_first 2
              (Instances.entry_at "http://example.com/a")) as [st|] eqn:Hit;
    [|vm_compute in Hit; discriminate].
  exists st. split; [reflexivity|]. split.
  - assert (Hf : match @iterations Instances.cpython_urllib
                     Instances.tiny_soup Instances.cycle_net {[ "page" ]}
                     Instances.pick_first 2
                     (Instances.entry_at "http://example.com/a") with
                 | Some s => map fst (word_counts (spider s))
                             = ["alpha"; "next"; "beta"; "back"; "top"]
                 | None => False
                 end) by (vm_compute; reflexivity).
    now rewrite Hit in Hf.
  - exact (proj1 (proj2 (@counted_words_accepted Instances.cpython_urllib
             Instances.tiny_soup Instances.cycle_net {[ "page" ]}
             Instances.pick_first _ _ _ 2 He Hit))).
Defined.

Lemma main_json_summary_witness :
  exists data final,
    @main Instances.cpython_urllib Instances.tiny_soup Instances.cycle_net
      Instances.pick_last 5 "http://example.com/a" "results.JSON" None
    = Some (WrittenJson data)
    /\ @crawl_website Instances.cpython_urllib Instances.tiny_soup
         Instances.cycle_net (snd (ignore_manager_init None))
         Instances.pick_last 5 new_spider "http://example.com/a" = Some final
    /\ total_pages (summary data) = 2
    /\ total_pages (summary data) = length (stdout final)
    /\ total_word_occurrences (summary data) = total_words_processed final.
Proof.
  destruct (@main Instances.cpython_urllib Instances.tiny_soup
              Instances.cycle_net Instances.pick_last 5
              "http://example.com/a" "results.JSON" None)
    as [[data|text]|] eqn:Hm;
    [|vm_compute in Hm; discriminate|vm_compute in Hm; discriminate].
  destruct (@main_json_summary Instances.cpython_urllib Instances.tiny_soup
              Instances.cycle_net Instances.pick_last 5
              "http://example.com/a" "results.JSON" None data Hm)
    as (final & Hrun & Hpages & _ & Hocc & _).
  exists data, final. split; [reflexivity|]. split; [exact Hrun|].
  split; [|split; [exact Hpages|exact Hocc]].
  assert (Hf : match @main Instances.cpython_urllib Instances.tiny_soup
                   Instances.cycle_net Instances.pick_last 5
                   "http://example.com/a" "results.JSON" None with
               | Some (WrittenJson d) => total_pages (summary d) = 2
               | _ => False
               end) by (vm_compute; reflexivity).
  now rewrite Hm in Hf.
Defined.

(** ** The crawl of a static site *)

Lemma list_sum_perm (l l' : list nat) :
  Permutation l l' -> list_sum l = list_sum l'.
Proof. induction 1; simpl; lia. Qed.

Lemma sum_over_insert (f : string -> nat) (V : gset string) (u : string) :
  u ∉ V ->
  list_sum (map f (elements (V ∪ {[ u ]})))
  = f u + list_sum (map f (elements V)).
Proof.
  intros Hu. rewrite (union_comm_L V {[ u ]}).
  rewrite (list_sum_perm _ (map f (u :: elements V))); [reflexivity|].
  apply Permutation_map, elements_union_singleton, Hu.
Qed.

Section Site.
Context `{Urllib} `{Bs4} `{Requests}.
Variable ignore_words : gset string.
Hypothesis static : static_net.

Lemma fetch_page_static (n : nat) (url : string) :
  fetch_page n url = fetch_page 0 url.
Proof. unfold fetch_page. now rewrite (static n 0 url). Qed.

Lemma page_links_static (n : nat) (url : string) :
  page_links n url = page_links 0 url.
Proof. unfold page_links. now rewrite fetch_page_static. Qed.

Lemma fetched_words_static (n : nat) (url : string) :
  default [] (fetched_words ignore_words n url) = page_words ignore_words url.
Proof. unfold page_words, fetched_words. now rewrite fetch_page_static. Qed.

Lemma site_inv_entry (raw : string) (st0 : LoopState) :
  loop_entry new_spider raw = Some st0 ->
  site_inv ignore_words (normalize_url raw) st0.
Proof.
  intros [-> _]%loop_entry_spec. split; simpl.
  - intros u Hu. rewrite union_empty_r_L in Hu.
    apply elem_of_singleton in Hu as ->. constructor.
  - intros u v Hu. now apply not_elem_of_empty in Hu.
  - intros w. now rewrite elements_empty.
  - now rewrite elements_empty.
Qed.

Lemma site_inv_step (pick : nat -> list string -> nat) (start : string)
    (st st' : LoopState) :
  crawl_inv start st -> site_inv ignore_words start st ->
  loop_body ignore_words pick st = Some st' ->
  site_inv ignore_words start st'.
Proof.
  intros Hinv [Hreach Hlinks Hcounts Htotal] Hbody.
  pose proof (loop_body_counts ignore_words pick start st st' Hinv Hbody)
    as (u & rest & Hpop & Hnew & _ & Hwc).
  apply loop_body_spec in Hbody as (u' & Hpop' & Hu & _ & Hv & Hpend & _).
  rewrite Hpop in Hpop'. injection Hpop' as <- _.
  split.
  - intros x [Hx|Hx]%elem_of_union.
    + apply Hpend in Hx as [[Hx _]|(_ & Hx & _)].
      * apply Hreach, elem_of_union_l, Hx.
      * rewrite page_links_static in Hx.
        apply (reach_step _ _ u x); [|exact Hx].
        apply Hreach, elem_of_union_l, Hu.
    + rewrite Hv in Hx. apply elem_of_union in Hx as [Hx|Hx].
      * apply Hreach, elem_of_union_r, Hx.
      * apply elem_of_singleton in Hx as ->.
        apply Hreach, elem_of_union_l, Hu.
  - intros x v Hx Hxv. rewrite Hv in Hx. rewrite Hv.
    rewrite elem_of_union, Hpend, !elem_of_union, elem_of_singleton.
    destruct (decide (v = u)) as [->|Hvu]; [now right; right|].
    apply elem_of_union in Hx as [Hx|Hx].
    + apply (Hlinks x v Hx), elem_of_union in Hxv as [Hp|Hp].
      * left; left. now split.
      * right; left. exact Hp.
    + apply elem_of_singleton in Hx as ->.
      destruct (decide (v ∈ visited_urls (spider st))) as [Hin|Hout].
      * right; left. exact Hin.
      * left; right. split; [exact Hnew|]. split.
        -- now rewrite page_links_static.
        -- tauto.
  - intros w. rewrite Hv, (sum_over_insert _ _ _ Hnew), <- Hcounts.
    rewrite <- fetched_words_static with (n := S (page_count st)).
    destruct (fetched_words ignore_words (S (page_count st)) u) as [words|].
    + destruct Hwc as (-> & _). simpl.
      rewrite counter_get_update, (counter_get_sum _ _ (counter_of_nodup words)).
      rewrite counter_of_get. lia.
    + destruct Hwc as (-> & _). reflexivity.
  - rewrite Hv, (sum_over_insert _ _ _ Hnew), <- Htotal.
    rewrite <- fetched_words_static with (n := S (page_count st)).
    destruct (fetched_words ignore_words (S (page_count st)) u) as [words|].
    + destruct Hwc as (_ & _ & ->). simpl. lia.
    + destruct Hwc as (_ & _ & ->). reflexivity.
Qed.

Lemma site_inv_iterations (pick : nat -> list string -> nat) (start : string)
    (n : nat) : forall st st',
  crawl_inv start st -> site_inv ignore_words start st ->
  iterations ignore_words pick n st = Some st' ->
  site_inv ignore_words start st'.
Proof.
  induction n as [|n IH]; intros st st' Hinv Hsite; simpl.
  - now intros [= <-].
  - destruct (decide (urls_to_visit st = ∅)); [discriminate|].
    destruct (loop_body ignore_words pick st) as [st1|] eqn:Hbody; [|discriminate].
    apply IH.
    + eapply crawl_inv_step; eauto.
    + eapply site_inv_step; eauto.
Qed.

(** The crawl of a static site that lies within [U] returns, with the
    URLs that can be reached and the counts of their pages. *)
Lemma crawl_static (pick : nat -> list string -> nat) (U : gset string)
    (raw : string) (fuel : nat) (st0 : LoopState) :
  (forall u, u ∈ U -> page_links 0 u ⊆ U) ->
  normalize_url raw ∈ U -> size U <= fuel ->
  loop_entry new_spider raw = Some st0 ->
  exists final,
    crawl_website ignore_words pick fuel new_spider raw = Some final
    /\ (forall u, u ∈ visited_urls final <->
                  reachable (page_links 0) (normalize_url raw) u)
    /\ (forall w, counter_get (word_counts final) w
          = list_sum (map (fun u => count_occ string_dec
                                      (page_words ignore_words u) w)
                          (elements (visited_urls final))))
    /\ total_words_processed final
       = list_sum (map (fun u => length (page_words ignore_words u))
                       (elements (visited_urls final))).
Proof.
  intros Hclosed Hstart Hfuel Hentry.
  pose proof (crawl_inv_entry raw st0 Hentry) as Hinv0.
  destruct (while_loop_terminates ignore_words pick U (normalize_url raw))
    with (fuel := fuel) (st := st0) as (stf & Hrun & Hend & Hinvf & _);
    [| exact Hinv0 | | |].
  { intros n u Hu. rewrite page_links_static. now apply Hclosed. }
  { apply loop_entry_spec in Hentry as [-> _]. unfold within. simpl.
    clear - Hstart. set_solver. }
  { etrans; [|exact Hfuel]. apply subseteq_size. clear. set_solver. }
  exists (spider stf). unfold crawl_website. rewrite Hentry, Hrun.
  split; [reflexivity|].
  pose proof (while_loop_visits_all _ _ _ _ _ Hrun) as Hall.
  apply while_loop_iterations in Hrun as (_ & n & _ & Hit).
  destruct (site_inv_iterations pick _ n st0 stf Hinv0
              (site_inv_entry raw st0 Hentry) Hit)
    as [Hreach Hlinks Hcounts Htotal].
  split; [|split; [exact Hcounts|exact Htotal]].
  intros u. split.
  - intros Hu. apply Hreach, elem_of_union_r, Hu.
  - induction 1 as [|u v _ IH Hv].
    + apply Hall. apply loop_entry_spec in Hentry as [-> _]. simpl.
      clear. set_solver.
    + specialize (Hlinks u v IH Hv). rewrite Hend in Hlinks.
      clear - Hlinks. set_solver.
Qed.

(** X12: on a static site whose links stay within a finite set, the
    crawl visits exactly the URLs that can be reached from the start URL
    by following the links that pass the domain test, whatever [pop]
    picks. *)
Theorem crawl_visits_reachable (pick : nat -> list string -> nat)
    (U : gset string) (raw : string) (fuel : nat) :
  (forall u, u ∈ U -> page_links 0 u ⊆ U) ->
  normalize_url raw ∈ U -> size U <= fuel ->
  is_valid_url (normalize_url raw) = true ->
  exists final,
    crawl_website ignore_words pick fuel new_spider raw = Some final
    /\ forall u, u ∈ visited_urls final <->
                 reachable (page_links 0) (normalize_url raw) u.
Proof.
  intros Hclosed Hstart Hfuel Hvalid.
  destruct (crawl_static pick U raw fuel
              {| spider := new_spider;
                 urls_to_visit := {[ normalize_url raw ]};
                 page_count := 0 |} Hclosed Hstart Hfuel)
    as (final & Hrun & Hvis & _).
  { unfold loop_entry. now rewrite Hvalid. }
  now exists final.
Qed.

(** X13: on a static site whose links stay within a finite set, the
    results do not depend on the order in which [pop] picks the URLs: two
    crawls visit the same URLs and count every word the same number of
    times. *)
Theorem crawl_order_independent (pick1 pick2 : nat -> list string -> nat)
    (U : gset string) (raw : string) (fuel : nat) :
  (forall u, u ∈ U -> page_links 0 u ⊆ U) ->
  normalize_url raw ∈ U -> size U <= fuel ->
  exists final1 final2,
    crawl_website ignore_words pick1 fuel new_spider raw = Some final1
    /\ crawl_website ignore_words pick2 fuel new_spider raw = Some final2
    /\ visited_urls final1 = visited_urls final2
    /\ (forall w, counter_get (word_counts final1) w
                  = counter_get (word_counts final2) w)
    /\ total_words_processed final1 = total_words_processed final2.
Proof.
  intros Hclosed Hstart Hfuel.
  destruct (loop_entry new_spider raw) as [st0|] eqn:Hentry.
  - destruct (crawl_static pick1 U raw fuel st0 Hclosed Hstart Hfuel Hentry)
      as (f1 & Hrun1 & Hvis1 & Hc1 & Ht1).
    destruct (crawl_static pick2 U raw fuel st0 Hclosed Hstart Hfuel Hentry)
      as (f2 & Hrun2 & Hvis2 & Hc2 & Ht2).
    assert (Hsame : visited_urls f1 = visited_urls f2).
    { apply set_eq. intros u. now rewrite Hvis1, Hvis2. }
    exists f1, f2. do 3 (split; [done|]). split.
    + intros w. now rewrite Hc1, Hc2, Hsame.
    + now rewrite Ht1, Ht2, Hsame.
  - exists new_spider, new_spider. unfold crawl_website. rewrite Hentry.
    now repeat split.
Qed.

(** X14: on a static site whose links stay within a finite set, the
    crawl counts every page once: at the end the count of a word is the
    sum, over the URLs visited, of its occurrences among the words of the
    page, and the number of words processed is the sum of the numbers of
    words of these pages (a page without content has no word). *)
Theorem crawl_counts_pages (pick : nat -> list string -> nat)
    (U : gset string) (raw : string) (fuel : nat) :
  (forall u, u ∈ U -> page_links 0 u ⊆ U) ->
  normalize_url raw ∈ U -> size U <= fuel ->
  is_valid_url (normalize_url raw) = true ->
  exists final,
    crawl_website ignore_words pick fuel new_spider raw = Some final
    /\ (forall w, counter_get (word_counts final) w
          = list_sum (map (fun u => count_occ string_dec
                                      (page_words ignore_words u) w)
                          (elements (visited_urls final))))
    /\ total_words_processed final
       = list_sum (map (fun u => length (page_words ignore_words u))
                       (elements (visited_urls final))).
Proof.
  intros Hclosed Hstart Hfuel Hvalid.
  destruct (crawl_static pick U raw fuel
              {| spider := new_spider;
                 urls_to_visit := {[ normalize_url raw ]};
                 page_count := 0 |} Hclosed Hstart Hfuel)
    as (final & Hrun & _ & Hcounts & Htotal).
  { unfold loop_entry. now rewrite Hvalid. }
  now exists final.
Qed.

End Site.

Lemma crawl_visits_reachable_witness :
  exists final,
    @crawl_website Instances.cpython_urllib Instances.tiny_soup
      Instances.broken_net ∅ Instances.pick_last 4 new_spider
      "http://example.com/a" = Some final
    /\ (forall u, u ∈ visited_urls final <->
          reachable (@page_links Instances.cpython_urllib Instances.tiny_soup
                       Instances.broken_net 0)
            "http://example.com/a" u).
Proof.
  apply (@crawl_visits_reachable Instances.cpython_urllib Instances.tiny_soup
           Instances.broken_net ∅ (fun n m url => eq_refl)
           Instances.pick_last
           {[ "http://example.com/a"; "http://example.com/b";
              "http://example.com/c"; "http://example.com/d" ]}
           "http://example.com/a" 4).
  - intros u Hu. apply (bool_decide_unpack _).
    repeat (apply elem_of_union in Hu as [Hu|Hu]);
      apply elem_of_singleton in Hu as ->; vm_compute; exact I.
  - apply (bool_decide_unpack _). vm_compute. exact I.
  - vm_compute. repeat constructor.
  - vm_compute. reflexivity.
Defined.

Lemma crawl_order_independent_witness :
  exists final1 final2,
    @crawl_website Instances.cpython_urllib Instances.tiny_soup
      Instances.broken_net ∅ Instances.pick_first 4 new_spider
      "http://example.com/a" = Some final1
    /\ @crawl_website Instances.cpython_urllib Instances.tiny_soup
         Instances.broken_net ∅ Instances.pick_last 4 new_spider
         "http://example.com/a" = Some final2
    /\ map snd (stdout final1) <> map snd (stdout final2)
    /\ visited_urls final1 = visited_urls final2
    /\ (forall w, counter_get (word_counts final1) w
                  = counter_get (word_counts final2) w).
Proof.
  destruct (@crawl_order_independent Instances.cpython_urllib
              Instances.tiny_soup Instances.broken_net ∅
              (fun n m url => eq_refl) Instances.pick_first Instances.pick_last
              {[ "http://example.com/a"; "http://example.com/b";
                 "http://example.com/c"; "http://example.com/d" ]}
              "http://example.com/a" 4)
    as (f1 & f2 & Hrun1 & Hrun2 & Hvis & Hwords & _).
  - intros u Hu. apply (bool_decide_unpack _).
    repeat (apply elem_of_union in Hu as [Hu|Hu]);
      apply elem_of_singleton in Hu as ->; vm_compute; exact I.
  - apply (bool_decide_unpack _). vm_compute. exact I.
  - vm_compute. repeat constructor.
  - exists f1, f2. split; [exact Hrun1|]. split; [exact Hrun2|].
    split; [|split; [exact Hvis|exact Hwords]].
    assert (Hf : match @crawl_website Instances.cpython_urllib
                     Instances.tiny_soup Instances.broken_net ∅
                     Instances.pick_first 4 new_spider "http://example.com/a",
                   @crawl_website Instances.cpython_urllib
                     Instances.tiny_soup Instances.broken_net ∅
                     Instances.pick_last 4 new_spider "http://example.com/a"
                 with
                 | Some a, Some b =>
                     bool_decide (map snd (stdout a) <> map snd (stdout b))
                 | _, _ => false
                 end = true) by (vm_compute; reflexivity).
    rewrite Hrun1, Hrun2 in Hf. now apply bool_decide_eq_true in Hf.
Defined.

Lemma crawl_counts_pages_witness :
  exists final,
    @crawl_website Instances.cpython_urllib Instances.tiny_soup
      Instances.broken_net ∅ Instances.pick_last 4 new_spider
      "http://example.com/a" = Some final
    /\ (forall w, counter_get (word_counts final) w
          = list_sum (map (fun u => count_occ string_dec
                             (@page_words Instances.tiny_soup
                                Instances.broken_net ∅ u) w)
                          (elements (visited_urls final))))
    /\ total_words_processed final
       = list_sum (map (fun u => length (@page_words Instances.tiny_soup
                                           Instances.broken_net ∅ u))
                       (elements (visited_urls final))).
Proof.
  apply (@crawl_counts_pages Instances.cpython_urllib Instances.tiny_soup
           Instances.broken_net ∅ (fun n m url => eq_refl)
           Instances.pick_last
           {[ "http://example.com/a"; "http://example.com/b";
              "http://example.com/c"; "http://example.com/d" ]}
           "http://example.com/a" 4).
  - intros u Hu. apply (bool_decide_unpack _).
    repeat (apply elem_of_union in Hu as [Hu|Hu]);
      apply elem_of_singleton in Hu as ->; vm_compute; exact I.
  - apply (bool_decide_unpack _). vm_compute. exact I.
  - vm_compute. repeat constructor.
  - vm_compute. reflexivity.
Defined.

(** ** [OutputManager.save_results] *)

Lemma split_char_aux_nonempty (ch : ascii) (s : string) : forall cur,
  Py.split_char_aux ch cur s <> [].
Proof.
  induction s as [|c s IH]; intros cur; simpl; [discriminate|].
  destruct (Ascii.eqb c ch); [discriminate|apply IH].
Qed.

Lemma split_char_aux_none (ch : ascii) (s : string) : forall cur,
  Py.all_chars (fun c => negb (Ascii.eqb c ch)) s = true ->
  Py.split_char_aux ch cur s = [cur ++ s].
Proof.
  induction s as [|c s IH]; intros cur; simpl.
  - now rewrite append_nil_r.
  - intros [Hc Hs]%andb_prop. apply negb_true_iff in Hc. rewrite Hc.
    rewrite (IH _ Hs), append_assoc. reflexivity.
Qed.

Lemma last_cons_nonempty {A : Type} (x d : A) (l : list A) :
  l <> [] -> List.last (x :: l) d = List.last l d.
Proof. now destruct l. Qed.

Lemma split_char_aux_last (ch : ascii) (base ext : string) : forall cur,
  Py.all_chars (fun c => negb (Ascii.eqb c ch)) ext = true ->
  List.last (Py.split_char_aux ch cur (base ++ String ch ext)) "" = ext.
Proof.
  induction base as [|c base IH]; intros cur Hext.
  - rewrite append_nil_l. simpl. rewrite Ascii.eqb_refl.
    rewrite last_cons_nonempty by apply split_char_aux_nonempty.
    now rewrite (split_char_aux_none _ _ _ Hext).
  - rewrite append_cons. simpl. destruct (Ascii.eqb c ch).
    + rewrite last_cons_nonempty by apply split_char_aux_nonempty.
      now apply IH.
    + now apply IH.
Qed.

Lemma lower_append (a b : string) : Py.lower (a ++ b) = Py.lower a ++ Py.lower b.
Proof.
  induction a as [|c a IH]; [reflexivity|].
  rewrite append_cons. simpl. now rewrite IH.
Qed.

Lemma lower_no_dot (s : string) :
  Py.all_chars (fun c => negb (Ascii.eqb c ".")) s = true ->
  Py.all_chars (fun c => negb (Ascii.eqb c ".")) (Py.lower s) = true.
Proof.
  induction s as [|c s IH]; simpl; [reflexivity|].
  intros [Hc Hs]%andb_prop. rewrite (IH Hs), andb_true_r.
  revert Hc. destruct c as [[] [] [] [] [] [] [] []]; vm_compute; congruence.
Qed.

(** X15: [save_results] chooses the format by the text after the last dot
    of the output file name, whatever its letter case: "json" gives JSON,
    "csv" gives CSV, anything else gives plain text. A name without a dot
    is compared as a whole, so that a file named "json" is written as
    JSON. *)
Theorem save_format_by_extension (base ext : string) :
  Py.all_chars (fun c => negb (Ascii.eqb c ".")) ext = true ->
  file_ext (base ++ "." ++ ext) = Py.lower ext
  /\ file_ext ext = Py.lower ext
  /\ save_format (base ++ "." ++ ext) = save_format ext
  /\ save_format ext
     = (if String.eqb (Py.lower ext) "json" then Json
        else if String.eqb (Py.lower ext) "csv" then Csv else Txt).
Proof.
  intros Hext. apply lower_no_dot in Hext.
  assert (H1 : file_ext (base ++ "." ++ ext) = Py.lower ext).
  { unfold file_ext, Py.split_char. rewrite lower_append.
    change (Py.lower ("." ++ ext)) with (String "." (Py.lower ext)).
    now apply split_char_aux_last. }
  assert (H2 : file_ext ext = Py.lower ext).
  { unfold file_ext, Py.split_char.
    now rewrite (split_char_aux_none _ _ _ Hext). }
  unfold save_format. rewrite H1, H2. now repeat split.
Qed.

Lemma save_format_by_extension_witness :
  save_format "crawl.2024.JSON" = Json
  /\ save_format "json" = Json
  /\ save_format "words.Csv" = Csv
  /\ save_format "words.json.bak" = Txt.
Proof.
  pose proof (save_format_by_extension "crawl.2024" "JSON" eq_refl)
    as (_ & _ & H1 & H1').
  pose proof (save_format_by_extension "" "json" eq_refl) as (_ & _ & _ & H2).
  pose proof (save_format_by_extension "words" "Csv" eq_refl)
    as (_ & _ & H3 & H3').
  pose proof (save_format_by_extension "words.json" "bak" eq_refl)
    as (_ & _ & H4 & H4').
  split; [exact (eq_trans H1 H1')|]. split; [exact H2|].
  split; [exact (eq_trans H3 H3')|exact (eq_trans H4 H4')].
Defined.

(** ** The start of a crawl *)

Section Start.
Context `{Urllib} `{Bs4} `{Requests}.
Variable ignore_words : gset string.
Variable pick : nat -> list string -> nat.

Lemma iterations_stdout_prefix (n : nat) : forall st st',
  iterations ignore_words pick n st = Some st' ->
  exists more, stdout (spider st') = (stdout (spider st) ++ more)%list.
Proof.
  induction n as [|n IH]; intros st st'; simpl.
  - intros [= <-]. exists []. now rewrite app_nil_r.
  - destruct (decide (urls_to_visit st = ∅)); [discriminate|].
    destruct (loop_body ignore_words pick st) as [st1|] eqn:Hbody; [|discriminate].
    intros (more & ->)%IH.
    apply loop_body_spec in Hbody as (u & _ & _ & _ & _ & _ & _ & ->).
    destruct (decide (u ∈ visited_urls (spider st))); [now exists more|].
    eexists. now rewrite <- app_assoc.
Qed.

Lemma iterations_visited_grow (n : nat) : forall st st',
  iterations ignore_words pick n st = Some st' ->
  visited_urls (spider st) ⊆ visited_urls (spider st').
Proof.
  induction n as [|n IH]; intros st st'; simpl.
  - now intros [= <-].
  - destruct (decide (urls_to_visit st = ∅)); [discriminate|].
    destruct (loop_body ignore_words pick st) as [st1|] eqn:Hbody;
      [|discriminate].
    intros Hit%IH. etrans; [|exact Hit].
    apply loop_body_spec in Hbody as (u & _ & _ & _ & Hv & _).
    rewrite Hv. clear. set_solver.
Qed.

(** X16: unless [normalize_url] or [get_domain] raises at its start,
    [crawl_website] does one of two things.  A start URL whose normal
    form has no scheme or no network location ends it at once: the spider
    is unchanged, whatever its state.  Otherwise the loop is entered and
    its first iteration processes the normal form of the start URL as
    page 1; that page stays the first one printed, and visited, in every
    later state of the loop and in the result of the crawl. *)
Theorem crawl_website_start (fuel : nat) (raw : string) :
  crawl_website_raises raw = false ->
  (is_valid_url (normalize_url raw) = false ->
   forall self, crawl_website ignore_words pick fuel self raw = Some self)
  /\ (is_valid_url (normalize_url raw) = true ->
      exists st0 st1,
        loop_entry new_spider raw = Some st0
        /\ iterations ignore_words pick 1 st0 = Some st1
        /\ stdout (spider st1) = [(1, normalize_url raw)]
        /\ visited_urls (spider st1) = {[ normalize_url raw ]}
        /\ (forall n st,
              iterations ignore_words pick (S n) st0 = Some st ->
              head (stdout (spider st)) = Some (1, normalize_url raw)
              /\ normalize_url raw ∈ visited_urls (spider st))
        /\ (forall final,
              crawl_website ignore_words pick fuel new_spider raw
              = Some final ->
              head (stdout final) = Some (1, normalize_url raw)
              /\ normalize_url raw ∈ visited_urls final)).
Proof.
  intros _. split.
  - intros Hinvalid self. unfold crawl_website, loop_entry.
    now rewrite Hinvalid.
  - intros Hvalid.
    set (st0 := {| spider := new_spider;
                   urls_to_visit := {[ normalize_url raw ]};
                   page_count := 0 |}).
    assert (Hentry : loop_entry new_spider raw = Some st0)
      by (unfold loop_entry; now rewrite Hvalid).
    assert (Hne : urls_to_visit st0 <> ∅)
      by apply (non_empty_singleton_L (normalize_url raw)).
    destruct (loop_body_only ignore_words pick st0 (normalize_url raw)
                eq_refl (not_elem_of_empty _))
      as (st1 & Hb1 & Hv1 & _ & Ho1 & _).
    assert (Hlater : forall n st,
      iterations ignore_words pick (S n) st0 = Some st ->
      head (stdout (spider st)) = Some (1, normalize_url raw)
      /\ normalize_url raw ∈ visited_urls (spider st)).
    { intros n st. simpl. rewrite decide_False by exact Hne. rewrite Hb1.
      intros Hit. split.
      - apply iterations_stdout_prefix in Hit as (more & ->).
        now rewrite Ho1.
      - apply iterations_visited_grow in Hit. apply Hit. rewrite Hv1.
        clear. set_solver. }
    exists st0, st1. split; [exact Hentry|].
    split; [simpl; rewrite decide_False by exact Hne; now rewrite Hb1|].
    split; [exact Ho1|].
    split; [rewrite Hv1; simpl; clear; set_solver|].
    split; [exact Hlater|].
    intros final. unfold crawl_website. rewrite Hentry.
    destruct (while_loop ignore_words pick fuel st0) as [stf|] eqn:Hrun;
      [|discriminate].
    intros [= <-].
    apply while_loop_iterations in Hrun as (Hend & n & _ & Hit).
    destruct n as [|n]; [|exact (Hlater n stf Hit)].
    simpl in Hit. injection Hit as <-. now destruct Hne.
Qed.

(** The URLs that a crawl knows are valid, so that [urlparse] accepts
    them. *)
Lemma crawl_urls_valid (n : nat) : forall st st',
  (forall u, u ∈ urls_to_visit st ∪ visited_urls (spider st) ->
     is_valid_url u = true) ->
  iterations ignore_words pick n st = Some st' ->
  forall u, u ∈ urls_to_visit st' ∪ visited_urls (spider st') ->
    is_valid_url u = true.
Proof.
  induction n as [|n IH]; intros st st' Hvalid; simpl.
  - now intros [= <-].
  - destruct (decide (urls_to_visit st = ∅)); [discriminate|].
    destruct (loop_body ignore_words pick st) as [st1|] eqn:Hbody;
      [|discriminate].
    apply IH. intros l Hl.
    apply loop_body_spec in Hbody as (u & _ & Hu & _ & Hv & Hpend & _).
    apply elem_of_union in Hl as [Hl|Hl].
    + apply Hpend in Hl as [[Hl _]|(_ & Hl & _)].
      * apply Hvalid. now apply elem_of_union_l.
      * unfold page_links in Hl.
        destruct (fetch_page (S (page_count st)) u) as [html|];
          [|now apply not_elem_of_empty in Hl].
        destruct (negb (Py.truthy html));
          [now apply not_elem_of_empty in Hl|].
        apply elem_of_filter in Hl as [_ Hl].
        exact (extract_links_valid _ _ _ Hl).
    + rewrite Hv in Hl. apply elem_of_union in Hl as [Hl|Hl].
      * apply Hvalid. now apply elem_of_union_r.
      * apply elem_of_singleton in Hl as ->. apply Hvalid.
        now apply elem_of_union_l.
Qed.

(** X19: once [crawl_website] has entered its loop, no [ValueError] can
    leave it: every URL to visit and every URL visited is valid, so that
    [urlparse] accepts it, the links of [extract_links] are valid too,
    and the domain test of [crawl_page] never raises. *)
Theorem crawl_page_never_raises (raw : string) (st0 st : LoopState)
    (n : nat) :
  loop_entry new_spider raw = Some st0 ->
  iterations ignore_words pick n st0 = Some st ->
  (forall u, u ∈ urls_to_visit st ∪ visited_urls (spider st) ->
     is_valid_url u = true /\ urlparse_raises u = false)
  /\ (forall u rest, pop_next pick st = Some (u, rest) ->
        crawl_page_raises (spider st) u (S (page_count st)) = false).
Proof.
  intros [-> Hstart]%loop_entry_spec Hit.
  assert (Hvalid : forall u,
    u ∈ urls_to_visit st ∪ visited_urls (spider st) -> is_valid_url u = true).
  { apply (crawl_urls_valid n _ _) with (2 := Hit). simpl. intros u Hu.
    assert (u = normalize_url raw) as -> by (clear - Hu; set_solver).
    exact Hstart. }
  split.
  - intros u Hu. split; [now apply Hvalid|].
    now apply is_valid_url_accepted, Hvalid.
  - intros u rest [Hu _]%set_pop_Some. unfold crawl_page_raises.
    destruct (decide (u ∈ visited_urls (spider st))); [reflexivity|].
    destruct (fetch_page (S (page_count st)) u) as [html|]; [|reflexivity].
    destruct (negb (Py.truthy html)); [reflexivity|].
    destruct (existsb _ _) eqn:Hex; [|reflexivity].
    apply existsb_exists in Hex as (link & Hlink & Hraise).
    apply list_elem_of_In, elem_of_elements, extract_links_valid,
      is_valid_url_accepted in Hlink.
    assert (Hacc : urlparse_raises u = false)
      by (apply is_valid_url_accepted, Hvalid; now apply elem_of_union_l).
    unfold is_same_domain_raises, get_domain_raises in Hraise.
    now rewrite Hlink, Hacc in Hraise.
Qed.

End Start.

Lemma crawl_website_start_witness :
  @crawl_website_raises Instances.cpython_urllib "http://[bad" = true
  /\ @crawl_website_raises Instances.cpython_urllib "example.com/a" = false
  /\ @crawl_website Instances.cpython_urllib Instances.tiny_soup
       Instances.cycle_net ∅ Instances.pick_first 5 new_spider "example.com/a"
     = Some new_spider
  /\ @crawl_website_raises Instances.cpython_urllib "HTTP://example.com/a#top"
     = false
  /\ (exists st0 st1,
        @loop_entry Instances.cpython_urllib new_spider
          "HTTP://example.com/a#top" = Some st0
        /\ @iterations Instances.cpython_urllib Instances.tiny_soup
             Instances.cycle_net ∅ Instances.pick_first 1 st0 = Some st1
        /\ stdout (spider st1) = [(1, "http://example.com/a")]
        /\ visited_urls (spider st1) = {[ "http://example.com/a" ]}).
Proof.
  split; [reflexivity|]. split; [reflexivity|]. split.
  - apply (proj1 (@crawl_website_start Instances.cpython_urllib
                    Instances.tiny_soup Instances.cycle_net ∅
                    Instances.pick_first 5 "example.com/a" eq_refl)).
    vm_compute. reflexivity.
  - split; [reflexivity|].
    destruct (proj2 (@crawl_website_start Instances.cpython_urllib
                       Instances.tiny_soup Instances.cycle_net ∅
                       Instances.pick_first 5 "HTTP://example.com/a#top"
                       eq_refl) eq_refl)
      as (st0 & st1 & Hentry & Hit & Hout & Hvis & _).
    exists st0, st1. split; [exact Hentry|]. split; [exact Hit|].
    split; [exact Hout|exact Hvis].
Defined.

Lemma crawl_page_never_raises_witness :
  exists st,
    @iterations Instances.cpython_urllib Instances.tiny_soup
      Instances.cycle_net ∅ Instances.pick_first 1
      (Instances.entry_at "http://example.com/a") = Some st
    /\ (forall u, u ∈ urls_to_visit st ∪ visited_urls (spider st) ->
          @is_valid_url Instances.cpython_urllib u = true
          /\ @urlparse_raises Instances.cpython_urllib u = false)
    /\ (forall u rest,
          pop_next Instances.pick_first st = Some (u, rest) ->
          @crawl_page_raises Instances.cpython_urllib Instances.tiny_soup
            Instances.cycle_net (spider st) u (S (page_count st)) = false).
Proof.
  destruct (@iterations Instances.cpython_urllib Instances.tiny_soup
              Instances.cycle_net ∅ Instances.pick_first 1
              (Instances.entry_at "http://example.com/a")) as [st|] eqn:Hit;
    [|vm_compute in Hit; discriminate].
  exists st. split; [reflexivity|].
  apply (@crawl_page_never_raises Instances.cpython_urllib
           Instances.tiny_soup Instances.cycle_net ∅ Instances.pick_first
           "http://example.com/a" (Instances.entry_at "http://example.com/a")
           st 1); [vm_compute; reflexivity|exact Hit].
Defined.

(** ** The clean-up of [extract_text_from_html] keeps the words *)

Lemma space_not_word (c : ascii) : Py.is_space c = true -> Py.is_word c = false.
Proof. destruct c as [[] [] [] [] [] [] [] []]; vm_compute; congruence. Qed.

Lemma linebreak_is_space (c : ascii) :
  Py.is_linebreak c = true -> Py.is_space c = true.
Proof. destruct c as [[] [] [] [] [] [] [] []]; vm_compute; congruence. Qed.

Lemma lower_char_word (c : ascii) : Py.is_word (Py.lower_char c) = Py.is_word c.
Proof. destruct c as [[] [] [] [] [] [] [] []]; reflexivity. Qed.

(** Only whether the character on the left is a word character matters. *)
Lemma match_here_prev (p q : option ascii) (s : string) :
  Py.is_word_opt p = Py.is_word_opt q ->
  Py.match_here p s = Py.match_here q s.
Proof.
  intros Hpq. destruct s as [|c s]; [reflexivity|]. simpl.
  unfold Py.boundary. now rewrite Hpq.
Qed.

Lemma findall_aux_prev (p q : option ascii) (s : string) :
  Py.is_word_opt p = Py.is_word_opt q ->
  Py.findall_aux p 0 s = Py.findall_aux q 0 s.
Proof.
  intros Hpq. destruct s as [|c s]; [reflexivity|].
  rewrite !findall_aux_try. now rewrite (match_here_prev p q _ Hpq).
Qed.

(** A character that is not a word character ends a match as the end of
    the text does. *)
Lemma match_run_stop (s : string) : forall prev c rest,
  Py.is_word c = false ->
  Py.match_run prev (s ++ String c rest) = Py.match_run prev s.
Proof.
  induction s as [|d s IH]; intros prev c rest Hc.
  - rewrite append_nil_l. simpl. rewrite (not_word_not_alpha _ Hc).
    unfold Py.boundary. simpl. now rewrite Hc.
  - rewrite append_cons. simpl. now rewrite (IH d c rest Hc).
Qed.

Lemma match_here_stop (s : string) (prev : option ascii) (c : ascii)
    (rest : string) :
  s <> "" -> Py.is_word c = false ->
  Py.match_here prev (s ++ String c rest) = Py.match_here prev s.
Proof.
  intros Hne Hc. destruct s as [|d s]; [done|].
  rewrite append_cons. simpl. now rewrite (match_run_stop s d c rest Hc).
Qed.

Lemma match_here_length (prev : option ascii) (s m : string) :
  Py.match_here prev s = Some m -> 1 <= String.length m <= String.length s.
Proof.
  intros (rest & -> & Hne & _)%match_here_sound.
  rewrite length_append. destruct m; [done|simpl; lia].
Qed.

Lemma findall_aux_split (s : string) : forall prev skip c rest,
  Py.is_word c = false -> skip <= String.length s ->
  Py.findall_aux prev skip (s ++ String c rest)
  = (Py.findall_aux prev skip s ++ Py.findall_aux None 0 rest)%list.
Proof.
  induction s as [|d s IH]; intros prev skip c rest Hc Hskip.
  - simpl in Hskip. assert (skip = 0) as -> by lia.
    rewrite append_nil_l, findall_aux_try. simpl Py.match_here.
    unfold Py.boundary. simpl Py.is_word_opt at 2.
    rewrite Hc, (not_word_not_alpha _ Hc), xorb_false_r, andb_false_r. simpl.
    apply findall_aux_prev. simpl. exact Hc.
  - rewrite append_cons. destruct skip as [|k].
    + rewrite !findall_aux_try, <- append_cons.
      rewrite (match_here_stop (String d s) prev c rest) by done.
      destruct (Py.match_here prev (String d s)) as [m|] eqn:Hm.
      * apply match_here_length in Hm. simpl in Hm.
        rewrite (IH (Some d) _ c rest Hc) by lia. reflexivity.
      * apply (IH (Some d) 0 c rest Hc). lia.
    + rewrite !findall_aux_skip. apply (IH (Some d) k c rest Hc).
      simpl in Hskip. lia.
Qed.

(** The words of a text broken at a character that is not a word
    character are the words of its two parts. *)
Lemma words_split (a b : string) (c : ascii) :
  Py.is_word c = false ->
  Py.findall (Py.lower (a ++ String c b))
  = (Py.findall (Py.lower a) ++ Py.findall (Py.lower b))%list.
Proof.
  intros Hc. unfold Py.findall. rewrite lower_append. simpl.
  apply findall_aux_split; [now rewrite lower_char_word|lia].
Qed.

Lemma words_cons (c : ascii) (s : string) :
  Py.is_word c = false ->
  Py.findall (Py.lower (String c s)) = Py.findall (Py.lower s).
Proof. intros Hc. exact (words_split "" s c Hc). Qed.

Lemma words_spaces (t : string) :
  Py.all_chars Py.is_space t = true -> Py.findall (Py.lower t) = [].
Proof.
  induction t as [|c t IH]; [reflexivity|]. simpl Py.all_chars.
  intros [Hc Ht]%andb_prop.
  now rewrite (words_cons c t (space_not_word c Hc)), IH.
Qed.

Lemma words_app_spaces (a t : string) :
  Py.all_chars Py.is_space t = true ->
  Py.findall (Py.lower (a ++ t)) = Py.findall (Py.lower a).
Proof.
  destruct t as [|c t]; [now rewrite append_nil_r|]. simpl Py.all_chars.
  intros [Hc Ht]%andb_prop.
  rewrite (words_split a t c (space_not_word c Hc)), (words_spaces t Ht).
  apply app_nil_r.
Qed.

Lemma words_lstrip (s : string) :
  Py.findall (Py.lower (Py.lstrip s)) = Py.findall (Py.lower s).
Proof.
  induction s as [|c s IH]; [reflexivity|]. simpl Py.lstrip.
  destruct (Py.is_space c) eqn:Hc; [|reflexivity].
  now rewrite IH, (words_cons c s (space_not_word c Hc)).
Qed.

Lemma rstrip_decomp (s : string) :
  exists t, s = Py.rstrip s ++ t /\ Py.all_chars Py.is_space t = true.
Proof.
  induction s as [|c s (t & Hs & Ht)]; [now exists ""|]. simpl.
  destruct (Py.rstrip s) as [|d r] eqn:Hr.
  - destruct (Py.is_space c) eqn:Hc.
    + exists (String c s). split; [reflexivity|]. simpl. rewrite Hc.
      rewrite append_nil_l in Hs. now rewrite Hs.
    + exists t. split; [|exact Ht]. rewrite append_nil_l in Hs.
      now rewrite append_cons, append_nil_l, <- Hs.
  - exists t. split; [|exact Ht]. now rewrite append_cons, <- Hs.
Qed.

Lemma words_strip (s : string) :
  Py.findall (Py.lower (Py.strip s)) = Py.findall (Py.lower s).
Proof.
  unfold Py.strip. destruct (rstrip_decomp (Py.lstrip s)) as (t & Hs & Ht).
  rewrite <- (words_lstrip s). rewrite Hs at 2.
  now rewrite (words_app_spaces _ t Ht).
Qed.

Lemma words_of_app (l1 l2 : list string) :
  words_of (l1 ++ l2) = (words_of l1 ++ words_of l2)%list.
Proof. unfold words_of. now rewrite map_app, concat_app. Qed.

Lemma words_splitlines_aux (s : string) : forall cur,
  words_of (Py.splitlines_aux cur s) = Py.findall (Py.lower (cur ++ s)).
Proof.
  induction s as [|c s IH]; intros cur.
  - rewrite append_nil_r. simpl. destruct cur; [reflexivity|].
    unfold words_of. simpl. apply app_nil_r.
  - simpl. destruct (Py.is_linebreak c) eqn:Hc.
    + pose proof (space_not_word c (linebreak_is_space c Hc)) as Hw.
      rewrite (words_split cur s c Hw).
      assert (Hplain : words_of (cur :: Py.splitlines_aux "" s)
                       = (Py.findall (Py.lower cur)
                          ++ Py.findall (Py.lower s))%list).
      { unfold words_of. simpl. f_equal. apply (IH ""). }
      destruct (Ascii.eqb c "013") eqn:Hcr.
      * apply Ascii.eqb_eq in Hcr as ->.
        destruct s as [|d s']; [exact Hplain|].
        destruct (Ascii.eqb d "010") eqn:Hlf.
        -- apply Ascii.eqb_eq in Hlf as ->. unfold words_of. simpl.
           f_equal. fold (words_of (Py.splitlines_aux "" s')).
           assert (Htail : words_of (Py.splitlines_aux "" (String "010" s'))
                           = Py.findall (Py.lower (String "010" s')))
             by apply (IH "").
           simpl in Htail. unfold words_of in Htail at 1. simpl in Htail.
           rewrite (words_cons "010" s' eq_refl) in *. exact Htail.
        -- replace (match d with "010"%char => _ | _ => _ end)
             with (cur :: Py.splitlines_aux "" (String d s')); [exact Hplain|].
           revert Hlf. clear.
           destruct d as [[] [] [] [] [] [] [] []]; try reflexivity. discriminate.
      * replace (match c with "013"%char => _ | _ => _ end)
          with (cur :: Py.splitlines_aux "" s); [exact Hplain|].
        revert Hcr. clear.
        destruct c as [[] [] [] [] [] [] [] []]; try reflexivity;
          try discriminate; now destruct s.
    + rewrite IH, append_assoc. reflexivity.
Qed.

Lemma words_split_2sp_aux (s : string) : forall cur,
  words_of (Py.split_2sp_aux cur s) = Py.findall (Py.lower (cur ++ s)).
Proof.
  assert (Hstrong : forall n s, String.length s <= n -> forall cur,
    words_of (Py.split_2sp_aux cur s) = Py.findall (Py.lower (cur ++ s)));
    [|exact (Hstrong _ s (Nat.le_refl _))].
  clear s. intros n. induction n as [|n IHn]; intros s Hlen cur.
  { destruct s; [|simpl in Hlen; lia].
    rewrite append_nil_r. unfold words_of. simpl. apply app_nil_r. }
  assert (IH : forall t, String.length t < String.length s -> forall cur,
    words_of (Py.split_2sp_aux cur t) = Py.findall (Py.lower (cur ++ t))).
  { intros t Ht. apply IHn. lia. }
  clear IHn Hlen. destruct s as [|c s].
  - rewrite append_nil_r. unfold words_of. simpl. apply app_nil_r.
  - assert (Hother : words_of (Py.split_2sp_aux (cur ++ String c "") s)
                     = Py.findall (Py.lower (cur ++ String c s))).
    { rewrite (IH s) by (simpl; lia).
      rewrite append_assoc. reflexivity. }
    destruct (Ascii.eqb c " ") eqn:Hc.
    + apply Ascii.eqb_eq in Hc as ->. destruct s as [|d s'].
      * exact Hother.
      * destruct (Ascii.eqb d " ") eqn:Hd.
        -- apply Ascii.eqb_eq in Hd as ->. simpl Py.split_2sp_aux.
           unfold words_of. simpl. fold (words_of (Py.split_2sp_aux "" s')).
           rewrite (IH s') by (simpl; lia). rewrite append_nil_l.
           rewrite (words_split cur (String " " s') " " eq_refl).
           now rewrite (words_cons " " s' eq_refl).
        -- replace (Py.split_2sp_aux cur (String " " (String d s')))
             with (Py.split_2sp_aux (cur ++ String " " "") (String d s'));
             [exact Hother|].
           revert Hd. clear.
           destruct d as [[] [] [] [] [] [] [] []]; try reflexivity. discriminate.
    + replace (Py.split_2sp_aux cur (String c s))
        with (Py.split_2sp_aux (cur ++ String c "") s); [exact Hother|].
      revert Hc. clear.
      destruct c as [[] [] [] [] [] [] [] []]; try reflexivity;
        try discriminate; now destruct s.
Qed.

Lemma words_of_map_strip (l : list string) :
  words_of (map Py.strip l) = words_of l.
Proof.
  induction l as [|x l IH]; [reflexivity|]. unfold words_of in *. simpl.
  now rewrite words_strip, IH.
Qed.

Lemma words_of_chunks (lines : list string) :
  words_of (flat_map (fun line => map Py.strip (Py.split_2sp line)) lines)
  = words_of lines.
Proof.
  induction lines as [|x l IH]; [reflexivity|]. simpl.
  rewrite words_of_app, IH, words_of_map_strip. unfold Py.split_2sp.
  rewrite words_split_2sp_aux, append_nil_l. reflexivity.
Qed.

Lemma words_of_filter_truthy (l : list string) :
  words_of (List.filter Py.truthy l) = words_of l.
Proof.
  induction l as [|x l IH]; [reflexivity|]. simpl.
  destruct x as [|c x]; simpl.
  - exact IH.
  - unfold words_of in *. simpl. now rewrite IH.
Qed.

Lemma words_join (l : list string) :
  Py.findall (Py.lower (Py.join " " l)) = words_of l.
Proof.
  unfold Py.join. induction l as [|x l IH]; [reflexivity|].
  destruct l as [|y l].
  - unfold words_of. simpl. symmetry. apply app_nil_r.
  - change (String.concat " " (x :: y :: l))
      with (x ++ String " " (String.concat " " (y :: l))).
    rewrite (words_split x _ " " eq_refl), IH. reflexivity.
Qed.

(** ** The candidates of the pattern, one for each run *)

Lemma findall_aux_skip_all (s : string) : forall prev k,
  String.length s <= k -> Py.findall_aux prev k s = [].
Proof.
  induction s as [|c s IH]; intros prev k Hk; [reflexivity|].
  simpl in Hk. destruct k as [|k]; [lia|].
  rewrite findall_aux_skip. apply IH. lia.
Qed.

Lemma last_char_all (p : ascii -> bool) (s : string) :
  Py.all_chars p s = true -> s <> "" ->
  exists d, Py.last_char s = Some d /\ p d = true.
Proof.
  induction s as [|c s IH]; [done|]. simpl.
  intros [Hc Hs]%andb_prop _. destruct s as [|c' s'].
  - now exists c.
  - destruct (IH Hs) as (d & -> & Hd); [done|]. now exists d.
Qed.

(** A run of word characters is one candidate when all of them are
    letters, and gives no candidate otherwise. *)
Lemma findall_word_run (w : string) :
  Py.all_chars Py.is_word w = true ->
  Py.findall w
  = if Py.all_chars Py.is_alpha w && Py.truthy w then [w] else [].
Proof.
  intros Hword. destruct (Py.all_chars Py.is_alpha w) eqn:Halpha; simpl.
  - destruct w as [|c w]; [reflexivity|]. simpl.
    unfold Py.findall. rewrite findall_aux_try.
    pose proof (match_here_complete None (String c w) "" eq_refl
                  ltac:(done) Halpha eq_refl) as Hm.
    rewrite append_nil_r in Hm. rewrite Hm. f_equal.
    apply findall_aux_skip_all. simpl. lia.
  - destruct (Py.findall w) as [|m l] eqn:Hfind; [reflexivity|].
    assert (Hin : In m (Py.findall w)) by (rewrite Hfind; now left).
    apply findall_delimited in Hin
      as (pre & post & (Heq & Hne & Hletters) & Hleft & Hright).
    rewrite Heq, !all_chars_append in Hword.
    apply andb_prop in Hword as [Hpre [_ Hpost]%andb_prop].
    assert (pre = "") as ->.
    { destruct pre as [|c pre]; [reflexivity|].
      destruct (last_char_all _ _ Hpre) as (d & Hd & Hw); [done|].
      rewrite Hd in Hleft. simpl in Hleft. congruence. }
    assert (post = "") as ->.
    { destruct post as [|c post]; [reflexivity|].
      simpl in Hpost, Hright. apply andb_prop in Hpost as [Hc _].
      congruence. }
    rewrite append_nil_l, append_nil_r in Heq. subst m. congruence.
Qed.

Lemma findall_runs_aux (s : string) : forall cur,
  Py.all_chars Py.is_word cur = true ->
  List.filter (Py.all_chars Py.is_alpha) (runs_aux Py.is_word cur s)
  = Py.findall (cur ++ s).
Proof.
  assert (Hone : forall cur, Py.all_chars Py.is_word cur = true ->
    List.filter (Py.all_chars Py.is_alpha)
      (if Py.truthy cur then [cur] else [])
    = Py.findall cur).
  { intros cur Hcur. rewrite (findall_word_run cur Hcur).
    destruct cur as [|c cur]; simpl; [reflexivity|].
    rewrite ?andb_true_r. now destruct (Py.is_alpha c && _). }
  induction s as [|c s IH]; intros cur Hcur.
  - rewrite append_nil_r. exact (Hone cur Hcur).
  - simpl. destruct (Py.is_word c) eqn:Hc.
    + rewrite IH, append_assoc; [reflexivity|].
      rewrite all_chars_append, Hcur. simpl. now rewrite Hc.
    + rewrite List.filter_app, (Hone cur Hcur), (IH "" eq_refl), append_nil_l.
      unfold Py.findall. symmetry.
      apply findall_aux_split; [exact Hc|lia].
Qed.

Lemma lower_isascii (s : string) :
  Py.isascii s = true -> Py.isascii (Py.lower s) = true.
Proof.
  unfold Py.isascii. induction s as [|c s IH]; [reflexivity|]. simpl.
  intros [Hc Hs]%andb_prop. rewrite (IH Hs), andb_true_r.
  revert Hc. destruct c as [[] [] [] [] [] [] [] []]; vm_compute; congruence.
Qed.

(** C6 (amended): on ASCII text, the candidates found in the lowercased
    page text are, from left to right and one for each, the maximal runs
    of letters, digits and underscores that consist of letters only:
    these are the non-empty runs of ASCII letters that stand between word
    boundaries, that is, that no letter, digit or underscore touches;
    adjacent punctuation does not matter.  Every candidate consists of
    lowercase ASCII letters, so no candidate contains a digit, and "co2"
    yields no candidate. *)
Theorem tokenize_delimited_runs (text : string) :
  Py.isascii text = true ->
  Py.isascii (Py.lower text) = true
  /\ Py.findall (Py.lower text)
     = List.filter (Py.all_chars Py.is_alpha)
         (runs Py.is_word (Py.lower text))
  /\ (forall w, In w (Py.findall (Py.lower text)) <->
                exists pre post, delimited_run (Py.lower text) pre w post)
  /\ (forall w, In w (Py.findall (Py.lower text)) ->
        w <> "" /\ Py.all_chars Py.is_lower w = true
        /\ Py.all_chars (fun c => negb (Py.is_digit c)) w = true)
  /\ Py.findall (Py.lower "co2") = []
  /\ Py.findall (Py.lower "CO2, co-op.") = ["co"; "op"].
Proof.
  intros Hascii. split; [now apply lower_isascii|].
  split; [symmetry; apply (findall_runs_aux (Py.lower text) "" eq_refl)|].
  split; [intros w; apply findall_delimited|].
  split; [intros w; apply findall_lower_tokens|].
  split; reflexivity.
Qed.

Lemma tokenize_delimited_runs_witness :
  Py.isascii "H2O and CO2: Water_vapour, co-op, ice!" = true
  /\ runs Py.is_word (Py.lower "H2O and CO2: Water_vapour, co-op, ice!")
     = ["h2o"; "and"; "co2"; "water_vapour"; "co"; "op"; "ice"]
  /\ Py.findall (Py.lower "H2O and CO2: Water_vapour, co-op, ice!")
     = ["and"; "co"; "op"; "ice"].
Proof.
  split; [reflexivity|]. split; [reflexivity|].
  exact (eq_trans
           (proj1 (proj2 (tokenize_delimited_runs
                            "H2O and CO2: Water_vapour, co-op, ice!" eq_refl)))
           eq_refl).
Defined.

Section CleanUp.
Context `{Bs4}.
Variable ignore_words : gset string.

(** X17: The clean-up that [extract_text_from_html] applies to the
    text of the parsed page (splitting into lines, stripping them,
    splitting at double spaces, dropping empty chunks and joining with
    single spaces) changes no word: [extract_words] returns the same
    list for the cleaned text as for the raw text of the page. *)
Theorem clean_text_keeps_words (html text : string) :
  soup_get_text html = Some text ->
  extract_words ignore_words (extract_text_from_html html)
  = extract_words ignore_words text.
Proof.
  intros Htext. unfold extract_words, extract_text_from_html.
  rewrite Htext. cbv zeta.
  rewrite words_join, words_of_filter_truthy, words_of_chunks,
    words_of_map_strip.
  unfold Py.splitlines. rewrite words_splitlines_aux, append_nil_l.
  reflexivity.
Qed.

End CleanUp.

Lemma clean_text_keeps_words_witness :
  @soup_get_text Instances.tiny_soup "<p> Crawl   the  Web </p><i>now</i>"
  = Some " Crawl   the  Web now"
  /\ extract_words {[ "the" ]}
       (@extract_text_from_html Instances.tiny_soup
          "<p> Crawl   the  Web </p><i>now</i>")
     = extract_words {[ "the" ]} " Crawl   the  Web now".
Proof.
  split; [reflexivity|].
  apply (@clean_text_keeps_words Instances.tiny_soup). reflexivity.
Defined.

(** ** [OutputManager._save_csv] and [_save_txt] *)

Lemma string_of_uint_no_linebreak (d : Decimal.uint) :
  Py.all_chars (fun c => negb (Ascii.eqb c "010" || Ascii.eqb c "013"))
    (NilEmpty.string_of_uint d) = true.
Proof. induction d; simpl; auto. Qed.

Lemma readlines_aux_lines (render : string * nat -> string)
    (items : list (string * nat)) :
  Forall (fun item =>
            Py.all_chars
              (fun c => negb (Ascii.eqb c "010" || Ascii.eqb c "013"))
              (render item) = true) items ->
  Py.readlines_aux ""
    (String.concat "" (map (fun item => render item ++ String "010" "") items))
  = map (fun item => render item ++ String "010" "") items.
Proof.
  induction items as [|x l IH]; intros Hall; [reflexivity|].
  apply Forall_cons in Hall as [Hx Hl].
  assert (Hstep : forall rest,
    Py.readlines_aux "" ((render x ++ String "010" "") ++ rest)
    = (render x ++ String "010" "") :: Py.readlines_aux "" rest).
  { intros rest. rewrite append_assoc, append_cons, append_nil_l.
    rewrite (readlines_aux_line (render x) "" rest Hx), append_nil_l.
    reflexivity. }
  cbn [map]. destruct l as [|y l].
  - cbn [map String.concat]. rewrite <- (append_nil_r (render x ++ _)) at 1.
    now rewrite Hstep.
  - change (String.concat "" ((render x ++ String "010" "")
             :: map (fun item => render item ++ String "010" "") (y :: l)))
      with ((render x ++ String "010" "") ++ "" ++
            String.concat ""
              (map (fun item => render item ++ String "010" "") (y :: l))).
    rewrite append_nil_l, Hstep, (IH Hl). reflexivity.
Qed.

(** X18: The text that [_save_csv] writes, read back line by line, has
    one line [count,word] for every distinct word, in the order of
    [most_common()], provided that no word contains a line feed or a
    carriage return. *)
Theorem save_csv_lines (word_counts : Counter) :
  Forall (fun item =>
            Py.all_chars
              (fun c => negb (Ascii.eqb c "010" || Ascii.eqb c "013"))
              (fst item) = true) word_counts ->
  Py.readlines (_save_csv word_counts)
  = map (fun item => Py.str_of_nat (snd item) ++ "," ++ fst item
                     ++ String "010" "")
        (most_common None word_counts)
  /\ length (Py.readlines (_save_csv word_counts)) = length word_counts.
Proof.
  intros Hall.
  assert (Hlines : Py.readlines (_save_csv word_counts)
    = map (fun item => Py.str_of_nat (snd item) ++ "," ++ fst item
                       ++ String "010" "")
          (most_common None word_counts)).
  { unfold Py.readlines, _save_csv.
    pose (render := fun item : string * nat =>
                      Py.str_of_nat (snd item) ++ "," ++ fst item).
    assert (Heq : forall item,
      Py.str_of_nat (snd item) ++ "," ++ fst item ++ String "010" ""
      = render item ++ String "010" "").
    { intros item. unfold render. now rewrite !append_assoc. }
    rewrite (map_ext _ _ Heq). apply readlines_aux_lines.
    assert (Hsorted : Forall (fun item =>
              Py.all_chars
                (fun c => negb (Ascii.eqb c "010" || Ascii.eqb c "013"))
                (fst item) = true) (most_common None word_counts)).
    { unfold most_common.
      eapply Permutation_Forall; [|exact Hall].
      symmetry. apply sorted_desc_perm. }
    eapply List.Forall_impl; [|exact Hsorted].
    intros item Hitem. unfold render, Py.str_of_nat.
    rewrite !all_chars_append, string_of_uint_no_linebreak, Hitem.
    reflexivity. }
  split; [exact Hlines|].
  rewrite Hlines, length_map. unfold most_common.
  apply Permutation_length, sorted_desc_perm.
Qed.

Lemma save_csv_lines_witness :
  Py.readlines (_save_csv [("web", 2); ("crawl", 5); ("page", 2)])
  = [ "5,crawl" ++ String "010" "";
      "2,web" ++ String "010" "";
      "2,page" ++ String "010" "" ]
  /\ length (Py.readlines (_save_csv [("web", 2); ("crawl", 5); ("page", 2)]))
     = 3.
Proof.
  apply (save_csv_lines [("web", 2); ("crawl", 5); ("page", 2)]).
  repeat constructor.
Defined.
